(** * phish_extractor: the setlist pipeline of [PhishDataExtractor]

    A shallow embedding of [src/phish_extractor.py]: the HTTP client with its
    retry loop, the catalog and setlist fetchers, the setlist formatter and
    feature extractor, and the wide and long exporters, followed by the
    properties the specification states about them (Part II) and by further
    properties of the code (Part III).

    Conventions.
    - A Python [str] is a [string]; a character is a code point below 256.
      Every code point outside ASCII behaves, for the operations used in the
      source, like the Latin-1 ones modelled here.
    - A Python [int] is a [Z]; a duration passed to [time.sleep] is a [Q].
    - A Python [dict] whose iteration order is observable is an association
      list in insertion order ([pydict]); the [set] of song names is a
      [gset string], and the order in which a loop visits it is a parameter
      of that loop, because Python leaves it unspecified.
    - JSON objects received from the API are records with optional fields:
      a field is [None] when the key is absent. The members have the types
      the API gives them (strings, integers, lists of objects); a member
      that is present with [null] or with a value of another type is not
      modelled. A response body that is JSON but not an object is
      [JsonOther].
    - Requests and pauses are events of a trace; the server is a function
      from the number of requests sent so far to what [requests.get] does.

    Logging, the request headers and parameters, the writing of the CSV
    files, and [main] are left out: no property below depends on them. *)

From Stdlib Require Import String Ascii ZArith QArith List Lia Bool.
From Stdlib Require Import DecimalString.
From stdpp Require Import gmap strings list.
Import ListNotations.

Open Scope string_scope.
Open Scope Z_scope.
Open Scope list_scope.

(* ===================================================================== *)
(** * Part I: definitions                                                 *)
(* ===================================================================== *)

(** ** Python string primitives used by the source *)

Module PyStr.

Definition code (c : ascii) : N := N_of_ascii c.

Definition between (lo hi : N) (c : ascii) : bool :=
  ((lo <=? code c) && (code c <=? hi))%N.

(** [str.isspace] on one character: the characters [str.strip()] removes. *)
Definition is_space (c : ascii) : bool :=
  between 9 13 c || between 28 32 c || (code c =? 133)%N || (code c =? 160)%N.

Definition is_upper_ascii (c : ascii) : bool := between 65 90 c.
Definition is_lower_ascii (c : ascii) : bool := between 97 122 c.
Definition is_digit (c : ascii) : bool := between 48 57 c.

(** Cased Latin-1 capitals: U+00C0..U+00DE without the sign U+00D7. *)
Definition is_upper_latin1 (c : ascii) : bool :=
  between 192 222 c && negb (code c =? 215)%N.

Definition lower_char (c : ascii) : ascii :=
  if is_upper_ascii c || is_upper_latin1 c
  then ascii_of_N (code c + 32)
  else c.

(** [s.lower()] *)
Fixpoint lower (s : string) : string :=
  match s with
  | EmptyString => EmptyString
  | String c s' => String (lower_char c) (lower s')
  end.

(** [s.lstrip(chars)], [s.rstrip(chars)], [s.strip(chars)], the set of
    characters to remove given as a predicate. *)
Fixpoint lstrip_by (p : ascii -> bool) (s : string) : string :=
  match s with
  | EmptyString => EmptyString
  | String c s' => if p c then lstrip_by p s' else s
  end.

Fixpoint rstrip_by (p : ascii -> bool) (s : string) : string :=
  match s with
  | EmptyString => EmptyString
  | String c s' =>
      match rstrip_by p s' with
      | EmptyString => if p c then EmptyString else String c EmptyString
      | r => String c r
      end
  end.

Definition strip_by (p : ascii -> bool) (s : string) : string :=
  lstrip_by p (rstrip_by p s).

(** [s.strip()] *)
Definition strip (s : string) : string := strip_by is_space s.

(** [s.split(sep)] for a one-character separator. *)
Fixpoint split (sep : ascii) (s : string) : list string :=
  match s with
  | EmptyString => [EmptyString]
  | String c s' =>
      if Ascii.eqb c sep then EmptyString :: split sep s'
      else match split sep s' with
           | piece :: rest => String c piece :: rest
           | [] => [String c EmptyString]
           end
  end.

(** [s.split(sep, 1)] for a one-character separator. *)
Fixpoint split1 (sep : ascii) (s : string) : list string :=
  match s with
  | EmptyString => [EmptyString]
  | String c s' =>
      if Ascii.eqb c sep then [EmptyString; s']
      else match split1 sep s' with
           | piece :: rest => String c piece :: rest
           | [] => [String c EmptyString]
           end
  end.

(** [sub in s] *)
Fixpoint contains (sub s : string) : bool :=
  String.prefix sub s ||
  match s with
  | EmptyString => false
  | String _ s' => contains sub s'
  end.

(** [s.replace(old, new)] for a non-empty [old]: occurrences are replaced
    from the left and do not overlap; [skip] counts the characters of a
    matched occurrence still to be passed over. *)
Fixpoint replace_from (old new : string) (skip : nat) (s : string) : string :=
  match s with
  | EmptyString => EmptyString
  | String c s' =>
      match skip with
      | S k => replace_from old new k s'
      | O =>
          if String.prefix old s
          then new +:+ replace_from old new (Nat.pred (String.length old)) s'
          else String c (replace_from old new O s')
      end
  end.

Definition replace (old new s : string) : string := replace_from old new O s.

(** [sep.join(pieces)] *)
Definition join (sep : string) (pieces : list string) : string :=
  String.concat sep pieces.

(** Truth value of a [str]. *)
Definition truthy (s : string) : bool :=
  match s with EmptyString => false | _ => true end.

(** [re.sub(r'[^a-zA-Z0-9_]', '_', s)] *)
Definition is_word (c : ascii) : bool :=
  is_lower_ascii c || is_upper_ascii c || is_digit c || Ascii.eqb c "_".

Fixpoint sub_non_word (s : string) : string :=
  match s with
  | EmptyString => EmptyString
  | String c s' => String (if is_word c then c else "_"%char) (sub_non_word s')
  end.

(** [re.sub(r'_+', '_', s)]: of a run of underscores only the last stays. *)
Fixpoint sub_underscore_runs (s : string) : string :=
  match s with
  | EmptyString => EmptyString
  | String c s' =>
      match s' with
      | String d _ =>
          if Ascii.eqb c "_" && Ascii.eqb d "_"
          then sub_underscore_runs s'
          else String c (sub_underscore_runs s')
      | EmptyString => String c EmptyString
      end
  end.

Definition is_underscore (c : ascii) : bool := Ascii.eqb c "_".

End PyStr.

(** ** Column names: [clean_column_name] (source lines 448-455) *)

Definition clean_column_name (name : string) : string :=
  let cleaned := PyStr.sub_non_word name in
  let cleaned := PyStr.sub_underscore_runs cleaned in
  let cleaned := PyStr.lower (PyStr.strip_by PyStr.is_underscore cleaned) in
  cleaned.

(** ** Long-format rows: [parse_setlist_for_ml] (source lines 521-566) *)

Record song_row := {
  set_name : string;
  song_position : Z;
  song_name : string;
  has_segue : bool;
  segue_info : string
}.

(** The body of the loop over [enumerate(raw_songs, 1)], for one piece. *)
Definition parse_raw_song (set_name : string) (position : Z) (raw_song : string)
    : list song_row :=
  let raw_song := PyStr.strip raw_song in
  let '(has_segue, segue_info, song_name) :=
    if PyStr.contains ">" raw_song
    then (true, ">", PyStr.strip (PyStr.replace ">" "" raw_song))
    else if PyStr.contains "->" raw_song
    then (true, "->", PyStr.strip (PyStr.replace "->" "" raw_song))
    else (false, "", raw_song) in
  if PyStr.truthy song_name
  then [ {| set_name := set_name; song_position := position;
            song_name := song_name; has_segue := has_segue;
            segue_info := segue_info |} ]
  else [].

(** [enumerate(xs, start)] *)
Fixpoint enumerate {A : Type} (start : Z) (xs : list A) : list (Z * A) :=
  match xs with
  | [] => []
  | x :: xs' => (start, x) :: enumerate (start + 1) xs'
  end.

(** The body of the loop over [sets], for one chunk between [|]s. The
    unpacking of [split(':', 1)] into two names cannot fail under the guard
    [':' in set_info]; the last branch is that impossible case. *)
Definition parse_set_info (set_info : string) : list song_row :=
  let set_info := PyStr.strip set_info in
  if PyStr.contains ":" set_info then
    match PyStr.split1 ":" set_info with
    | [set_name; song_list] =>
        let set_name := PyStr.strip set_name in
        let raw_songs := PyStr.split "," song_list in
        flat_map (fun '(position, raw_song) =>
                    parse_raw_song set_name position raw_song)
                 (enumerate 1 raw_songs)
    | _ => []
    end
  else [].

Definition parse_setlist_for_ml (setlist_string : string) : list song_row :=
  if negb (PyStr.truthy setlist_string) then []
  else flat_map parse_set_info (PyStr.split "|" setlist_string).

(** ** Python containers *)

(** A [dict] with [str] keys, in insertion order. *)
Definition pydict (V : Type) : Type := list (string * V).

Fixpoint dict_get {V : Type} (k : string) (d : pydict V) : option V :=
  match d with
  | [] => None
  | (k', v) :: d' => if String.eqb k k' then Some v else dict_get k d'
  end.

(** [k in d] *)
Definition dict_has {V : Type} (k : string) (d : pydict V) : bool :=
  match dict_get k d with Some _ => true | None => false end.

(** [d[k] = v]: an existing key keeps its place, a new key goes last. *)
Fixpoint dict_set {V : Type} (k : string) (v : V) (d : pydict V) : pydict V :=
  match d with
  | [] => [(k, v)]
  | (k', v') :: d' =>
      if String.eqb k k' then (k', v) :: d' else (k', v') :: dict_set k v d'
  end.

(** [d.keys()] *)
Definition dict_keys {V : Type} (d : pydict V) : list string := map fst d.

(** [d[k]] of a [defaultdict] with default [dflt]. *)
Definition dict_get_default {V : Type} (dflt : V) (k : string) (d : pydict V) : V :=
  match dict_get k d with Some v => v | None => dflt end.

(** [range(start, stop, step)]; Python refuses [step = 0], which callers
    check before they get here. *)
Definition py_range (start stop step : Z) : list Z :=
  if 0 <? step then
    map (fun i => start + Z.of_nat i * step)
        (seq 0 (Z.to_nat ((stop - start + step - 1) / step)))
  else if step <? 0 then
    map (fun i => start + Z.of_nat i * step)
        (seq 0 (Z.to_nat ((start - stop - step - 1) / (- step))))
  else [].

(** [xs[a:b]] for [0 <= a <= b]. *)
Definition slice {A : Type} (a b : Z) (xs : list A) : list A :=
  firstn (Z.to_nat b - Z.to_nat a) (skipn (Z.to_nat a) xs).

(** [xs.sort(key=lambda x: x[0])]: Python's sort is stable, and every stable
    sort gives the same list; this one inserts from the right. *)
Fixpoint insert_by_key {A : Type} (x : Z * A) (xs : list (Z * A)) : list (Z * A) :=
  match xs with
  | [] => [x]
  | y :: xs' => if fst x <=? fst y then x :: xs else y :: insert_by_key x xs'
  end.

Fixpoint sort_by_key {A : Type} (xs : list (Z * A)) : list (Z * A) :=
  match xs with
  | [] => []
  | x :: xs' => insert_by_key x (sort_by_key xs')
  end.

(** ** JSON values received from the API *)

Inductive jscalar :=
| JNull
| JBool (b : bool)
| JInt (z : Z)
| JStr (s : string).

(** Truth value of a scalar. *)
Definition jtruthy (v : jscalar) : bool :=
  match v with
  | JNull => false
  | JBool b => b
  | JInt z => negb (z =? 0)
  | JStr s => PyStr.truthy s
  end.

(** [a == b] on scalars: [bool] is a subtype of [int]. *)
Definition jeq (a b : jscalar) : bool :=
  match a, b with
  | JNull, JNull => true
  | JBool x, JBool y => Bool.eqb x y
  | JBool x, JInt z | JInt z, JBool x => z =? (if x then 1 else 0)
  | JInt x, JInt y => x =? y
  | JStr x, JStr y => String.eqb x y
  | _, _ => false
  end.

(** [d.get(key)] and [d.get(key, dflt)] on an optional field. *)
Definition get (field : option jscalar) : jscalar :=
  match field with Some v => v | None => JNull end.

Definition get_or {A : Type} (field : option A) (dflt : A) : A :=
  match field with Some v => v | None => dflt end.

(** One entry of a setlist response: [{set, song, position, segue}]. The
    model covers the entries the API documents: [set], [song] and [segue]
    are strings and [position] is an integer, and each of the four may be
    missing ([None]: the source then takes the default of its [.get]). A
    member that is present with a JSON [null] or with a value of another
    type is outside the model: the source does not check for it, and with
    a [null] song the [', '.join] of line 309 raises [TypeError]. Every
    statement about entries is a statement about entries of this shape. *)
Record setlist_entry := {
  entry_set : option string;
  entry_song : option string;
  entry_position : option Z;
  entry_segue : option string
}.

(** [segue and segue.strip()], as a truth value. *)
Definition segue_marked (segue : string) : bool :=
  PyStr.truthy segue && PyStr.truthy (PyStr.strip segue).

(** ** The formatter: [format_setlist_from_show] (source lines 277-313) *)

(** The body of the grouping loop (lines 288-301). *)
Definition group_entry (sets : pydict (list (Z * string))) (entry : setlist_entry)
    : pydict (list (Z * string)) :=
  let set_name := get_or (entry_set entry) "Unknown Set" in
  let song_name := get_or (entry_song entry) "Unknown Song" in
  let position := get_or (entry_position entry) 999 in
  let sets := if negb (dict_has set_name sets) then dict_set set_name [] sets else sets in
  let segue := get_or (entry_segue entry) "" in
  let song_name :=
    if segue_marked segue then song_name +:+ " " +:+ segue +:+ " " else song_name in
  dict_set set_name (dict_get_default [] set_name sets ++ [(position, song_name)]) sets.

(** The body of the formatting loop (lines 305-309). *)
Definition format_set (item : string * list (Z * string)) : string :=
  let '(set_name, songs) := item in
  let songs := sort_by_key songs in
  let song_names := map snd songs in
  set_name +:+ ": " +:+ PyStr.join ", " song_names.

Definition format_setlist_from_show (setlist_data : list setlist_entry) : string :=
  match setlist_data with
  | [] => ""
  | _ =>
      let sets := fold_left group_entry setlist_data [] in
      let formatted_sets := map format_set sets in
      PyStr.join " | " formatted_sets
  end.

(** ** The feature extractor: [extract_song_features_from_setlist]
       (source lines 174-207) *)

Record song_feature_bag := {
  songs_played : list string;
  set_positions : pydict Z;
  song_counts : pydict Z;
  has_segues : pydict bool;
  set_info : pydict (list string)
}.

Definition empty_song_features : song_feature_bag :=
  {| songs_played := []; set_positions := []; song_counts := [];
     has_segues := []; set_info := [] |}.

(** The body of the loop (lines 189-205); [all_songs] is [self.all_songs]. *)
Definition extract_entry (acc : gset string * song_feature_bag) (entry : setlist_entry)
    : gset string * song_feature_bag :=
  let '(all_songs, features) := acc in
  let song_name := get_or (entry_song entry) "Unknown Song" in
  let set_name := get_or (entry_set entry) "Unknown Set" in
  let position := get_or (entry_position entry) 0 in
  let segue := get_or (entry_segue entry) "" in
  let song_name := PyStr.strip song_name in
  if PyStr.truthy song_name && negb (String.eqb song_name "Unknown Song") then
    (all_songs ∪ {[ song_name ]},
     {| songs_played := songs_played features ++ [song_name];
        song_counts :=
          dict_set song_name
                   (dict_get_default 0 song_name (song_counts features) + 1)
                   (song_counts features);
        set_positions := dict_set song_name position (set_positions features);
        has_segues := dict_set song_name (segue_marked segue) (has_segues features);
        set_info :=
          dict_set set_name
                   (dict_get_default [] set_name (set_info features) ++ [song_name])
                   (set_info features) |})
  else acc.

Definition extract_song_features_from_setlist
    (all_songs : gset string) (setlist_data : list setlist_entry)
    : gset string * song_feature_bag :=
  fold_left extract_entry setlist_data (all_songs, empty_song_features).

(** ** The world of one run: requests, pauses, exceptions *)

(** The exception classes the client tells apart. [RequestsJSONDecodeError]
    is [requests.exceptions.JSONDecodeError], which derives from both
    [RequestException] and [json.JSONDecodeError]; which of the two decode
    errors [response.json()] raises depends on the installed [requests]. *)
Inductive exn :=
| RequestException (what : string)
| HTTPError (status_code : Z)
| JSONDecodeError
| RequestsJSONDecodeError
| OtherException (name : string).

Definition isinstance_RequestException (e : exn) : bool :=
  match e with
  | RequestException _ | HTTPError _ | RequestsJSONDecodeError => true
  | _ => false
  end.

Definition isinstance_JSONDecodeError (e : exn) : bool :=
  match e with
  | JSONDecodeError | RequestsJSONDecodeError => true
  | _ => false
  end.

(** The four places where the source calls [time.sleep]. *)
Inductive pause :=
| RateLimitBackoff   (* line 60 *)
| RequestDelay       (* line 66 *)
| RetryBackoff       (* line 80 *)
| BatchDelay.        (* lines 136 and 273 *)

Inductive event :=
| Get (url : string)
| Sleep (why : pause) (seconds : Q).

(** The JSON object of a response body: [{data: [...], error: ...}].
    [other_keys] counts its further members; [data] is [Some []] also when
    the member is present with a falsy value that is not a list. *)
Record envelope (A : Type) := {
  error : option jscalar;
  error_message : option jscalar;
  data : option (list A);
  other_keys : nat
}.
Arguments error {A} _.
Arguments error_message {A} _.
Arguments data {A} _.
Arguments other_keys {A} _.

(** Truth value of the [dict]: it has a member. *)
Definition envelope_truthy {A : Type} (r : envelope A) : bool :=
  match error r, error_message r, data r, other_keys r with
  | None, None, None, O => false
  | _, _, _, _ => true
  end.

(** What [response.json()] returns for a body that is JSON: the object the
    API sends, or a value that is no object (an array, a string, a number,
    [true], [false] or [null]), which has no method [get]. *)
Inductive json_value (A : Type) :=
| JsonObject (object : envelope A)
| JsonOther.
Arguments JsonObject {A} _.
Arguments JsonOther {A}.

(** What [requests.get] does: it raises, or it returns a response with a
    status code whose [json()] returns a value or raises. *)
Inductive http_outcome (A : Type) :=
| GetRaises (e : exn)
| GetResponse (status_code : Z) (json : json_value A + exn).
Arguments GetRaises {A} _.
Arguments GetResponse {A} _ _.

(** What [data.get('error')] (line 71) raises when [data] is no object. *)
Definition AttributeError : exn := OtherException "AttributeError".

(** The state a run threads through: [self.all_songs], the number of
    requests sent so far, and what happened, oldest first. *)
Record world := {
  all_songs : gset string;
  requests_sent : nat;
  trace : list event
}.

(** The attributes of [self] that [__init__] sets and nothing reassigns.
    A missing key ([None] or the empty string) is [""]. *)
Record extractor := {
  base_url : string;
  api_key : string;
  batch_size : Z;
  request_delay : Q;
  batch_delay : Q
}.

(** [PhishDataExtractor(api_key)] (lines 14-37); [all_songs] starts empty. *)
Definition PhishDataExtractor (api_key : string) : extractor :=
  {| base_url := "https://api.phish.net/v5";
     api_key := api_key;
     batch_size := 50;
     request_delay := 1 # 2;
     batch_delay := 2 |}.

Definition default_api_key : string := "A59D71B642DA223E6F61".

Definition initial_world : world :=
  {| all_songs := ∅; requests_sent := O; trace := [] |}.

(** Computations that read and write the world and may raise. *)
Definition M (X : Type) : Type := world -> (X + exn) * world.

Definition ret {X : Type} (x : X) : M X := fun w => (inl x, w).

Definition raise {X : Type} (e : exn) : M X := fun w => (inr e, w).

Definition bind {X Y : Type} (m : M X) (k : X -> M Y) : M Y :=
  fun w =>
    match m w with
    | (inl x, w') => k x w'
    | (inr e, w') => (inr e, w')
    end.

Notation "'let*' x ':=' m 'in' k" := (bind m (fun x => k))
  (at level 10, x name, m at level 100, k at level 200).

(** [time.sleep(seconds)] *)
Definition sleep (why : pause) (seconds : Q) : M unit :=
  fun w => (inl tt, {| all_songs := all_songs w;
                       requests_sent := requests_sent w;
                       trace := trace w ++ [Sleep why seconds] |}).

(** [requests.get(url, ...)]: the server's answer depends on how many
    requests the run has sent before this one. *)
Definition requests_get {A : Type} (respond : nat -> http_outcome A) (url : string)
    : M (http_outcome A) :=
  fun w => (inl (respond (requests_sent w)),
            {| all_songs := all_songs w;
               requests_sent := S (requests_sent w);
               trace := trace w ++ [Get url] |}).

(** A [for] loop that carries its accumulator. *)
Fixpoint foldM {X Y : Type} (body : Y -> X -> M Y) (xs : list X) (acc : Y) : M Y :=
  match xs with
  | [] => ret acc
  | x :: xs' => let* acc' := body acc x in foldM body xs' acc'
  end.

(** [str(n)] for an [int]. *)
Definition str_of_int (n : Z) : string := NilZero.string_of_int (Z.to_int n).

(** ** The HTTP client: [make_request] (source lines 39-89) *)

(** [response.raise_for_status()] raises for the statuses 400 to 599. *)
Definition raise_for_status (status_code : Z) : option exn :=
  if (400 <=? status_code) && (status_code <? 600)
  then Some (HTTPError status_code) else None.

Section Client.
Context {A : Type}.
Variable self : extractor.
Variable respond : nat -> http_outcome A.
Variable url : string.
Variable retry_count : Z.

(** The loop [for attempt in range(retry_count)] (lines 52-87), over the
    attempts still to make; falling out of it is line 89. *)
Fixpoint attempts (todo : list Z) : M (option (envelope A)) :=
  match todo with
  | [] => ret None
  | attempt :: rest =>
      let except (e : exn) : M (option (envelope A)) :=
        if isinstance_RequestException e then
          if attempt <? retry_count - 1
          then let* _ := sleep RetryBackoff (inject_Z (2 * (attempt + 1))) in
               attempts rest
          else ret None
        else if isinstance_JSONDecodeError e then ret None
        else raise e in
      let* outcome := requests_get respond url in
      match outcome with
      | GetRaises e => except e
      | GetResponse status_code json =>
          if status_code =? 429 then
            let wait_time := 5 * (attempt + 1) in
            let* _ := sleep RateLimitBackoff (inject_Z wait_time) in
            attempts rest
          else
            match raise_for_status status_code with
            | Some e => except e
            | None =>
                let* _ := sleep RequestDelay (request_delay self) in
                match json with
                | inr e => except e
                | inl JsonOther => except AttributeError
                | inl (JsonObject data) =>
                    if jtruthy (get (error data))
                       && negb (jeq (get (error data)) (JBool false))
                    then ret None
                    else ret (Some data)
                end
            end
      end
  end.
End Client.

Definition default_retry_count : Z := 3.

Definition make_request {A : Type} (self : extractor)
    (respond : nat -> http_outcome A) (endpoint : string) (retry_count : Z)
    : M (option (envelope A)) :=
  if PyStr.truthy (api_key self) then
    let url := base_url self +:+ "/" +:+ endpoint in
    attempts self respond url retry_count (py_range 0 retry_count 1)
  else ret None.

(** ** The catalog fetcher: [get_all_shows] (source lines 91-139) *)

(** One record of a catalog response. The members the source copies without
    looking at them are scalars; [artist_name] and [showdate] are strings
    or missing ([None]: the source then takes the default of its [.get]).
    An [artist_name] that is present with a JSON [null] or a value that is
    not a string is outside the model: the source calls [.lower()] on it
    (line 123) and raises [AttributeError]. What is proved of the fetcher
    returning is proved for records of this shape. *)
Record raw_show := {
  raw_showid : option jscalar;
  raw_showdate : option string;
  raw_artist_name : option string;
  raw_venue : option jscalar;
  raw_city : option jscalar;
  raw_state : option jscalar;
  raw_country : option jscalar;
  raw_tour_name : option jscalar;
  raw_rating : option jscalar;
  raw_reviews : option jscalar;
  raw_venueid : option jscalar;
  raw_permalink : option jscalar
}.

(** [show.get('artist_name', '').lower() == 'phish'] *)
Definition is_phish (show : raw_show) : bool :=
  String.eqb (PyStr.lower (get_or (raw_artist_name show) "")) "phish".

Definition year_batch_size : Z := 5.

(** The test [response and 'data' in response and response.get('error') == False]
    (lines 119 and 146), giving [response['data']] when it holds. *)
Definition response_data {A : Type} (response : option (envelope A)) : option (list A) :=
  match response with
  | Some response =>
      if envelope_truthy response
         && (match data response with Some _ => true | None => false end)
         && jeq (get (error response)) (JBool false)
      then data response
      else None
  | None => None
  end.

(** An enriched show; [song_features] is [None] for the empty [dict] a show
    without setlist gets. *)
Record Show := {
  show_id : jscalar;
  date : string;
  artist_name : string;
  venue : jscalar;
  city : jscalar;
  state : jscalar;
  country : jscalar;
  tour_name : jscalar;
  setlist : string;
  rating : jscalar;
  reviews : jscalar;
  venue_id : jscalar;
  permalink : jscalar;
  song_features : option song_feature_bag
}.

Section Run.
(** The server: what the request number [n] of the run gets when it asks
    for the shows of a year, or for the setlist of a date. *)
Variable shows_api : nat -> Z -> http_outcome raw_show.
Variable setlists_api : nat -> string -> http_outcome setlist_entry.
(** [datetime.now().year] *)
Variable now_year : Z.
Variable self : extractor.

(** The body of the loop over the years of one batch (lines 112-131). *)
Definition fetch_year (all_shows : list raw_show) (year : Z) : M (list raw_show) :=
  let endpoint := "shows/showyear/" +:+ str_of_int year +:+ ".json" in
  let* response :=
    make_request self (fun n => shows_api n year) endpoint default_retry_count in
  match response_data response with
  | Some year_shows =>
      match year_shows with
      | _ :: _ =>
          let phish_shows := List.filter (fun show => is_phish show) year_shows in
          ret (all_shows ++ phish_shows)
      | [] => ret all_shows
      end
  | None => ret all_shows
  end.

(** The body of the loop over the year batches (lines 107-136). *)
Definition fetch_year_batch (end_year : Z) (all_shows : list raw_show) (year_start : Z)
    : M (list raw_show) :=
  let year_end := Z.min (year_start + year_batch_size - 1) end_year in
  let* all_shows := foldM fetch_year (py_range year_start (year_end + 1) 1) all_shows in
  if year_end <? end_year
  then let* _ := sleep BatchDelay (batch_delay self) in ret all_shows
  else ret all_shows.

Definition get_all_shows (start_year end_year : option Z) : M (list raw_show) :=
  let start_year := match start_year with None => 1983 | Some y => y end in
  let end_year := match end_year with None => now_year | Some y => y end in
  foldM (fetch_year_batch end_year)
        (py_range start_year (end_year + 1) year_batch_size) [].

(** ** The setlist fetcher: [get_show_setlist] (source lines 141-148) *)

Definition get_show_setlist (show_date : string) : M (option (list setlist_entry)) :=
  let endpoint := "setlists/showdate/" +:+ show_date +:+ ".json" in
  let* response :=
    make_request self (fun n => setlists_api n show_date) endpoint default_retry_count in
  ret (response_data response).

(** ** Enrichment: [extract_all_data] (source lines 209-275) *)

(** [extract_song_features_from_setlist] as a method: it updates
    [self.all_songs]. *)
Definition extract_song_features (setlist_data : list setlist_entry)
    : M song_feature_bag :=
  fun w =>
    let '(songs, features) :=
      extract_song_features_from_setlist (all_songs w) setlist_data in
    (inl features, {| all_songs := songs;
                      requests_sent := requests_sent w;
                      trace := trace w |}).

(** The body of the loop over the shows of one batch (lines 229-268). *)
Definition enrich_show (enriched_shows : list Show) (show : raw_show) : M (list Show) :=
  let show_date := get_or (raw_showdate show) "" in
  if negb (is_phish show) then ret enriched_shows
  else
    let* detailed_setlist := get_show_setlist show_date in
    let* formatted_and_features :=
      match detailed_setlist with
      | Some ((_ :: _) as detailed_setlist) =>
          let setlist_formatted := format_setlist_from_show detailed_setlist in
          let* song_features := extract_song_features detailed_setlist in
          ret (setlist_formatted, Some song_features)
      | _ => ret ("", None)
      end in
    let enriched_show :=
      {| show_id := get_or (raw_showid show) (JStr "");
         date := show_date;
         artist_name := get_or (raw_artist_name show) "";
         venue := get_or (raw_venue show) (JStr "");
         city := get_or (raw_city show) (JStr "");
         state := get_or (raw_state show) (JStr "");
         country := get_or (raw_country show) (JStr "");
         tour_name := get_or (raw_tour_name show) (JStr "");
         setlist := fst formatted_and_features;
         rating := get_or (raw_rating show) (JStr "");
         reviews := get_or (raw_reviews show) (JStr "");
         venue_id := get_or (raw_venueid show) (JStr "");
         permalink := get_or (raw_permalink show) (JStr "");
         song_features := snd formatted_and_features |} in
    ret (enriched_shows ++ [enriched_show]).

(** The body of the loop over the batches (lines 222-273). *)
Definition process_batch (shows : list raw_show) (total_shows : Z)
    (enriched_shows : list Show) (batch_start : Z) : M (list Show) :=
  let batch_end := Z.min (batch_start + batch_size self) total_shows in
  let batch_shows := slice batch_start batch_end shows in
  let* enriched_shows := foldM enrich_show batch_shows enriched_shows in
  if batch_end <? total_shows
  then let* _ := sleep BatchDelay (batch_delay self) in ret enriched_shows
  else ret enriched_shows.

Definition extract_all_data (start_year end_year : option Z) : M (list Show) :=
  let* shows := get_all_shows start_year end_year in
  match shows with
  | [] => ret []
  | _ =>
      let total_shows := Z.of_nat (length shows) in
      if batch_size self =? 0 then raise (OtherException "ValueError")
      else foldM (process_batch shows total_shows)
                 (py_range 0 total_shows (batch_size self)) []
  end.
End Run.

(** ** The wide export: the rows of [save_to_csv_wide_format]
       (source lines 369-414) *)

(** [len(xs)] *)
Definition len {A : Type} (xs : list A) : Z := Z.of_nat (length xs).

(** [x in xs] for a list of strings. *)
Definition str_in (x : string) (xs : list string) : bool :=
  existsb (String.eqb x) xs.

(** The body of the loop over [set_info.items()] (lines 401-402). *)
Definition add_set_count (wide_row : pydict jscalar) (item : string * list string)
    : pydict jscalar :=
  let '(set_name, set_songs) := item in
  dict_set ("songs_in_" +:+ PyStr.replace " " "_" (PyStr.lower set_name))
           (JInt (len set_songs)) wide_row.

(** The body of the loop over [self.all_songs] (lines 405-412). *)
Definition add_song_columns (songs_played : list string) (song_counts : pydict Z)
    (wide_row : pydict jscalar) (song : string) : pydict jscalar :=
  let clean_song := clean_column_name song in
  let wide_row :=
    dict_set ("song_" +:+ clean_song)
             (JInt (if str_in song songs_played then 1 else 0)) wide_row in
  if dict_has song song_counts && (1 <? dict_get_default 0 song song_counts)
  then dict_set ("song_" +:+ clean_song +:+ "_count")
                (JInt (dict_get_default 0 song song_counts)) wide_row
  else wide_row.

(** One pass of the loop over [data] (lines 371-414). [visiting] is the
    order in which [for song in self.all_songs] visits the set. *)
Definition wide_row (visiting : list string) (show : Show) : pydict jscalar :=
  let wide_row :=
    [ ("show_id", show_id show); ("date", JStr (date show));
      ("artist_name", JStr (artist_name show)); ("venue", venue show);
      ("city", city show); ("state", state show); ("country", country show);
      ("tour_name", tour_name show); ("rating", rating show);
      ("reviews", reviews show); ("venue_id", venue_id show);
      ("permalink", permalink show) ] in
  let songs_played :=
    match song_features show with Some f => songs_played f | None => [] end in
  let song_counts :=
    match song_features show with Some f => song_counts f | None => [] end in
  let set_info :=
    match song_features show with Some f => set_info f | None => [] end in
  let wide_row := dict_set "total_songs" (JInt (len songs_played)) wide_row in
  let wide_row :=
    dict_set "unique_songs"
             (JInt (Z.of_nat (size (list_to_set songs_played : gset string))))
             wide_row in
  let wide_row := dict_set "total_sets" (JInt (len set_info)) wide_row in
  let wide_row :=
    dict_set "has_encore"
             (JBool (dict_has "Encore" set_info || dict_has "E" set_info))
             wide_row in
  let wide_row := fold_left add_set_count set_info wide_row in
  fold_left (add_song_columns songs_played song_counts) visiting wide_row.

(** [visiting] is an order of iteration over the set [songs]. *)
Definition visits (visiting : list string) (songs : gset string) : Prop :=
  List.NoDup visiting /\ forall song, In song visiting <-> song ∈ songs.

Definition wide_data (visiting : list string) (data : list Show)
    : list (pydict jscalar) :=
  map (wide_row visiting) data.

(** ** The long export: the rows of [save_to_csv_ml_format]
       (source lines 468-504) *)

Record base_row := {
  base_show_id : jscalar;
  base_date : string;
  base_artist_name : string;
  base_venue : jscalar;
  base_city : jscalar;
  base_state : jscalar;
  base_country : jscalar;
  base_tour_name : jscalar;
  base_rating : jscalar;
  base_reviews : jscalar;
  base_venue_id : jscalar;
  base_permalink : jscalar
}.

(** [base_row.copy()] updated with the five song members. *)
Record ml_row := {
  ml_base : base_row;
  ml_song : song_row
}.

Definition base_row_of (show : Show) : base_row :=
  {| base_show_id := show_id show; base_date := date show;
     base_artist_name := artist_name show; base_venue := venue show;
     base_city := city show; base_state := state show;
     base_country := country show; base_tour_name := tour_name show;
     base_rating := rating show; base_reviews := reviews show;
     base_venue_id := venue_id show; base_permalink := permalink show |}.

Definition blank_song_row : song_row :=
  {| set_name := ""; song_position := 0; song_name := "";
     has_segue := false; segue_info := "" |}.

(** The body of the loop over [data] (lines 470-504): the rows one show adds. *)
Definition ml_rows_of_show (show : Show) : list ml_row :=
  let base_row := base_row_of show in
  let setlist := setlist show in
  if PyStr.truthy setlist then
    let songs := parse_setlist_for_ml setlist in
    map (fun song_data => {| ml_base := base_row; ml_song := song_data |}) songs
  else
    [ {| ml_base := base_row; ml_song := blank_song_row |} ].

Definition ml_rows (data : list Show) : list ml_row :=
  flat_map ml_rows_of_show data.

(** ** Vocabulary of the statements *)

(** Every character of [s] satisfies [p]. *)
Fixpoint all_chars (p : ascii -> bool) (s : string) : bool :=
  match s with
  | EmptyString => true
  | String c s' => p c && all_chars p s'
  end.

Definition starts_with (p : ascii -> bool) (s : string) : bool :=
  match s with
  | EmptyString => false
  | String c _ => p c
  end.

Fixpoint ends_with (p : ascii -> bool) (s : string) : bool :=
  match s with
  | EmptyString => false
  | String c EmptyString => p c
  | String _ s' => ends_with p s'
  end.

(** No two underscores in a row. *)
Fixpoint no_double_underscore (s : string) : bool :=
  match s with
  | EmptyString => true
  | String c s' =>
      negb (PyStr.is_underscore c && starts_with PyStr.is_underscore s')
      && no_double_underscore s'
  end.

(** The characters a column name is made of. *)
Definition is_column_char (c : ascii) : bool :=
  PyStr.is_lower_ascii c || PyStr.is_digit c || PyStr.is_underscore c.

(** The song names the specification uses in its examples. *)
Definition test_vocabulary : list string :=
  ["Run Like an Antelope"; "Mike's Song"; "Divided Sky"; "Tweezer"].

(** A status code that [make_request] takes for an answer: not 429, and
    [raise_for_status] lets it through. *)
Definition passes_status (status_code : Z) : bool :=
  negb (status_code =? 429)
  && match raise_for_status status_code with Some _ => false | None => true end.

(** An outcome after which [make_request] does not read a body: the request
    raised a [RequestException], or the status is 429 or an error status. *)
Definition never_passes {A : Type} (outcome : http_outcome A) : bool :=
  match outcome with
  | GetRaises e => isinstance_RequestException e
  | GetResponse status_code _ => negb (passes_status status_code)
  end.

(** An exception [make_request] catches. *)
Definition caught (e : exn) : bool :=
  isinstance_RequestException e || isinstance_JSONDecodeError e.

(** An outcome on which nothing is raised but what [make_request] catches:
    the request and [json()] raise nothing else, and what [json()] returns
    is an object. *)
Definition well_behaved {A : Type} (outcome : http_outcome A) : bool :=
  match outcome with
  | GetRaises e => caught e
  | GetResponse _ (inr e) => caught e
  | GetResponse _ (inl (JsonObject _)) => true
  | GetResponse _ (inl JsonOther) => false
  end.

(** The response to a request passed the status check (lines 57-63). *)
Definition passes {A : Type} (outcome : http_outcome A) : bool :=
  match outcome with
  | GetRaises _ => false
  | GetResponse status_code _ => passes_status status_code
  end.

(** A pause that is not the request delay. *)
Definition other_pause (ev : event) : bool :=
  match ev with
  | Sleep RequestDelay _ => false
  | Sleep _ _ => true
  | Get _ => false
  end.

(** What one request leaves in the trace: the request itself; right after
    it the request delay when [passed], and not when not; then pauses of
    the other kinds only. *)
Definition request_block (url : string) (delay : Q) (passed : bool) (block : list event)
    : Prop :=
  exists pauses,
    forallb other_pause pauses = true /\
    block = Get url :: (if passed then Sleep RequestDelay delay :: pauses else pauses).

(** [evs] is one block for each of the requests [first], [first + 1], ...,
    the request delay following exactly the requests whose response passed
    the status check. *)
Definition delay_after_each_pass {A : Type} (url : string) (delay : Q)
    (respond : nat -> http_outcome A) (first : nat) (evs : list event) : Prop :=
  exists blocks,
    evs = concat blocks /\
    Forall2 (fun n block => request_block url delay (passes (respond n)) block)
            (seq first (length blocks)) blocks.

(** The events of a client that meets 429 on each of [n] attempts. *)
Definition rate_limited_trace (url : string) (n : nat) : list event :=
  flat_map (fun attempt_number =>
              [Get url; Sleep RateLimitBackoff (inject_Z (5 * Z.of_nat attempt_number))])
           (seq 1 n).

(** A server that answers 429 whatever it is asked. *)
Definition always_429 {A : Type} (respond : nat -> http_outcome A) : Prop :=
  forall n, exists json, respond n = GetResponse 429 json.

(** Three servers for the examples: one that answers with an empty catalog,
    one that answers 200 with an error in the body, one that answers 500. *)
Definition respond_empty : nat -> http_outcome unit :=
  fun _ => GetResponse 200
             (inl (JsonObject {| error := Some (JBool false); error_message := Some (JStr "");
                     data := Some []; other_keys := O |})).

Definition respond_error : nat -> http_outcome unit :=
  fun _ => GetResponse 200
             (inl (JsonObject {| error := Some (JStr "Invalid API key"); error_message := None;
                     data := None; other_keys := O |})).

Definition respond_500 : nat -> http_outcome unit :=
  fun _ => GetResponse 500 (inr JSONDecodeError).

(** A server that answers 429 twice and then 200 with a body that is not
    JSON, on which the installed [requests] raises its own decode error. *)
Definition respond_not_json : nat -> http_outcome unit :=
  fun n => if (n <? 2)%nat then GetResponse 429 (inr JSONDecodeError)
           else GetResponse 200 (inr RequestsJSONDecodeError).

(** [name] occurs in the feature bag: in its list of songs played, among the
    keys of one of its three per-song dictionaries, or in one of its sets. *)
Definition bag_mentions (bag : song_feature_bag) (name : string) : Prop :=
  In name (songs_played bag) \/
  In name (dict_keys (song_counts bag)) \/
  In name (dict_keys (set_positions bag)) \/
  In name (dict_keys (has_segues bag)) \/
  exists set_name songs, In (set_name, songs) (set_info bag) /\ In name songs.

(** A catalog for the examples: the year 2020 has a Phish show and a show of
    another artist, every other year is empty. *)
Definition example_raw_show (showid : Z) (showdate artist : string) : raw_show :=
  {| raw_showid := Some (JInt showid); raw_showdate := Some showdate;
     raw_artist_name := Some artist; raw_venue := None; raw_city := None;
     raw_state := None; raw_country := None; raw_tour_name := None;
     raw_rating := None; raw_reviews := None; raw_venueid := None;
     raw_permalink := None |}.

Definition example_shows_api : nat -> Z -> http_outcome raw_show :=
  fun _ year =>
    GetResponse 200
      (inl (JsonObject {| error := Some (JBool false); error_message := Some (JStr "");
              data := Some (if year =? 2020
                            then [ example_raw_show 1 "2020-02-20" "Phish";
                                   example_raw_show 2 "2020-02-21" "Trey Anastasio Band" ]
                            else []);
              other_keys := O |})).

Definition example_entry (set_name song : string) (position : Z) (segue : string)
    : setlist_entry :=
  {| entry_set := Some set_name; entry_song := Some song;
     entry_position := Some position; entry_segue := Some segue |}.

Definition example_setlists_api : nat -> string -> http_outcome setlist_entry :=
  fun _ show_date =>
    GetResponse 200
      (inl (JsonObject {| error := Some (JBool false); error_message := Some (JStr "");
              data := Some [ example_entry "Set 1" "Tweezer" 1 ">";
                             example_entry "Set 1" "Divided Sky" 2 "";
                             example_entry "Encore" "Tweezer" 1 "" ];
              other_keys := O |})).

(** The two column names the wide export derives from a song. *)
Definition song_column (song : string) : string :=
  "song_" +:+ clean_column_name song.

Definition count_column (song : string) : string :=
  "song_" +:+ clean_column_name song +:+ "_count".

(** Neither column name of [other] is a column name of [song]. *)
Definition columns_apart (other song : string) : Prop :=
  forall k, In k [song_column other; count_column other] ->
            ~ In k [song_column song; count_column song].

(** What the wide export reads from a show's feature bag. *)
Definition songs_played_of (show : Show) : list string :=
  match song_features show with Some f => songs_played f | None => [] end.

Definition song_counts_of (show : Show) : pydict Z :=
  match song_features show with Some f => song_counts f | None => [] end.

(** Two shows for the examples, each with the bag of a one-song setlist; the
    two song names differ in one character that is not a letter. *)
Definition example_show (show_date setlist_formatted : string)
    (features : option song_feature_bag) : Show :=
  {| show_id := JInt 1; date := show_date; artist_name := "Phish";
     venue := JStr ""; city := JStr ""; state := JStr ""; country := JStr "";
     tour_name := JStr ""; setlist := setlist_formatted; rating := JStr "";
     reviews := JStr ""; venue_id := JStr ""; permalink := JStr "";
     song_features := features |}.

Definition show_with_apostrophe : Show :=
  example_show "1994-06-18" "Set 1: Mike's Song"
    (Some (snd (extract_song_features_from_setlist
                  ∅ [example_entry "Set 1" "Mike's Song" 1 ""]))).

Definition show_with_space : Show :=
  example_show "1994-06-19" "Set 1: Mike s Song"
    (Some (snd (extract_song_features_from_setlist
                  {[ "Mike's Song" ]} [example_entry "Set 1" "Mike s Song" 1 ""]))).

Definition two_mikes : gset string := {[ "Mike's Song"; "Mike s Song" ]}.

(** A show that played "Divided Sky" twice and "Tweezer" once. *)
Definition show_with_repeat : Show :=
  example_show "1994-06-20" "Set 1: Divided Sky, Tweezer, Divided Sky"
    (Some (snd (extract_song_features_from_setlist
                  ∅ [ example_entry "Set 1" "Divided Sky" 1 "";
                      example_entry "Set 1" "Tweezer" 2 "";
                      example_entry "Set 1" "Divided Sky" 3 "" ]))).

Definition three_songs : gset string :=
  {[ "Tweezer"; "Divided Sky"; "Run Like an Antelope" ]}.

(** A show whose only setlist entry has an empty song name, as the
    enrichment builds it, and a show without setlist. *)
Definition show_with_nameless_song : Show :=
  example_show "1994-06-21"
    (format_setlist_from_show [example_entry "Set 1" "" 1 ""])
    (Some (snd (extract_song_features_from_setlist
                  ∅ [example_entry "Set 1" "" 1 ""]))).

Definition show_without_setlist : Show :=
  example_show "1994-06-22" "" None.

(** [show] has a row of its own in the long export of [data]. *)
Definition represented (data : list Show) (show : Show) : Prop :=
  exists row, In row (ml_rows data) /\ ml_base row = base_row_of show.

(** ** The formatter, in the words of the specification *)

Definition entry_label (entry : setlist_entry) : string :=
  get_or (entry_set entry) "Unknown Set".

(** A segue marker shows in the string when it has a character that is no
    white space. *)
Definition marker_shows (segue : string) : bool :=
  negb (all_chars PyStr.is_space segue).

(** A song as the string shows it: its name, and after the name its segue
    marker between two blanks when the marker shows. *)
Definition rendered_song (entry : setlist_entry) : string :=
  let song_name := get_or (entry_song entry) "Unknown Song" in
  let segue := get_or (entry_segue entry) "" in
  if marker_shows segue then song_name +:+ " " +:+ segue +:+ " " else song_name.

Definition entry_item (entry : setlist_entry) : Z * string :=
  (get_or (entry_position entry) 999, rendered_song entry).

(** The distinct labels, each where it first occurs. *)
Fixpoint first_occurrences (labels : list string) : list string :=
  match labels with
  | [] => []
  | label :: rest =>
      label :: List.filter (fun other => negb (String.eqb other label))
                           (first_occurrences rest)
  end.

(** The songs of one set, in the order of the entries. *)
Definition items_of (label : string) (entries : list setlist_entry) : list (Z * string) :=
  map entry_item (List.filter (fun entry => String.eqb (entry_label entry) label) entries).

(** The sets in the order in which their labels first occur. *)
Definition sets_in_order (entries : list setlist_entry) : pydict (list (Z * string)) :=
  map (fun label => (label, items_of label entries))
      (first_occurrences (map entry_label entries)).

(** The positions go up, in the wide sense. *)
Fixpoint ascending (positions : list Z) : Prop :=
  match positions with
  | [] => True
  | position :: rest => (forall later, In later rest -> position <= later) /\ ascending rest
  end.

(** The songs of a list that have a given position, in the order of the
    list. *)
Definition at_position {A : Type} (position : Z) (songs : list (Z * A)) : list (Z * A) :=
  List.filter (fun song => fst song =? position) songs.

(** [sorted] is [songs] in ascending position, the songs of equal position
    in the order they have in [songs]: what [list.sort(key=...)], a stable
    sort, makes of [songs]. *)
Definition stable_sort_of {A : Type} (songs sorted : list (Z * A)) : Prop :=
  ascending (map fst sorted) /\
  forall position, at_position position sorted = at_position position songs.

(** A set as the string lists it: under its label the rendered songs of the
    entries with that label, in ascending position, the songs of equal
    position in the order of the entries. *)
Definition listed_set (entries : list setlist_entry) (set : string * list string) : Prop :=
  exists songs,
    stable_sort_of (items_of (fst set) entries) songs /\ snd set = map snd songs.

(** The sets the string is to list: one for each label, in the order in
    which the labels first occur among the entries. *)
Definition listed_sets (entries : list setlist_entry) (sets : list (string * list string))
    : Prop :=
  map fst sets = first_occurrences (map entry_label entries) /\
  Forall (listed_set entries) sets.

(** The string of a list of sets: ["label: song, song | label: song"]. *)
Definition setlist_string (sets : list (string * list string)) : string :=
  PyStr.join " | "
             (map (fun set => fst set +:+ ": " +:+ PyStr.join ", " (snd set)) sets).

(** ** Reading a formatted setlist back *)

(** The character [c] does not occur in [s]. *)
Definition lacks (c : ascii) (s : string) : bool :=
  all_chars (fun x => negb (Ascii.eqb x c)) s.

(** [pieces] with [tail] appended to the last of them. *)
Fixpoint app_last (tail : string) (pieces : list string) : list string :=
  match pieces with
  | [] => []
  | [piece] => [piece +:+ tail]
  | piece :: rest => piece :: app_last tail rest
  end.

(** The song name [parse_raw_song] makes of one piece between commas. *)
Definition parsed_name (raw_song : string) : string :=
  let raw_song := PyStr.strip raw_song in
  if PyStr.contains ">" raw_song
  then PyStr.strip (PyStr.replace ">" "" raw_song)
  else if PyStr.contains "->" raw_song
  then PyStr.strip (PyStr.replace "->" "" raw_song)
  else raw_song.

(** The (set, song) pairs of the rows parsed from a formatted setlist. *)
Definition parsed_pairs (setlist_string : string) : list (string * string) :=
  map (fun row => (set_name row, song_name row)) (parse_setlist_for_ml setlist_string).

(** The (set, song) pairs of a feature bag's [set_info]. *)
Definition bag_pair (bag : song_feature_bag) (set_label song : string) : Prop :=
  exists songs, In (set_label, songs) (set_info bag) /\ In song songs.

(** A character the parser takes off a piece again, or splits the pieces
    at: ">", the comma and white space. A segue marker made of these leaves
    nothing in the song names. *)
Definition is_marker_char (c : ascii) : bool :=
  Ascii.eqb c ">" || Ascii.eqb c "," || PyStr.is_space c.

Definition marker_vanishes (entry : setlist_entry) : Prop :=
  all_chars is_marker_char (get_or (entry_segue entry) "") = true.

(** [rest] is made of white space and of characters of the segue marker of
    [entry]: what the rendering of the marker can leave after, or instead
    of, a song name. *)
Definition marker_rest (entry : setlist_entry) (rest : string) : Prop :=
  all_chars (fun c => PyStr.is_space c
                      || negb (lacks c (get_or (entry_segue entry) ""))) rest = true.

(** An entry whose fields the format can carry: the separators of the
    format occur neither in its set label ("|", ":") nor in its song name
    ("|", ",", ">"), there is no "|" in its segue marker, the label has no
    white space around it, and the song is not the placeholder. *)
Definition reads_back (entry : setlist_entry) : Prop :=
  let label := entry_label entry in
  let song := get_or (entry_song entry) "Unknown Song" in
  let segue := get_or (entry_segue entry) "" in
  lacks "|" label = true /\ lacks ":" label = true /\ PyStr.strip label = label /\
  lacks "|" song = true /\ lacks "," song = true /\ lacks ">" song = true /\
  PyStr.strip song <> "Unknown Song" /\
  lacks "|" segue = true.

(** The song name an entry stands for in the feature bag. *)
Definition entry_song_name (entry : setlist_entry) : string :=
  PyStr.strip (get_or (entry_song entry) "Unknown Song").

(** The entries the feature extractor keeps (line 196). *)
Definition kept (entry : setlist_entry) : bool :=
  PyStr.truthy (entry_song_name entry)
  && negb (String.eqb (entry_song_name entry) "Unknown Song").

Definition example_setlist : list setlist_entry :=
  [ example_entry "Set 1" "Tweezer" 1 ">";
    example_entry "Set 1" " Mike's Song " 2 "";
    example_entry "Encore" "Tweezer" 1 "" ].

(** The same with a marker the parser does not know and one with a comma. *)
Definition example_setlist_markers : list setlist_entry :=
  [ example_entry "Set 1" "Tweezer" 1 "->";
    example_entry "Set 1" " Mike's Song " 2 ", ";
    example_entry "Encore" "Tweezer" 1 "" ].

(** ** Invariants of the loops *)

(** Every show fetched so far is a Phish show. *)
Definition only_phish (shows : list raw_show) (_ : world) : Prop :=
  Forall (fun show => is_phish show = true) shows.

(** Every song of every bag built so far is in the universe. *)
Definition covered (shows : list Show) (w : world) : Prop :=
  forall show bag name,
    In show shows -> song_features show = Some bag -> bag_mentions bag name ->
    name ∈ all_songs w.

(** ** Tactics *)

(** A property of characters, checked on each of the 256. *)
Ltac each_ascii c :=
  destruct c as [[] [] [] [] [] [] [] []]; vm_compute; try reflexivity; try discriminate.

Ltac break_ifs :=
  repeat first
    [ reflexivity
    | match goal with
      | |- context [if ?b then _ else _] => destruct b
      end ].

(** Two string literals are not equal. *)
Ltac strings_differ :=
  let H := fresh in
  intros H; apply String.eqb_eq in H; vm_compute in H; discriminate H.

(** A string literal is not in a list of others. *)
Ltac not_among_strings :=
  let H := fresh in
  simpl; intros H;
  repeat (destruct H as [H|H];
          [apply String.eqb_eq in H; vm_compute in H; discriminate H|]);
  exact H.

(* ===================================================================== *)
(** * Part I, continued: the rest of the source                          *)
(* ===================================================================== *)

(** ** File names: [generate_filename] (source lines 315-327) *)

(** Truth value of a year argument: [None] and [0] are falsy. *)
Definition year_truthy (year : option Z) : bool :=
  match year with
  | Some y => negb (y =? 0)
  | None => false
  end.

(** [timestamp] is [datetime.now().strftime("%Y%m%d_%H%M%S")]. *)
Definition generate_filename (timestamp : string) (start_year end_year : option Z)
    (file_type : string) : string :=
  let year_str :=
    match start_year, end_year with
    | Some s, Some e =>
        if year_truthy start_year && year_truthy end_year then
          if s =? e then str_of_int s
          else str_of_int s +:+ "-" +:+ str_of_int e
        else "all_years"
    | _, _ => "all_years"
    end in
  "phish_shows_" +:+ year_str +:+ "_" +:+ file_type +:+ "_" +:+ timestamp +:+ ".csv".

(** The [file_type] each exporter passes (lines 329, 363, 464), [main]
    passing ['standard'] to [save_to_csv]. *)
Definition standard_file_type : string := "standard".
Definition wide_file_type : string := "wide_format".
Definition ml_file_type : string := "ml_format".

(** ** The set-wise formatter: [format_setlist] (source lines 150-172) *)

(** One song of a set: [{song_name, segue}]. *)
Record set_song := {
  set_song_name : option string;
  set_song_segue : option jscalar
}.

(** One set: [{set_name, songs}]. *)
Record setlist_set := {
  set_set_name : option string;
  set_songs : option (list set_song)
}.

(** The body of the loop over [songs] (lines 163-168). *)
Definition format_set_song (song : set_song) : string :=
  let song_name := get_or (set_song_name song) "Unknown Song" in
  if jtruthy (get (set_song_segue song)) then song_name +:+ " > " else song_name.

(** The body of the loop over [setlist_data] (lines 157-170). *)
Definition format_setlist_set (formatted_sets : list string) (set_info : setlist_set)
    : list string :=
  let set_name := get_or (set_set_name set_info) "Unknown Set" in
  let songs := get_or (set_songs set_info) [] in
  match songs with
  | _ :: _ =>
      let song_list := map format_set_song songs in
      formatted_sets ++ [set_name +:+ ": " +:+ PyStr.join ", " song_list]
  | [] => formatted_sets
  end.

Definition format_setlist (setlist_data : list setlist_set) : string :=
  match setlist_data with
  | [] => ""
  | _ => PyStr.join " | " (fold_left format_setlist_set setlist_data [])
  end.

(** ** The header of the wide export: [fieldnames] of
       [save_to_csv_wide_format] (source lines 417-435) *)

(** [s.startswith(prefix)] *)
Definition startswith (prefix s : string) : bool := String.prefix prefix s.

(** [sorted(xs)] for strings, which Python compares code point by code
    point; as for [sort_by_key], every stable sort gives the same list. *)
Fixpoint insert_string (x : string) (xs : list string) : list string :=
  match xs with
  | [] => [x]
  | y :: xs' => if String.leb x y then x :: xs else y :: insert_string x xs'
  end.

Fixpoint sorted (xs : list string) : list string :=
  match xs with
  | [] => []
  | x :: xs' => insert_string x (sorted xs')
  end.

Definition base_columns : list string :=
  [ "show_id"; "date"; "artist_name"; "venue"; "city"; "state"; "country";
    "tour_name"; "rating"; "reviews"; "venue_id"; "permalink"; "total_songs";
    "unique_songs"; "total_sets"; "has_encore" ].

(** [columns_visiting] is the order in which the two comprehensions visit
    the set [all_columns]; the set is not changed between them, so both see
    the same order. *)
Definition wide_fieldnames (columns_visiting : list string) : list string :=
  let set_columns := List.filter (startswith "songs_in_") columns_visiting in
  let song_columns := sorted (List.filter (startswith "song_") columns_visiting) in
  base_columns ++ set_columns ++ song_columns.

(** [columns_visiting] visits the set the loop of lines 419-421 builds: the
    keys of all rows, each once. *)
Definition visits_columns (columns_visiting : list string)
    (wide_rows : list (pydict jscalar)) : Prop :=
  List.NoDup columns_visiting /\
  forall key, In key columns_visiting <->
              exists row, In row wide_rows /\ In key (dict_keys row).

(** ** Vocabulary of the further statements *)

(** An outcome [make_request] takes for a failed request: [requests.get]
    raised a [RequestException], or the status is an error status other
    than 429. *)
Definition request_fails {A : Type} (outcome : http_outcome A) : bool :=
  match outcome with
  | GetRaises e => isinstance_RequestException e
  | GetResponse status_code _ =>
      negb (status_code =? 429)
      && match raise_for_status status_code with Some _ => true | None => false end
  end.

(** The events of a client whose [n] attempts all fail: a pause of
    [2 * attempt_number] seconds after each attempt but the last. *)
Definition failing_trace (url : string) (n : nat) : list event :=
  flat_map (fun attempt_number =>
              if (attempt_number <? n)%nat
              then [Get url; Sleep RetryBackoff (inject_Z (2 * Z.of_nat attempt_number))]
              else [Get url])
           (seq 1 n).

(** A server that answers 503 to every request. *)
Definition respond_503 : nat -> http_outcome unit :=
  fun _ => GetResponse 503 (inr JSONDecodeError).

(** A server that answers 429 twice and then with an empty catalog. *)
Definition respond_third_time : nat -> http_outcome unit :=
  fun n => if (n <? 2)%nat then GetResponse 429 (inr JSONDecodeError)
           else respond_empty n.

(** A server that answers 200 with the JSON array [[]]. *)
Definition respond_array : nat -> http_outcome unit :=
  fun _ => GetResponse 200 (inl JsonOther).

(** A server whose first answer raises something the client does not catch. *)
Definition respond_interrupt : nat -> http_outcome unit :=
  fun _ => GetRaises (OtherException "KeyboardInterrupt").

(** The first and last year [get_all_shows] asks for (lines 98-101). *)
Definition first_year (start_year : option Z) : Z :=
  match start_year with None => 1983 | Some y => y end.

Definition last_year (now_year : Z) (end_year : option Z) : Z :=
  match end_year with None => now_year | Some y => y end.

(** The outcome is a response that passes the status check, with a body
    whose [error] equals [False] and whose [data] is [items]. *)
Definition answers {A : Type} (outcome : http_outcome A) (items : list A) : Prop :=
  exists status_code body,
    outcome = GetResponse status_code (inl (JsonObject body)) /\
    passes_status status_code = true /\
    jeq (get (error body)) (JBool false) = true /\
    data body = Some items.

(** The catalog of the examples, year by year. *)
Definition example_catalog (year : Z) : list raw_show :=
  if year =? 2020
  then [ example_raw_show 1 "2020-02-20" "Phish";
         example_raw_show 2 "2020-02-21" "Trey Anastasio Band" ]
  else [].

(** The twelve descriptive fields of a catalog record, with the defaults
    the enrichment gives them (lines 252-264). *)
Definition raw_base_row (show : raw_show) : base_row :=
  {| base_show_id := get_or (raw_showid show) (JStr "");
     base_date := get_or (raw_showdate show) "";
     base_artist_name := get_or (raw_artist_name show) "";
     base_venue := get_or (raw_venue show) (JStr "");
     base_city := get_or (raw_city show) (JStr "");
     base_state := get_or (raw_state show) (JStr "");
     base_country := get_or (raw_country show) (JStr "");
     base_tour_name := get_or (raw_tour_name show) (JStr "");
     base_rating := get_or (raw_rating show) (JStr "");
     base_reviews := get_or (raw_reviews show) (JStr "");
     base_venue_id := get_or (raw_venueid show) (JStr "");
     base_permalink := get_or (raw_permalink show) (JStr "") |}.

(** The formatted setlist and the feature bag of a show come from the same
    entries, or the show has neither. *)
Definition setlist_matches_bag (show : Show) : Prop :=
  (setlist show = "" /\ song_features show = None) \/
  exists entries songs,
    entries <> [] /\
    setlist show = format_setlist_from_show entries /\
    song_features show = Some (snd (extract_song_features_from_setlist songs entries)).

(** ** Vocabulary for the feature bag *)

(** A dictionary with one item for each key of a list, in the order of the
    list. *)
Definition tabulate {V : Type} (value : string -> V) (keys : list string) : pydict V :=
  map (fun key => (key, value key)) keys.

(** The names the extractor records, in the order of the entries. *)
Definition names_played (entries : list setlist_entry) : list string :=
  map entry_song_name (List.filter kept entries).

(** How often a name occurs in a list of names. *)
Definition times (name : string) (names : list string) : Z :=
  len (List.filter (String.eqb name) names).

(** The last entry the extractor records under a name. *)
Definition last_played (name : string) (entries : list setlist_entry)
    : option setlist_entry :=
  List.find (fun entry => String.eqb (entry_song_name entry) name)
            (rev (List.filter kept entries)).

Definition position_or_zero (entry : option setlist_entry) : Z :=
  match entry with Some entry => get_or (entry_position entry) 0 | None => 0 end.

Definition segue_or_false (entry : option setlist_entry) : bool :=
  match entry with
  | Some entry => segue_marked (get_or (entry_segue entry) "")
  | None => false
  end.

(** The recorded names of one set, in the order of the entries. *)
Definition songs_of_set (label : string) (entries : list setlist_entry) : list string :=
  map entry_song_name
      (List.filter (fun entry => String.eqb (entry_label entry) label)
                   (List.filter kept entries)).

(** The labels of the sets with a recorded song, in the order of the
    entries. *)
Definition labels_played (entries : list setlist_entry) : list string :=
  map entry_label (List.filter kept entries).

(** The bag of a setlist in closed form. *)
Definition bag_of (entries : list setlist_entry) : song_feature_bag :=
  {| songs_played := names_played entries;
     set_positions :=
       tabulate (fun name => position_or_zero (last_played name entries))
                (first_occurrences (names_played entries));
     song_counts :=
       tabulate (fun name => times name (names_played entries))
                (first_occurrences (names_played entries));
     has_segues :=
       tabulate (fun name => segue_or_false (last_played name entries))
                (first_occurrences (names_played entries));
     set_info :=
       tabulate (fun label => songs_of_set label entries)
                (first_occurrences (labels_played entries)) |}.

(** [sum(numbers)] *)
Definition sum (numbers : list Z) : Z := fold_right Z.add 0 numbers.

(** [d.values()] *)
Definition dict_values {V : Type} (d : pydict V) : list V := map snd d.

(** ** Vocabulary for the rows of the parser *)

(** What every row the parser returns looks like. *)
Definition well_formed_row (row : song_row) : Prop :=
  (song_name row <> "" /\
   PyStr.strip (song_name row) = song_name row /\
   lacks ">" (song_name row) = true /\
   lacks "," (song_name row) = true /\
   lacks "|" (song_name row) = true) /\
  (PyStr.strip (set_name row) = set_name row /\
   lacks ":" (set_name row) = true /\
   lacks "|" (set_name row) = true) /\
  1 <= song_position row /\
  segue_info row = (if has_segue row then ">" else "").

(** ** Vocabulary for the set-wise formatter *)

(** A set the set-wise formatter writes: its list of songs is not empty. *)
Definition has_songs (set_info : setlist_set) : bool :=
  match get_or (set_songs set_info) [] with
  | [] => false
  | _ :: _ => true
  end.

(** What the set-wise formatter writes for one set. *)
Definition formatted_set (set_info : setlist_set) : string :=
  get_or (set_set_name set_info) "Unknown Set" +:+ ": "
  +:+ PyStr.join ", " (map format_set_song (get_or (set_songs set_info) [])).

Definition example_sets : list setlist_set :=
  [ {| set_set_name := Some "Set 1";
       set_songs := Some [ {| set_song_name := Some "Tweezer";
                              set_song_segue := Some (JInt 1) |};
                           {| set_song_name := None; set_song_segue := None |} ] |};
    {| set_set_name := Some "Set 2"; set_songs := Some [] |};
    {| set_set_name := None;
       set_songs := Some [ {| set_song_name := Some "Cavern";
                              set_song_segue := Some (JStr "") |} ] |} ].

(** A row of the long export is a song row when it comes from the parser,
    and the blank row when the show has no setlist string. *)
Definition row_of_show (row : ml_row) (show : Show) : Prop :=
  ml_base row = base_row_of show /\
  ((setlist show = "" /\ ml_song row = blank_song_row) \/
   (setlist show <> "" /\ In (ml_song row) (parse_setlist_for_ml (setlist show)) /\
    well_formed_row (ml_song row))).

(** ** Vocabulary for the wide export *)

Definition set_info_of (show : Show) : pydict (list string) :=
  match song_features show with Some f => set_info f | None => [] end.

(** The descriptive and summary columns of a wide row (lines 373-398). *)
Definition summary_row (show : Show) : pydict jscalar :=
  [ ("show_id", show_id show); ("date", JStr (date show));
    ("artist_name", JStr (artist_name show)); ("venue", venue show);
    ("city", city show); ("state", state show); ("country", country show);
    ("tour_name", tour_name show); ("rating", rating show);
    ("reviews", reviews show); ("venue_id", venue_id show);
    ("permalink", permalink show);
    ("total_songs", JInt (len (songs_played_of show)));
    ("unique_songs",
     JInt (Z.of_nat (size (list_to_set (songs_played_of show) : gset string))));
    ("total_sets", JInt (len (set_info_of show)));
    ("has_encore",
     JBool (dict_has "Encore" (set_info_of show) || dict_has "E" (set_info_of show))) ].

(** ** A client without API key *)

(** The world after [n] pauses between batches and nothing else. *)
Definition after_batch_pauses (self : extractor) (n : nat) (w : world) : world :=
  {| all_songs := all_songs w;
     requests_sent := requests_sent w;
     trace := trace w ++ repeat (Sleep BatchDelay (batch_delay self)) n |}.

(** ** Vocabulary for the column names *)

(** An ASCII letter or digit. *)
Definition is_alnum (c : ascii) : bool :=
  PyStr.is_lower_ascii c || PyStr.is_upper_ascii c || PyStr.is_digit c.

(** No character of [s] is an ASCII letter or digit. *)
Definition no_alnum (s : string) : bool :=
  all_chars (fun c => negb (is_alnum c)) s.

(* ===================================================================== *)
(** * Part II: properties                                                 *)
(* ===================================================================== *)

(** ** Characters *)

Lemma lower_char_underscore c :
  PyStr.is_underscore (PyStr.lower_char c) = PyStr.is_underscore c.
Proof. each_ascii c. Qed.

Lemma lower_char_word c :
  PyStr.is_word c = true -> is_column_char (PyStr.lower_char c) = true.
Proof. each_ascii c. Qed.

Lemma lower_char_column c :
  is_column_char c = true -> PyStr.lower_char c = c.
Proof. each_ascii c. Qed.

Lemma column_char_word c :
  is_column_char c = true -> PyStr.is_word c = true.
Proof. each_ascii c. Qed.

Lemma underscore_word c : PyStr.is_underscore c = true -> PyStr.is_word c = true.
Proof. each_ascii c. Qed.

(** ** Appending *)

Lemma append_cons c (s t : string) : String c s +:+ t = String c (s +:+ t).
Proof. reflexivity. Qed.

Lemma append_empty_l (t : string) : EmptyString +:+ t = t.
Proof. reflexivity. Qed.

Lemma append_empty_r (s : string) : s +:+ EmptyString = s.
Proof. induction s as [|c s IH]; [reflexivity|]. rewrite append_cons, IH. reflexivity. Qed.

Lemma append_assoc (s t u : string) : (s +:+ t) +:+ u = s +:+ (t +:+ u).
Proof.
  induction s as [|c s IH]; [reflexivity|]. rewrite !append_cons, IH. reflexivity.
Qed.

Lemma length_append (s t : string) :
  String.length (s +:+ t) = (String.length s + String.length t)%nat.
Proof.
  induction s as [|c s IH]; [reflexivity|]. rewrite append_cons. simpl. rewrite IH.
  reflexivity.
Qed.

(** ** The steps of [clean_column_name], one by one *)

Lemma sub_non_word_all s : all_chars PyStr.is_word (PyStr.sub_non_word s) = true.
Proof.
  induction s as [|c s IH]; simpl; [reflexivity|].
  rewrite IH, andb_true_r.
  destruct (PyStr.is_word c) eqn:Hc; [exact Hc | reflexivity].
Qed.

Lemma sub_underscore_runs_cons c d s :
  PyStr.sub_underscore_runs (String c (String d s)) =
  if Ascii.eqb c "_" && Ascii.eqb d "_"
  then PyStr.sub_underscore_runs (String d s)
  else String c (PyStr.sub_underscore_runs (String d s)).
Proof. reflexivity. Qed.

Lemma sub_underscore_runs_head p s :
  starts_with p (PyStr.sub_underscore_runs s) = starts_with p s.
Proof.
  induction s as [|c s IH]; [reflexivity|].
  destruct s as [|d s']; [reflexivity|].
  rewrite sub_underscore_runs_cons.
  destruct (Ascii.eqb c "_" && Ascii.eqb d "_") eqn:E; [|reflexivity].
  rewrite IH. apply andb_true_iff in E as [Ec Ed].
  apply Ascii.eqb_eq in Ec, Ed. subst. reflexivity.
Qed.

Lemma sub_underscore_runs_all p s :
  all_chars p s = true -> all_chars p (PyStr.sub_underscore_runs s) = true.
Proof.
  induction s as [|c s IH]; [reflexivity|].
  destruct s as [|d s']; [intros H; exact H|].
  intros H. change (all_chars p (String c (String d s'))) with
    (p c && all_chars p (String d s')) in H.
  apply andb_true_iff in H as [Hc Hs].
  rewrite sub_underscore_runs_cons.
  destruct (Ascii.eqb c "_" && Ascii.eqb d "_"); [apply IH, Hs|].
  cbn [all_chars]. rewrite Hc. simpl. apply IH, Hs.
Qed.

Lemma sub_underscore_runs_no_double s :
  no_double_underscore (PyStr.sub_underscore_runs s) = true.
Proof.
  induction s as [|c s IH]; [reflexivity|].
  destruct s as [|d s'].
  - simpl. rewrite andb_false_r. reflexivity.
  - rewrite sub_underscore_runs_cons.
    destruct (Ascii.eqb c "_" && Ascii.eqb d "_") eqn:E; [exact IH|].
    cbn [no_double_underscore]. rewrite IH, andb_true_r.
    rewrite sub_underscore_runs_head. unfold PyStr.is_underscore. simpl.
    rewrite E. reflexivity.
Qed.

Lemma lstrip_all p q s :
  all_chars p s = true -> all_chars p (PyStr.lstrip_by q s) = true.
Proof.
  induction s as [|c s IH]; [reflexivity|]. intros H. simpl.
  destruct (q c); [|exact H].
  simpl in H. apply andb_true_iff in H as [_ H]. apply IH, H.
Qed.

Lemma lstrip_no_double q s :
  no_double_underscore s = true -> no_double_underscore (PyStr.lstrip_by q s) = true.
Proof.
  induction s as [|c s IH]; [reflexivity|]. intros H. simpl.
  destruct (q c); [|exact H].
  simpl in H. apply andb_true_iff in H as [_ H]. apply IH, H.
Qed.

Lemma lstrip_head q s : starts_with q (PyStr.lstrip_by q s) = false.
Proof.
  induction s as [|c s IH]; [reflexivity|]. simpl.
  destruct (q c) eqn:E; [exact IH|]. simpl. exact E.
Qed.

Lemma ends_with_cons p c s :
  s <> EmptyString -> ends_with p (String c s) = ends_with p s.
Proof. destruct s; [congruence | reflexivity]. Qed.

Lemma lstrip_last p q s :
  ends_with p s = false -> ends_with p (PyStr.lstrip_by q s) = false.
Proof.
  induction s as [|c s IH]; [reflexivity|]. intros H. simpl.
  destruct (q c); [|exact H].
  destruct s as [|d s']; [reflexivity|]. apply IH. exact H.
Qed.

Lemma rstrip_all p q s :
  all_chars p s = true -> all_chars p (PyStr.rstrip_by q s) = true.
Proof.
  induction s as [|c s IH]; [reflexivity|]. intros H.
  simpl in H. apply andb_true_iff in H as [Hc H]. specialize (IH H).
  simpl. destruct (PyStr.rstrip_by q s) eqn:E.
  - destruct (q c); [reflexivity|]. simpl. rewrite Hc. reflexivity.
  - cbn [all_chars]. rewrite Hc. exact IH.
Qed.

Lemma rstrip_head p q s :
  starts_with p s = false -> starts_with p (PyStr.rstrip_by q s) = false.
Proof.
  destruct s as [|c s]; [reflexivity|]. intros H. simpl.
  destruct (PyStr.rstrip_by q s); [destruct (q c)|]; simpl; auto.
Qed.

Lemma rstrip_starts (p q : ascii -> bool) s a r :
  PyStr.rstrip_by q s = String a r ->
  starts_with p s = p a.
Proof.
  destruct s as [|d s]; [discriminate|]. simpl.
  destruct (PyStr.rstrip_by q s); [destruct (q d)|]; intros [= <- _]; reflexivity.
Qed.

Lemma no_double_underscore_cons c s :
  no_double_underscore (String c s) =
  negb (PyStr.is_underscore c && starts_with PyStr.is_underscore s)
  && no_double_underscore s.
Proof. reflexivity. Qed.

Lemma rstrip_no_double q s :
  no_double_underscore s = true -> no_double_underscore (PyStr.rstrip_by q s) = true.
Proof.
  induction s as [|c s IH]; [reflexivity|]. intros H.
  simpl in H. apply andb_true_iff in H as [Hc H]. specialize (IH H).
  simpl. destruct (PyStr.rstrip_by q s) as [|a r] eqn:E.
  - destruct (q c); [reflexivity|]. simpl. rewrite andb_false_r. reflexivity.
  - rewrite no_double_underscore_cons, IH, andb_true_r.
    change (starts_with PyStr.is_underscore (String a r)) with (PyStr.is_underscore a).
    rewrite <- (rstrip_starts PyStr.is_underscore q s a r E). exact Hc.
Qed.

Lemma rstrip_last q s : ends_with q (PyStr.rstrip_by q s) = false.
Proof.
  induction s as [|c s IH]; [reflexivity|]. simpl.
  destruct (PyStr.rstrip_by q s) as [|a r] eqn:E.
  - destruct (q c) eqn:Hc; [reflexivity|]. simpl. exact Hc.
  - rewrite ends_with_cons by discriminate. exact IH.
Qed.

Lemma lower_all s :
  all_chars PyStr.is_word s = true -> all_chars is_column_char (PyStr.lower s) = true.
Proof.
  induction s as [|c s IH]; [reflexivity|]. simpl. intros H.
  apply andb_true_iff in H as [Hc H].
  rewrite (lower_char_word c Hc), IH by exact H. reflexivity.
Qed.

Lemma lower_head s :
  starts_with PyStr.is_underscore (PyStr.lower s) = starts_with PyStr.is_underscore s.
Proof. destruct s; [reflexivity|]. simpl. apply lower_char_underscore. Qed.

Lemma lower_last s :
  ends_with PyStr.is_underscore (PyStr.lower s) = ends_with PyStr.is_underscore s.
Proof.
  induction s as [|c s IH]; [reflexivity|].
  destruct s as [|d s']; [simpl; apply lower_char_underscore|].
  change (PyStr.lower (String c (String d s')))
    with (String (PyStr.lower_char c) (PyStr.lower (String d s'))).
  rewrite ends_with_cons by (simpl; discriminate).
  rewrite IH. reflexivity.
Qed.

Lemma lower_no_double s :
  no_double_underscore (PyStr.lower s) = no_double_underscore s.
Proof.
  induction s as [|c s IH]; [reflexivity|]. simpl.
  rewrite lower_char_underscore, lower_head, IH. reflexivity.
Qed.

(** ** Strings the steps leave alone *)

Lemma sub_non_word_fixed s :
  all_chars PyStr.is_word s = true -> PyStr.sub_non_word s = s.
Proof.
  induction s as [|c s IH]; [reflexivity|]. simpl. intros H.
  apply andb_true_iff in H as [Hc H]. rewrite Hc, IH by exact H. reflexivity.
Qed.

Lemma sub_underscore_runs_fixed s :
  no_double_underscore s = true -> PyStr.sub_underscore_runs s = s.
Proof.
  induction s as [|c s IH]; [reflexivity|]. intros H.
  destruct s as [|d s']; [reflexivity|].
  cbn [no_double_underscore] in H. apply andb_true_iff in H as [Hc H].
  rewrite sub_underscore_runs_cons.
  unfold PyStr.is_underscore in Hc. simpl in Hc.
  apply negb_true_iff in Hc. rewrite Hc. rewrite IH by exact H. reflexivity.
Qed.

Lemma lstrip_fixed q s : starts_with q s = false -> PyStr.lstrip_by q s = s.
Proof. destruct s; [reflexivity|]. simpl. intros ->. reflexivity. Qed.

Lemma rstrip_fixed q s : ends_with q s = false -> PyStr.rstrip_by q s = s.
Proof.
  induction s as [|c s IH]; [reflexivity|]. intros H.
  destruct s as [|d s'].
  - simpl in *. rewrite H. reflexivity.
  - rewrite ends_with_cons in H by discriminate.
    change (PyStr.rstrip_by q (String c (String d s'))) with
      (match PyStr.rstrip_by q (String d s') with
       | EmptyString => if q c then EmptyString else String c EmptyString
       | r => String c r end).
    rewrite IH by exact H. reflexivity.
Qed.

Lemma lower_fixed s :
  all_chars is_column_char s = true -> PyStr.lower s = s.
Proof.
  induction s as [|c s IH]; [reflexivity|]. simpl. intros H.
  apply andb_true_iff in H as [Hc H].
  rewrite (lower_char_column c Hc), IH by exact H. reflexivity.
Qed.

Lemma all_chars_weaken (p q : ascii -> bool) s :
  (forall c, p c = true -> q c = true) ->
  all_chars p s = true -> all_chars q s = true.
Proof.
  intros Hpq. induction s as [|c s IH]; [reflexivity|]. simpl. intros H.
  apply andb_true_iff in H as [Hc H]. rewrite (Hpq c Hc), IH by exact H. reflexivity.
Qed.

(** What [clean_column_name] returns: lower-case letters, digits and single
    underscores, none at either end. *)
Lemma clean_column_name_shape name :
  let t := clean_column_name name in
  all_chars is_column_char t = true /\
  no_double_underscore t = true /\
  starts_with PyStr.is_underscore t = false /\
  ends_with PyStr.is_underscore t = false.
Proof.
  unfold clean_column_name, PyStr.strip_by. cbv zeta.
  set (a := PyStr.sub_non_word name).
  set (b := PyStr.sub_underscore_runs a).
  repeat split.
  - apply lower_all, lstrip_all, rstrip_all, sub_underscore_runs_all, sub_non_word_all.
  - rewrite lower_no_double. apply lstrip_no_double, rstrip_no_double.
    apply sub_underscore_runs_no_double.
  - rewrite lower_head. apply lstrip_head.
  - rewrite lower_last. apply lstrip_last, rstrip_last.
Qed.

Lemma clean_column_name_fixed t :
  all_chars is_column_char t = true ->
  no_double_underscore t = true ->
  starts_with PyStr.is_underscore t = false ->
  ends_with PyStr.is_underscore t = false ->
  clean_column_name t = t.
Proof.
  intros Hall Hdd Hhd Hlast. unfold clean_column_name, PyStr.strip_by. cbv zeta.
  rewrite sub_non_word_fixed
    by (apply (all_chars_weaken is_column_char); [apply column_char_word | exact Hall]).
  rewrite sub_underscore_runs_fixed by exact Hdd.
  rewrite rstrip_fixed by exact Hlast.
  rewrite lstrip_fixed by exact Hhd.
  apply lower_fixed, Hall.
Qed.

(** C3, as stated, fails: the apostrophe of "Mike's Song" becomes an
    underscore, it is not dropped. *)
Lemma clean_column_name_mikes_song_differs :
  ~ ((forall s, clean_column_name (clean_column_name s) = clean_column_name s) /\
     clean_column_name "Run Like an Antelope" = "run_like_an_antelope" /\
     clean_column_name "Mike's Song" = "mikes_song" /\
     List.NoDup (map clean_column_name test_vocabulary)).
Proof. intros (_ & _ & H & _). vm_compute in H. discriminate H. Qed.

(** C3, amended: [clean_column_name] is idempotent; on the test vocabulary
    it gives "run_like_an_antelope" and "mike_s_song", and no two entries of
    the vocabulary get the same column name. *)
Theorem clean_column_name_idempotent_and_vocabulary :
  (forall s, clean_column_name (clean_column_name s) = clean_column_name s) /\
  clean_column_name "Run Like an Antelope" = "run_like_an_antelope" /\
  clean_column_name "Mike's Song" = "mike_s_song" /\
  List.NoDup (map clean_column_name test_vocabulary).
Proof.
  split; [|split; [reflexivity|split; [reflexivity|]]].
  - intros s. destruct (clean_column_name_shape s) as (H1 & H2 & H3 & H4).
    apply clean_column_name_fixed; assumption.
  - unfold test_vocabulary. cbn [map].
    repeat (apply List.NoDup_cons; [vm_compute; intuition discriminate|]).
    apply List.NoDup_nil.
Qed.

(** ** The long-format parser on the specification's example *)

(** C4, as stated, fails: the parser gives three rows, not four. *)
Lemma parse_example_not_four_rows :
  length (parse_setlist_for_ml "Set 1: Tweezer >, Mike's Song | Encore: Tweezer") <> 4%nat.
Proof. vm_compute. discriminate. Qed.

(** C4, amended: the example string parses to exactly three rows, the ones
    the specification lists. *)
Theorem parse_example_three_rows :
  parse_setlist_for_ml "Set 1: Tweezer >, Mike's Song | Encore: Tweezer" =
  [ {| set_name := "Set 1"; song_position := 1; song_name := "Tweezer";
       has_segue := true; segue_info := ">" |};
    {| set_name := "Set 1"; song_position := 2; song_name := "Mike's Song";
       has_segue := false; segue_info := "" |};
    {| set_name := "Encore"; song_position := 1; song_name := "Tweezer";
       has_segue := false; segue_info := "" |} ].
Proof. vm_compute. reflexivity. Qed.

(** ** The HTTP client *)

Lemma py_range_from_zero n :
  py_range 0 n 1 = map Z.of_nat (seq 0 (Z.to_nat n)).
Proof.
  unfold py_range. simpl (0 <? 1). cbv iota.
  replace ((n - 0 + 1 - 1) / 1) with n by (rewrite Z.div_1_r; lia).
  apply map_ext. intros i. lia.
Qed.

(** One turn of the loop, with the monad unfolded. *)
Lemma attempts_cons {A} self (respond : nat -> http_outcome A) url retry_count attempt rest w :
  attempts self respond url retry_count (attempt :: rest) w =
  let w1 := {| all_songs := all_songs w; requests_sent := S (requests_sent w);
               trace := trace w ++ [Get url] |} in
  let except (e : exn) (w2 : world) :=
    if isinstance_RequestException e then
      if attempt <? retry_count - 1
      then attempts self respond url retry_count rest
             {| all_songs := all_songs w2; requests_sent := requests_sent w2;
                trace := trace w2 ++ [Sleep RetryBackoff (inject_Z (2 * (attempt + 1)))] |}
      else (inl None, w2)
    else if isinstance_JSONDecodeError e then (inl None, w2)
    else (inr e, w2) in
  match respond (requests_sent w) with
  | GetRaises e => except e w1
  | GetResponse status_code json =>
      if status_code =? 429 then
        attempts self respond url retry_count rest
          {| all_songs := all_songs w1; requests_sent := requests_sent w1;
             trace := trace w1 ++ [Sleep RateLimitBackoff (inject_Z (5 * (attempt + 1)))] |}
      else
        match raise_for_status status_code with
        | Some e => except e w1
        | None =>
            let w2 := {| all_songs := all_songs w1; requests_sent := requests_sent w1;
                         trace := trace w1 ++ [Sleep RequestDelay (request_delay self)] |} in
            match json with
            | inr e => except e w2
            | inl JsonOther => (inr AttributeError, w2)
            | inl (JsonObject data) =>
                if jtruthy (get (error data)) && negb (jeq (get (error data)) (JBool false))
                then (inl None, w2)
                else (inl (Some data), w2)
            end
        end
  end.
Proof.
  cbn [attempts]. unfold bind, requests_get, sleep, ret, raise. cbv zeta.
  destruct (respond (requests_sent w)) as [e|status_code json]; [break_ifs|].
  destruct (status_code =? 429); [reflexivity|].
  destruct (raise_for_status status_code) as [e|]; [break_ifs|].
  destruct json as [[data|]|e]; simpl; break_ifs.
Qed.

Lemma attempts_always_429 {A} self (respond : nat -> http_outcome A) url retry_count :
  always_429 respond ->
  forall todo w,
    attempts self respond url retry_count todo w =
    (inl None,
     {| all_songs := all_songs w;
        requests_sent := requests_sent w + length todo;
        trace := trace w ++
                 flat_map (fun attempt =>
                             [Get url; Sleep RateLimitBackoff (inject_Z (5 * (attempt + 1)))])
                          todo |}).
Proof.
  intros H429 todo. induction todo as [|attempt rest IH]; intros w.
  - simpl. unfold ret. destruct w as [songs sent tr]. simpl.
    rewrite Nat.add_0_r, app_nil_r. reflexivity.
  - rewrite attempts_cons. cbv zeta.
    destruct (H429 (requests_sent w)) as [json ->]. simpl (429 =? 429). cbv iota.
    rewrite IH. cbn [all_songs requests_sent trace length flat_map].
    rewrite <- !app_assoc. cbn [app].
    replace (S (requests_sent w) + length rest)%nat
      with (requests_sent w + S (length rest))%nat by lia.
    reflexivity.
Qed.

Lemma rate_limited_trace_range url n :
  flat_map (fun attempt => [Get url; Sleep RateLimitBackoff (inject_Z (5 * (attempt + 1)))])
           (map Z.of_nat (seq 0 n))
  = rate_limited_trace url n.
Proof.
  unfold rate_limited_trace. rewrite <- seq_shift.
  rewrite !flat_map_concat_map, !map_map. f_equal. apply map_ext.
  intros i. repeat f_equal. lia.
Qed.

(** C1: against a server that answers 429 to every request, a client with a
    key sends exactly [retry_count] requests (as many as [range(retry_count)]
    has members), pauses [5 * attempt_number] seconds after each, and returns
    [None]; nothing is raised. *)
Theorem make_request_always_429 {A : Type} (self : extractor)
    (respond : nat -> http_outcome A) (endpoint : string) (retry_count : Z) (w : world) :
  PyStr.truthy (api_key self) = true ->
  always_429 respond ->
  make_request self respond endpoint retry_count w =
  (inl None,
   {| all_songs := all_songs w;
      requests_sent := requests_sent w + Z.to_nat retry_count;
      trace := trace w ++
               rate_limited_trace (base_url self +:+ "/" +:+ endpoint)
                                  (Z.to_nat retry_count) |}).
Proof.
  intros Hkey H429. unfold make_request. rewrite Hkey.
  rewrite (attempts_always_429 _ _ _ _ H429).
  rewrite py_range_from_zero, rate_limited_trace_range.
  rewrite length_map, length_seq. reflexivity.
Qed.

(** With the default of three attempts, from a fresh start. *)
Lemma make_request_always_429_default :
  make_request (PhishDataExtractor default_api_key)
               (fun _ => GetResponse (A := unit) 429 (inr JSONDecodeError))
               "shows/tiph.json" default_retry_count initial_world =
  (inl None,
   {| all_songs := ∅; requests_sent := 3;
      trace := [ Get "https://api.phish.net/v5/shows/tiph.json";
                 Sleep RateLimitBackoff 5;
                 Get "https://api.phish.net/v5/shows/tiph.json";
                 Sleep RateLimitBackoff 10;
                 Get "https://api.phish.net/v5/shows/tiph.json";
                 Sleep RateLimitBackoff 15 ] |}).
Proof.
  apply (make_request_always_429 (PhishDataExtractor default_api_key)
           (fun _ => GetResponse (A := unit) 429 (inr JSONDecodeError))
           "shows/tiph.json" default_retry_count initial_world).
  - reflexivity.
  - intros n. eexists. reflexivity.
Defined.

(** A truthy [error] is never equal to [False]. *)
Lemma truthy_error_is_reported (v : jscalar) :
  jtruthy v = true -> jtruthy v && negb (jeq v (JBool false)) = true.
Proof.
  destruct v as [|b|z|s]; simpl; try discriminate.
  - intros ->. reflexivity.
  - intros H. rewrite H. reflexivity.
  - intros ->. reflexivity.
Qed.

Lemma raise_for_status_raises status_code e :
  raise_for_status status_code = Some e -> isinstance_RequestException e = true.
Proof.
  unfold raise_for_status.
  destruct ((400 <=? status_code) && (status_code <? 600)); [|discriminate].
  intros [= <-]. reflexivity.
Qed.

(** A block stays a block when a pause of another kind follows it. *)
Lemma request_block_pause url delay passed block why seconds :
  other_pause (Sleep why seconds) = true ->
  request_block url delay passed block ->
  request_block url delay passed (block ++ [Sleep why seconds]).
Proof.
  intros Hother (pauses & Hpauses & ->). exists (pauses ++ [Sleep why seconds]). split.
  - rewrite forallb_app, Hpauses. cbn [forallb]. rewrite Hother. reflexivity.
  - destruct passed; reflexivity.
Qed.

Lemma request_block_failed url delay :
  request_block url delay false [Get url].
Proof. exists []. split; reflexivity. Qed.

Lemma request_block_passed url delay :
  request_block url delay true [Get url; Sleep RequestDelay delay].
Proof. exists []. split; reflexivity. Qed.

(** The trace of the loop, request by request. *)
Lemma attempts_blocks {A} self (respond : nat -> http_outcome A) url retry_count :
  forall todo w result w',
    attempts self respond url retry_count todo w = (result, w') ->
    exists blocks,
      trace w' = trace w ++ concat blocks /\
      requests_sent w' = (requests_sent w + length blocks)%nat /\
      Forall2 (fun n block =>
                 request_block url (request_delay self) (passes (respond n)) block)
              (seq (requests_sent w) (length blocks)) blocks.
Proof.
  induction todo as [|attempt rest IH]; intros w result w' H.
  - injection H as _ <-. exists []. cbn [concat length seq].
    rewrite app_nil_r, Nat.add_0_r. split; [reflexivity|]. split; [reflexivity|constructor].
  - rewrite attempts_cons in H. cbv zeta in H.
    cbn [all_songs requests_sent trace] in H.
    assert (Hstop : forall block w1 (r : option (envelope A) + exn),
               request_block url (request_delay self)
                             (passes (respond (requests_sent w))) block ->
               trace w1 = trace w ++ block -> requests_sent w1 = S (requests_sent w) ->
               (r, w1) = (result, w') ->
               exists blocks,
                 trace w' = trace w ++ concat blocks /\
                 requests_sent w' = (requests_sent w + length blocks)%nat /\
                 Forall2 (fun n block =>
                            request_block url (request_delay self)
                                          (passes (respond n)) block)
                         (seq (requests_sent w) (length blocks)) blocks).
    { intros block w1 r Hblock Htr Hsent [= _ <-]. exists [block].
      cbn [concat length seq]. rewrite app_nil_r. split; [exact Htr|].
      split; [lia|]. constructor; [exact Hblock|constructor]. }
    assert (Hrec : forall block w1,
               request_block url (request_delay self)
                             (passes (respond (requests_sent w))) block ->
               trace w1 = trace w ++ block -> requests_sent w1 = S (requests_sent w) ->
               attempts self respond url retry_count rest w1 = (result, w') ->
               exists blocks,
                 trace w' = trace w ++ concat blocks /\
                 requests_sent w' = (requests_sent w + length blocks)%nat /\
                 Forall2 (fun n block =>
                            request_block url (request_delay self)
                                          (passes (respond n)) block)
                         (seq (requests_sent w) (length blocks)) blocks).
    { intros block w1 Hblock Htr Hsent Hrun.
      destruct (IH _ _ _ Hrun) as (blocks & Htr' & Hsent' & Hall).
      exists (block :: blocks). cbn [concat length seq].
      split; [rewrite Htr', Htr, app_assoc; reflexivity|]. split; [lia|].
      constructor; [exact Hblock|]. rewrite <- Hsent. exact Hall. }
    assert (Hexc : forall e block all_songs1,
               request_block url (request_delay self)
                             (passes (respond (requests_sent w))) block ->
               (if isinstance_RequestException e
                then if attempt <? retry_count - 1
                     then attempts self respond url retry_count rest
                            {| all_songs := all_songs1;
                               requests_sent := S (requests_sent w);
                               trace := (trace w ++ block) ++
                                        [Sleep RetryBackoff (inject_Z (2 * (attempt + 1)))] |}
                     else (inl None, {| all_songs := all_songs1;
                                        requests_sent := S (requests_sent w);
                                        trace := trace w ++ block |})
                else if isinstance_JSONDecodeError e
                     then (inl None, {| all_songs := all_songs1;
                                        requests_sent := S (requests_sent w);
                                        trace := trace w ++ block |})
                     else (inr e, {| all_songs := all_songs1;
                                     requests_sent := S (requests_sent w);
                                     trace := trace w ++ block |}))
               = (result, w') ->
               exists blocks,
                 trace w' = trace w ++ concat blocks /\
                 requests_sent w' = (requests_sent w + length blocks)%nat /\
                 Forall2 (fun n block =>
                            request_block url (request_delay self)
                                          (passes (respond n)) block)
                         (seq (requests_sent w) (length blocks)) blocks).
    { intros e block songs1 Hblock Hrun.
      destruct (isinstance_RequestException e).
      - destruct (attempt <? retry_count - 1).
        + refine (Hrec (block ++ [Sleep RetryBackoff (inject_Z (2 * (attempt + 1)))])
                       _ _ _ _ Hrun);
            [apply request_block_pause; [reflexivity|exact Hblock]
            |cbn [trace]; rewrite app_assoc; reflexivity|reflexivity].
        + refine (Hstop block _ _ Hblock _ _ Hrun); reflexivity.
      - destruct (isinstance_JSONDecodeError e);
          refine (Hstop block _ _ Hblock _ _ Hrun); reflexivity. }
    destruct (respond (requests_sent w)) as [e|status_code json] eqn:Hresp;
      cbn [passes] in Hstop, Hrec, Hexc.
    + apply (Hexc e [Get url] _ (request_block_failed url _) H).
    + unfold passes_status in Hstop, Hrec, Hexc.
      destruct (status_code =? 429); cbn [negb andb] in Hstop, Hrec, Hexc.
      { refine (Hrec [Get url; Sleep RateLimitBackoff (inject_Z (5 * (attempt + 1)))]
                     _ _ _ _ H);
          [apply (request_block_pause url _ false [Get url]);
             [reflexivity|apply request_block_failed]
          |cbn [trace]; rewrite <- app_assoc; reflexivity|reflexivity]. }
      destruct (raise_for_status status_code) as [e|].
      { apply (Hexc e [Get url] _ (request_block_failed url _) H). }
      assert (Hpassed : request_block url (request_delay self) true
                          [Get url; Sleep RequestDelay (request_delay self)])
        by apply request_block_passed.
      assert (Htrace : (trace w ++ [Get url]) ++ [Sleep RequestDelay (request_delay self)]
                       = trace w ++ [Get url; Sleep RequestDelay (request_delay self)])
        by (rewrite <- app_assoc; reflexivity).
      rewrite Htrace in H.
      destruct json as [[body|]|e].
      * destruct (jtruthy (get (error body)) && negb (jeq (get (error body)) (JBool false)));
          refine (Hstop _ _ _ Hpassed _ _ H); reflexivity.
      * refine (Hstop _ _ _ Hpassed _ _ H); reflexivity.
      * apply (Hexc e _ _ Hpassed H).
Qed.

(** Where the request delay occurs among blocks. *)
Lemma blocks_delay {A} url delay (respond : nat -> http_outcome A) numbers blocks seconds :
  Forall2 (fun n block => request_block url delay (passes (respond n)) block)
          numbers blocks ->
  In (Sleep RequestDelay seconds) (concat blocks) <->
  seconds = delay /\ exists n, In n numbers /\ passes (respond n) = true.
Proof.
  induction 1 as [|n block numbers blocks (pauses & Hpauses & ->) Hrest IH].
  - cbn [concat]. split; [intros []|intros (_ & n & [] & _)].
  - assert (Hnone : ~ In (Sleep RequestDelay seconds) pauses).
    { intros Hin. rewrite forallb_forall in Hpauses. specialize (Hpauses _ Hin).
      discriminate Hpauses. }
    cbn [concat]. rewrite in_app_iff, IH. split.
    + intros [Hin|(Hd & m & Hm & Hpass)].
      * destruct (passes (respond n)) eqn:Hpass; cbn [In] in Hin.
        -- destruct Hin as [Hin|[Hin|Hin]]; [discriminate Hin| |contradiction].
           injection Hin as <-. split; [reflexivity|]. exists n. split; [left; reflexivity|].
           exact Hpass.
        -- destruct Hin as [Hin|Hin]; [discriminate Hin|contradiction].
      * split; [exact Hd|]. exists m. split; [right; exact Hm|exact Hpass].
    + intros (-> & m & [<-|Hm] & Hpass).
      * left. rewrite Hpass. right. left. reflexivity.
      * right. split; [reflexivity|]. exists m. split; assumption.
Qed.

(** Where the loop returns data, the last thing it did was to send a
    request and pause for the request delay. *)
Lemma attempts_success_delays {A} self (respond : nat -> http_outcome A) url retry_count :
  forall todo w data w',
    attempts self respond url retry_count todo w = (inl (Some data), w') ->
    exists evs,
      trace w' = trace w ++ evs ++ [Get url; Sleep RequestDelay (request_delay self)].
Proof.
  induction todo as [|attempt rest IH]; intros w data w' H.
  - discriminate H.
  - rewrite attempts_cons in H. cbv zeta in H.
    assert (Hrec : forall ev w1,
               trace w1 = (trace w ++ [Get url]) ++ ev ->
               attempts self respond url retry_count rest w1 = (inl (Some data), w') ->
               exists evs,
                 trace w' = trace w ++ evs ++ [Get url; Sleep RequestDelay (request_delay self)]).
    { intros ev w1 Hw1 Hrun. destruct (IH _ _ _ Hrun) as [evs Hevs].
      exists ((Get url :: ev) ++ evs). rewrite Hevs, Hw1.
      rewrite <- !app_assoc. reflexivity. }
    assert (Hexc : forall e ev w1,
               trace w1 = (trace w ++ [Get url]) ++ ev ->
               (if isinstance_RequestException e
                then if attempt <? retry_count - 1
                     then attempts self respond url retry_count rest
                            {| all_songs := all_songs w1; requests_sent := requests_sent w1;
                               trace := trace w1 ++
                                        [Sleep RetryBackoff (inject_Z (2 * (attempt + 1)))] |}
                     else (inl None, w1)
                else if isinstance_JSONDecodeError e then (inl None, w1) else (inr e, w1))
               = (inl (Some data), w') ->
               exists evs,
                 trace w' = trace w ++ evs ++ [Get url; Sleep RequestDelay (request_delay self)]).
    { intros e ev w1 Hw1 Hrun.
      destruct (isinstance_RequestException e).
      - destruct (attempt <? retry_count - 1); [|discriminate Hrun].
        apply (Hrec (ev ++ [Sleep RetryBackoff (inject_Z (2 * (attempt + 1)))])) in Hrun;
          [exact Hrun|].
        simpl. rewrite Hw1, <- !app_assoc. reflexivity.
      - destruct (isinstance_JSONDecodeError e); discriminate Hrun. }
    destruct (respond (requests_sent w)) as [e|status_code json].
    + apply (Hexc e []) in H; [exact H|]. simpl. rewrite app_nil_r. reflexivity.
    + destruct (status_code =? 429).
      { apply (Hrec [Sleep RateLimitBackoff (inject_Z (5 * (attempt + 1)))]) in H;
          [exact H|]. reflexivity. }
      destruct (raise_for_status status_code) as [e|].
      { apply (Hexc e []) in H; [exact H|]. simpl. rewrite app_nil_r. reflexivity. }
      destruct json as [[body|]|e].
      * destruct (jtruthy (get (error body)) && negb (jeq (get (error body)) (JBool false)));
          [discriminate H|].
        injection H as _ <-. exists []. simpl. rewrite <- app_assoc. reflexivity.
      * discriminate H.
      * apply (Hexc e [Sleep RequestDelay (request_delay self)]) in H; [exact H|].
        reflexivity.
Qed.

(** C2, as stated, fails: a 200 response whose body carries an error makes
    the call fail, and the request delay has been slept. *)
Lemma make_request_delays_on_semantic_failure :
  let respond := fun _ : nat =>
    GetResponse (A := unit) 200
      (inl (JsonObject {| error := Some (JStr "Invalid API key"); error_message := None;
              data := None; other_keys := O |})) in
  make_request (PhishDataExtractor default_api_key) respond "shows/tiph.json"
               default_retry_count initial_world =
  (inl None,
   {| all_songs := ∅; requests_sent := 1;
      trace := [ Get "https://api.phish.net/v5/shows/tiph.json";
                 Sleep RequestDelay (1 # 2) ] |}).
Proof. vm_compute. reflexivity. Qed.

(** C2, amended: [make_request] sleeps the request delay right after every
    response that passes the status check, before it looks at the body,
    and at no other point. Whatever the server does, the events of a call
    are one block for each request sent, with the request delay second in
    the block exactly when the response passed the status check. So the
    delay is among the pauses of a call exactly when one of its responses
    passed the status check: on every call that returns a result, on a
    call that fails on a truthy [error] or on a body that is not JSON (with
    either decode error), and on no call without such a response: none that
    met 429, transport failures or error statuses only, and none without
    API key. *)
Theorem make_request_request_delay {A : Type} (self : extractor)
    (respond : nat -> http_outcome A) (endpoint : string) (retry_count : Z) (w : world) :
  let url := base_url self +:+ "/" +:+ endpoint in
  let call := make_request self respond endpoint retry_count w in
  (exists evs,
      trace (snd call) = trace w ++ evs /\
      delay_after_each_pass url (request_delay self) respond (requests_sent w) evs /\
      forall seconds,
        In (Sleep RequestDelay seconds) evs <->
        seconds = request_delay self /\
        exists n, (requests_sent w <= n < requests_sent (snd call))%nat /\
                  passes (respond n) = true) /\
  (forall data,
      fst call = inl (Some data) ->
      exists evs,
        trace (snd call)
        = trace w ++ evs ++ [Get url; Sleep RequestDelay (request_delay self)]) /\
  (PyStr.truthy (api_key self) = false -> call = (inl None, w)).
Proof.
  cbv zeta. unfold make_request. split; [|split].
  - destruct (PyStr.truthy (api_key self)).
    + destruct (attempts self respond (base_url self +:+ "/" +:+ endpoint) retry_count
                  (py_range 0 retry_count 1) w) as [result w'] eqn:Hrun.
      destruct (attempts_blocks _ _ _ _ _ _ _ _ Hrun) as (blocks & Htrace & Hsent & Hblocks).
      cbn [snd]. exists (concat blocks). split; [exact Htrace|]. split.
      * exists blocks. split; [reflexivity|exact Hblocks].
      * intros seconds. rewrite (blocks_delay _ _ _ _ _ seconds Hblocks), Hsent.
        split; intros (Hseconds & n & Hn & Hpass); (split; [exact Hseconds|]);
          exists n; (split; [|exact Hpass]); apply in_seq; exact Hn.
    + cbn [snd ret]. exists []. rewrite app_nil_r. split; [reflexivity|]. split.
      * exists []. split; [reflexivity|constructor].
      * intros seconds. split; [intros []|]. intros (_ & n & Hn & _). lia.
  - intros data H. destruct (PyStr.truthy (api_key self)); [|discriminate H].
    destruct (attempts self respond (base_url self +:+ "/" +:+ endpoint) retry_count
                (py_range 0 retry_count 1) w) as [result w'] eqn:Hrun.
    cbn [fst snd] in *. subst result.
    apply (attempts_success_delays _ _ _ _ _ _ _ _ Hrun).
  - intros ->. reflexivity.
Qed.

(** On the default client, from a fresh start: a server that answers 429
    twice and then 200 with a body that is not JSON, for which [requests]
    raises its own decode error. The third response passes the status check,
    and the call has slept the request delay. *)
Lemma make_request_request_delay_examples :
  let self := PhishDataExtractor default_api_key in
  let call := make_request self respond_not_json "shows/tiph.json" 3 initial_world in
  fst call = inl None /\
  requests_sent (snd call) = 3%nat /\
  In (Sleep RequestDelay (1 # 2)) (trace (snd call)).
Proof.
  cbv zeta. split; [reflexivity|]. split; [reflexivity|].
  destruct (proj1 (make_request_request_delay (PhishDataExtractor default_api_key)
                     respond_not_json "shows/tiph.json" 3 initial_world))
    as (evs & Htrace & _ & Hdelay).
  rewrite Htrace. cbn [trace initial_world app].
  apply Hdelay. split; [reflexivity|]. exists 2%nat. split; [|reflexivity].
  split; [cbn; lia|]. vm_compute. lia.
Defined.


(** ** Loops in the monad *)

(** What a loop body keeps, the loop keeps. *)
Lemma foldM_invariant {X Y : Type} (Inv : Y -> world -> Prop) (body : Y -> X -> M Y) :
  (forall acc x w acc' w', Inv acc w -> body acc x w = (inl acc', w') -> Inv acc' w') ->
  forall xs acc w result w',
    Inv acc w -> foldM body xs acc w = (inl result, w') -> Inv result w'.
Proof.
  intros Hbody. induction xs as [|x xs IH]; intros acc w result w' Hinv Hrun.
  - injection Hrun as <- <-. exact Hinv.
  - cbn [foldM] in Hrun. unfold bind in Hrun.
    destruct (body acc x w) as [[acc1|e] w1] eqn:Hstep; [|discriminate Hrun].
    apply (IH acc1 w1); [|exact Hrun]. apply (Hbody acc x w); assumption.
Qed.

(** A loop whose body always returns, returns. *)
Lemma foldM_returns {X Y : Type} (body : Y -> X -> M Y) :
  (forall acc x w, exists acc' w', body acc x w = (inl acc', w')) ->
  forall xs acc w, exists result w', foldM body xs acc w = (inl result, w').
Proof.
  intros Hbody. induction xs as [|x xs IH]; intros acc w.
  - exists acc, w. reflexivity.
  - cbn [foldM]. unfold bind.
    destruct (Hbody acc x w) as (acc1 & w1 & ->). apply IH.
Qed.

(** ** The client returns, and leaves the songs alone *)

Lemma attempts_returns {A} self (respond : nat -> http_outcome A) url retry_count :
  (forall n, well_behaved (respond n) = true) ->
  forall todo w, exists result w',
    attempts self respond url retry_count todo w = (inl result, w').
Proof.
  intros Hwell. induction todo as [|attempt rest IH]; intros w.
  - exists None, w. reflexivity.
  - rewrite attempts_cons. cbv zeta.
    assert (Hexc : forall e w1,
               caught e = true ->
               exists result w',
                 (if isinstance_RequestException e
                  then if attempt <? retry_count - 1
                       then attempts self respond url retry_count rest
                              {| all_songs := all_songs w1; requests_sent := requests_sent w1;
                                 trace := trace w1 ++
                                          [Sleep RetryBackoff (inject_Z (2 * (attempt + 1)))] |}
                       else (inl None, w1)
                  else if isinstance_JSONDecodeError e then (inl None, w1) else (inr e, w1))
                 = (inl result, w')).
    { intros e w1 He. unfold caught in He.
      destruct (isinstance_RequestException e).
      - destruct (attempt <? retry_count - 1); [apply IH|]. eexists _, _. reflexivity.
      - simpl in He. rewrite He. eexists _, _. reflexivity. }
    specialize (Hwell (requests_sent w)).
    destruct (respond (requests_sent w)) as [e|status_code json]; simpl in Hwell.
    + apply Hexc, Hwell.
    + destruct (status_code =? 429); [apply IH|].
      destruct (raise_for_status status_code) as [e|] eqn:Hr.
      { apply Hexc. unfold caught. rewrite (raise_for_status_raises _ _ Hr). reflexivity. }
      destruct json as [[body|]|e]; [|discriminate Hwell|apply Hexc, Hwell].
      destruct (jtruthy (get (error body)) && negb (jeq (get (error body)) (JBool false)));
        eexists _, _; reflexivity.
Qed.

Lemma make_request_returns {A} self (respond : nat -> http_outcome A) endpoint retry_count w :
  (forall n, well_behaved (respond n) = true) ->
  exists result w', make_request self respond endpoint retry_count w = (inl result, w').
Proof.
  intros Hwell. unfold make_request. destruct (PyStr.truthy (api_key self)).
  - apply attempts_returns, Hwell.
  - exists None, w. reflexivity.
Qed.

Lemma attempts_all_songs {A} self (respond : nat -> http_outcome A) url retry_count :
  forall todo w result w',
    attempts self respond url retry_count todo w = (result, w') ->
    all_songs w' = all_songs w.
Proof.
  induction todo as [|attempt rest IH]; intros w result w' H.
  - injection H as _ <-. reflexivity.
  - rewrite attempts_cons in H. cbv zeta in H.
    assert (Hexc : forall e w1,
               all_songs w1 = all_songs w ->
               (if isinstance_RequestException e
                then if attempt <? retry_count - 1
                     then attempts self respond url retry_count rest
                            {| all_songs := all_songs w1; requests_sent := requests_sent w1;
                               trace := trace w1 ++
                                        [Sleep RetryBackoff (inject_Z (2 * (attempt + 1)))] |}
                     else (inl None, w1)
                else if isinstance_JSONDecodeError e then (inl None, w1) else (inr e, w1))
               = (result, w') ->
               all_songs w' = all_songs w).
    { intros e w1 Hw1 Hrun. destruct (isinstance_RequestException e).
      - destruct (attempt <? retry_count - 1).
        + apply IH in Hrun. rewrite Hrun. exact Hw1.
        + injection Hrun as _ <-. exact Hw1.
      - destruct (isinstance_JSONDecodeError e); injection Hrun as _ <-; exact Hw1. }
    destruct (respond (requests_sent w)) as [e|status_code json].
    + (refine (Hexc e _ _ H); reflexivity).
    + destruct (status_code =? 429); [apply IH in H; exact H|].
      destruct (raise_for_status status_code) as [e|]; [(refine (Hexc e _ _ H); reflexivity)|].
      destruct json as [[body|]|e];
        [|injection H as _ <-; reflexivity|(refine (Hexc e _ _ H); reflexivity)].
      destruct (jtruthy (get (error body)) && negb (jeq (get (error body)) (JBool false)));
        injection H as _ <-; reflexivity.
Qed.

Lemma make_request_all_songs {A} self (respond : nat -> http_outcome A) endpoint retry_count
    w result w' :
  make_request self respond endpoint retry_count w = (result, w') ->
  all_songs w' = all_songs w.
Proof.
  unfold make_request. destruct (PyStr.truthy (api_key self)).
  - apply attempts_all_songs.
  - intros [= _ <-]. reflexivity.
Qed.

(** ** The catalog fetcher *)

Section Catalog.
Variable shows_api : nat -> Z -> http_outcome raw_show.
Variable now_year : Z.
Variable self : extractor.

Lemma fetch_year_only_phish all_shows year w all_shows' w' :
  only_phish all_shows w ->
  fetch_year shows_api self all_shows year w = (inl all_shows', w') ->
  only_phish all_shows' w'.
Proof.
  unfold only_phish, fetch_year, bind. intros Hall Hrun.
  destruct (make_request _ _ _ _ w) as [[response|e] w1]; [|discriminate Hrun].
  destruct (response_data response) as [[|show year_shows]|];
    try (injection Hrun as <- _; exact Hall).
  injection Hrun as <- _. apply Forall_app. split; [exact Hall|].
  apply List.Forall_forall. intros x Hx.
  apply (proj1 (List.filter_In (fun show => is_phish show) x (show :: year_shows))) in Hx.
  apply Hx.
Qed.

Lemma fetch_year_batch_only_phish end_year all_shows year_start w all_shows' w' :
  only_phish all_shows w ->
  fetch_year_batch shows_api self end_year all_shows year_start w = (inl all_shows', w') ->
  only_phish all_shows' w'.
Proof.
  unfold fetch_year_batch, bind. intros Hall Hrun.
  destruct (foldM _ _ all_shows w) as [[shows1|e] w1] eqn:Hloop; [|discriminate Hrun].
  apply (foldM_invariant only_phish) in Hloop;
    [|intros *; apply fetch_year_only_phish|exact Hall].
  destruct (_ <? end_year); injection Hrun as <- _; exact Hloop.
Qed.

Lemma fetch_year_returns all_shows year w :
  (forall n year, well_behaved (shows_api n year) = true) ->
  exists all_shows' w', fetch_year shows_api self all_shows year w = (inl all_shows', w').
Proof.
  intros Hwell. unfold fetch_year, bind.
  destruct (make_request_returns self (fun n => shows_api n year)
              ("shows/showyear/" +:+ str_of_int year +:+ ".json") default_retry_count w)
    as (response & w1 & ->); [intros n; apply Hwell|].
  destruct (response_data response) as [[|show year_shows]|]; eexists _, _; reflexivity.
Qed.

Lemma fetch_year_batch_returns end_year all_shows year_start w :
  (forall n year, well_behaved (shows_api n year) = true) ->
  exists all_shows' w',
    fetch_year_batch shows_api self end_year all_shows year_start w = (inl all_shows', w').
Proof.
  intros Hwell. unfold fetch_year_batch, bind.
  destruct (foldM_returns (fetch_year shows_api self)
              (fun acc x w => fetch_year_returns acc x w Hwell)
              (py_range year_start (Z.min (year_start + year_batch_size - 1) end_year + 1) 1)
              all_shows w) as (shows1 & w1 & ->).
  destruct (_ <? end_year); eexists _, _; reflexivity.
Qed.
End Catalog.

Lemma get_all_shows_returns (shows_api : nat -> Z -> http_outcome raw_show)
    (now_year : Z) (self : extractor) (start_year end_year : option Z) (w : world) :
  (forall n year, well_behaved (shows_api n year) = true) ->
  exists shows w',
    get_all_shows shows_api now_year self start_year end_year w = (inl shows, w').
Proof.
  intros Hwell. unfold get_all_shows. apply foldM_returns.
  intros acc x w0. apply fetch_year_batch_returns, Hwell.
Qed.

(** C9: every record [get_all_shows] returns has an artist name that is
    "phish" once lowered, whatever the year range and whatever the server
    answers; and it does return when the server raises nothing but what
    [make_request] catches. *)
Theorem get_all_shows_only_phish (shows_api : nat -> Z -> http_outcome raw_show)
    (now_year : Z) (self : extractor) (start_year end_year : option Z) (w : world) :
  (forall shows w',
      get_all_shows shows_api now_year self start_year end_year w = (inl shows, w') ->
      Forall (fun show => PyStr.lower (get_or (raw_artist_name show) "") = "phish") shows) /\
  ((forall n year, well_behaved (shows_api n year) = true) ->
   exists shows w',
     get_all_shows shows_api now_year self start_year end_year w = (inl shows, w')).
Proof.
  split.
  - intros shows w' Hrun. unfold get_all_shows in Hrun.
    apply (foldM_invariant (fun shows _ => Forall (fun show => is_phish show = true) shows))
      in Hrun.
    + revert Hrun. apply List.Forall_impl. intros show Hshow.
      apply String.eqb_eq. exact Hshow.
    + intros *. apply fetch_year_batch_only_phish.
    + constructor.
  - apply get_all_shows_returns.
Qed.

(** The example catalog for 2020: the Phish show stays, the other goes. *)
Lemma get_all_shows_only_phish_example :
  get_all_shows example_shows_api 2025 (PhishDataExtractor default_api_key)
                (Some 2020) (Some 2020) initial_world
  = (inl [example_raw_show 1 "2020-02-20" "Phish"],
     {| all_songs := ∅; requests_sent := 1;
        trace := [ Get "https://api.phish.net/v5/shows/showyear/2020.json";
                   Sleep RequestDelay (1 # 2) ] |})
  /\ Forall (fun show => PyStr.lower (get_or (raw_artist_name show) "") = "phish")
            [example_raw_show 1 "2020-02-20" "Phish"].
Proof.
  assert (Hrun : get_all_shows example_shows_api 2025 (PhishDataExtractor default_api_key)
                   (Some 2020) (Some 2020) initial_world
                 = (inl [example_raw_show 1 "2020-02-20" "Phish"],
                    {| all_songs := ∅; requests_sent := 1;
                       trace := [ Get "https://api.phish.net/v5/shows/showyear/2020.json";
                                  Sleep RequestDelay (1 # 2) ] |})).
  { vm_compute. reflexivity. }
  split; [exact Hrun|].
  exact (proj1 (get_all_shows_only_phish example_shows_api 2025
                  (PhishDataExtractor default_api_key) (Some 2020) (Some 2020) initial_world)
               _ _ Hrun).
Defined.

(** ** Dictionaries *)

Lemma dict_set_keys {V : Type} (k k' : string) (v : V) (d : pydict V) :
  In k (dict_keys (dict_set k' v d)) -> k = k' \/ In k (dict_keys d).
Proof.
  unfold dict_keys. induction d as [|[k0 v0] d IH]; simpl.
  - intros [<-|[]]. left. reflexivity.
  - destruct (String.eqb k' k0); simpl; intros [<-|H]; auto.
    destruct (IH H); auto.
Qed.

Lemma dict_set_items {V : Type} (k k' : string) (v v' : V) (d : pydict V) :
  In (k, v) (dict_set k' v' d) -> (k = k' /\ v = v') \/ In (k, v) d.
Proof.
  induction d as [|[k0 v0] d IH]; simpl.
  - intros [[= <- <-]|[]]. left. split; reflexivity.
  - destruct (String.eqb k' k0) eqn:E; simpl.
    + apply String.eqb_eq in E. subst k0. intros [[= <- <-]|H]; auto.
    + intros [H|H]; auto. destruct (IH H); auto.
Qed.

Lemma dict_get_items {V : Type} (k : string) (v : V) (d : pydict V) :
  dict_get k d = Some v -> In (k, v) d.
Proof.
  induction d as [|[k0 v0] d IH]; simpl; [discriminate|].
  destruct (String.eqb k k0) eqn:E.
  - apply String.eqb_eq in E. subst k0. intros [= <-]. left. reflexivity.
  - intros H. right. apply IH, H.
Qed.

Lemma dict_get_default_items {A : Type} (k : string) (x : A) (d : pydict (list A)) :
  In x (dict_get_default [] k d) -> exists xs, In (k, xs) d /\ In x xs.
Proof.
  unfold dict_get_default. destruct (dict_get k d) as [xs|] eqn:E; [|intros []].
  intros Hx. exists xs. split; [apply dict_get_items, E | exact Hx].
Qed.

(** ** The feature extractor and the song universe *)

Lemma extract_entry_superset songs bag entry songs' bag' :
  extract_entry (songs, bag) entry = (songs', bag') ->
  (forall name, bag_mentions bag name -> name ∈ songs) ->
  songs ⊆ songs' /\ (forall name, bag_mentions bag' name -> name ∈ songs').
Proof.
  unfold extract_entry. intros Hstep Hbag.
  set (song := PyStr.strip (get_or (entry_song entry) "Unknown Song")) in *.
  destruct (PyStr.truthy song && negb (String.eqb song "Unknown Song")).
  - injection Hstep as <- <-. split; [set_solver|].
    intros name Hname.
    assert (Hor : name = song \/ bag_mentions bag name).
    { destruct Hname as [H|[H|[H|[H|(set_name & songs0 & Hin & H)]]]]; simpl in *.
      - apply in_app_or in H as [H|[<-|[]]]; [right; left; exact H | left; reflexivity].
      - apply dict_set_keys in H as [->|H]; [left; reflexivity | right; right; left; exact H].
      - apply dict_set_keys in H as [->|H];
          [left; reflexivity | right; right; right; left; exact H].
      - apply dict_set_keys in H as [->|H];
          [left; reflexivity | right; right; right; right; left; exact H].
      - apply dict_set_items in Hin as [[-> ->]|Hin].
        + apply in_app_or in H as [H|[<-|[]]]; [|left; reflexivity].
          apply dict_get_default_items in H as (xs & Hxs & Hx).
          right. right. right. right. right.
          exists (get_or (entry_set entry) "Unknown Set"), xs. split; assumption.
        + right. right. right. right. right. exists set_name, songs0. split; assumption. }
    destruct Hor as [->|H]; [set_solver|]. apply Hbag in H. set_solver.
  - injection Hstep as <- <-. split; [set_solver | exact Hbag].
Qed.

Lemma extract_entries_superset entries :
  forall songs bag songs' bag',
    fold_left extract_entry entries (songs, bag) = (songs', bag') ->
    (forall name, bag_mentions bag name -> name ∈ songs) ->
    songs ⊆ songs' /\ (forall name, bag_mentions bag' name -> name ∈ songs').
Proof.
  induction entries as [|entry entries IH]; intros songs bag songs' bag' Hrun Hbag.
  - injection Hrun as <- <-. split; [set_solver | exact Hbag].
  - cbn [fold_left] in Hrun.
    destruct (extract_entry (songs, bag) entry) as [songs1 bag1] eqn:Hstep.
    destruct (extract_entry_superset _ _ _ _ _ Hstep Hbag) as [Hsub Hbag1].
    pose proof (IH _ _ _ _ Hrun Hbag1) as [Hsub' Hbag'].
    split; [etrans; [exact Hsub | exact Hsub'] | exact Hbag'].
Qed.

Lemma empty_bag_mentions_nothing name : ~ bag_mentions empty_song_features name.
Proof. intros [[]|[[]|[[]|[[]|(s & l & [] & _)]]]]. Qed.

Lemma extract_song_features_superset songs entries songs' bag :
  extract_song_features_from_setlist songs entries = (songs', bag) ->
  songs ⊆ songs' /\ (forall name, bag_mentions bag name -> name ∈ songs').
Proof.
  intros Hrun. unfold extract_song_features_from_setlist in Hrun.
  destruct (extract_entries_superset entries songs empty_song_features songs' bag Hrun)
    as [Hsub Hbag]; [|split; assumption].
  intros name Hname. destruct (empty_bag_mentions_nothing name Hname).
Qed.

(** ** Enrichment keeps every song of every bag in the universe *)

Section Enrichment.
Variable shows_api : nat -> Z -> http_outcome raw_show.
Variable setlists_api : nat -> string -> http_outcome setlist_entry.
Variable now_year : Z.
Variable self : extractor.

Lemma covered_grows shows w w' :
  all_songs w ⊆ all_songs w' -> covered shows w -> covered shows w'.
Proof.
  intros Hsub Hcov show bag name Hin Hbag Hname.
  apply Hsub. apply (Hcov show bag name); assumption.
Qed.

Lemma enrich_show_covered enriched_shows show w enriched_shows' w' :
  covered enriched_shows w ->
  enrich_show setlists_api self enriched_shows show w = (inl enriched_shows', w') ->
  covered enriched_shows' w'.
Proof.
  unfold enrich_show. intros Hcov Hrun.
  destruct (negb (is_phish show)); [injection Hrun as <- <-; exact Hcov|].
  unfold get_show_setlist in Hrun. unfold bind in Hrun.
  destruct (make_request (A := setlist_entry) _ _ _ _ w) as [[response|e] w1] eqn:Hreq;
    [|discriminate Hrun].
  apply make_request_all_songs in Hreq. unfold ret at 1 in Hrun.
  assert (Hcov1 : covered enriched_shows w1).
  { apply (covered_grows _ w); [rewrite Hreq; set_solver | exact Hcov]. }
  clear Hcov Hreq.
  destruct (response_data response) as [[|entry entries]|].
  - injection Hrun as <- <-. intros show0 bag name Hin Hbag Hname.
    apply in_app_or in Hin as [Hin|[<-|[]]]; [|discriminate Hbag].
    apply (Hcov1 show0 bag name); assumption.
  - unfold bind, extract_song_features, ret in Hrun.
    destruct (extract_song_features_from_setlist (all_songs w1) (entry :: entries))
      as [songs bag0] eqn:Hext.
    apply extract_song_features_superset in Hext as [Hsub Hbag0].
    injection Hrun as <- <-. intros show0 bag name Hin Hbag Hname.
    apply in_app_or in Hin as [Hin|[<-|[]]].
    + simpl. apply Hsub. apply (Hcov1 show0 bag name); assumption.
    + simpl in Hbag. injection Hbag as <-. simpl. apply Hbag0, Hname.
  - injection Hrun as <- <-. intros show0 bag name Hin Hbag Hname.
    apply in_app_or in Hin as [Hin|[<-|[]]]; [|discriminate Hbag].
    apply (Hcov1 show0 bag name); assumption.
Qed.

Lemma process_batch_covered shows total_shows enriched_shows batch_start w
    enriched_shows' w' :
  covered enriched_shows w ->
  process_batch setlists_api self shows total_shows enriched_shows batch_start w
  = (inl enriched_shows', w') ->
  covered enriched_shows' w'.
Proof.
  unfold process_batch, bind. intros Hcov Hrun.
  destruct (foldM _ _ enriched_shows w) as [[shows1|e] w1] eqn:Hloop; [|discriminate Hrun].
  apply (foldM_invariant covered) in Hloop;
    [|intros *; apply enrich_show_covered|exact Hcov].
  destruct (_ <? total_shows); injection Hrun as <- <-; exact Hloop.
Qed.
End Enrichment.

(** Enrichment returns when the server raises nothing but what
    [make_request] catches and the batch size is not zero. *)
Lemma extract_all_data_returns (shows_api : nat -> Z -> http_outcome raw_show)
    (setlists_api : nat -> string -> http_outcome setlist_entry)
    (now_year : Z) (self : extractor) (start_year end_year : option Z) (w : world) :
  (forall n year, well_behaved (shows_api n year) = true) ->
  (forall n show_date, well_behaved (setlists_api n show_date) = true) ->
  batch_size self <> 0 ->
  exists shows w',
    extract_all_data shows_api setlists_api now_year self start_year end_year w
    = (inl shows, w').
Proof.
  intros Hshows Hsetlists Hbatch. unfold extract_all_data, bind.
  destruct (get_all_shows_returns shows_api now_year self start_year end_year w Hshows)
    as (raw_shows & w1 & ->).
  destruct raw_shows as [|raw raw_shows]; [eexists _, _; reflexivity|].
  apply Z.eqb_neq in Hbatch. rewrite Hbatch.
  apply foldM_returns. intros enriched batch_start w2. unfold process_batch, bind.
  destruct (foldM_returns (enrich_show setlists_api self)) with
    (xs := slice batch_start
                 (Z.min (batch_start + batch_size self)
                        (Z.of_nat (length (raw :: raw_shows))))
                 (raw :: raw_shows))
    (acc := enriched) (w := w2) as (enriched1 & w3 & ->).
  - intros acc show w0. unfold enrich_show.
    destruct (negb (is_phish show)); [eexists _, _; reflexivity|].
    unfold get_show_setlist. unfold bind.
    destruct (make_request_returns self
                (fun n => setlists_api n (get_or (raw_showdate show) ""))
                ("setlists/showdate/" +:+ get_or (raw_showdate show) "" +:+ ".json")
                default_retry_count w0) as (response & w4 & ->);
      [intros n; apply Hsetlists|].
    unfold ret at 1.
    destruct (response_data response) as [[|entry entries]|];
      try (eexists _, _; reflexivity).
    unfold extract_song_features.
    destruct (extract_song_features_from_setlist (all_songs w4) (entry :: entries)).
    eexists _, _. reflexivity.
  - destruct (_ <? _); eexists _, _; reflexivity.
Qed.

(** C6: when [extract_all_data] returns, [self.all_songs] holds every song
    name that occurs in the feature bag of any show it returns: in
    [songs_played], among the keys of [song_counts], [set_positions] and
    [has_segues], and among the values of [set_info]. *)
Theorem all_songs_covers_every_bag (shows_api : nat -> Z -> http_outcome raw_show)
    (setlists_api : nat -> string -> http_outcome setlist_entry)
    (now_year : Z) (self : extractor) (start_year end_year : option Z)
    (w : world) (shows : list Show) (w' : world) :
  extract_all_data shows_api setlists_api now_year self start_year end_year w
  = (inl shows, w') ->
  forall show bag name,
    In show shows -> song_features show = Some bag -> bag_mentions bag name ->
    name ∈ all_songs w'.
Proof.
  unfold extract_all_data, bind. intros Hrun.
  destruct (get_all_shows shows_api now_year self start_year end_year w)
    as [[raw_shows|e] w1]; [|discriminate Hrun].
  destruct raw_shows as [|raw raw_shows].
  - injection Hrun as <- <-. intros show bag name [].
  - destruct (batch_size self =? 0); [discriminate Hrun|].
    refine (foldM_invariant
              (fun shows w => forall show bag name,
                   In show shows -> song_features show = Some bag ->
                   bag_mentions bag name -> name ∈ all_songs w)
              _ _ _ _ _ _ _ _ Hrun).
    + intros *. apply process_batch_covered.
    + intros show bag name [].
Qed.

(** The example catalog and setlists: "Divided Sky" is in the universe. *)
Lemma all_songs_covers_example :
  "Divided Sky" ∈
  all_songs (snd (extract_all_data example_shows_api example_setlists_api 2025
                    (PhishDataExtractor default_api_key) (Some 2020) (Some 2020)
                    initial_world)).
Proof.
  destruct (extract_all_data example_shows_api example_setlists_api 2025
              (PhishDataExtractor default_api_key) (Some 2020) (Some 2020) initial_world)
    as [result w'] eqn:Hrun.
  assert (Hresult : exists show bag rest,
             result = inl (show :: rest) /\ song_features show = Some bag /\
             In "Divided Sky" (songs_played bag)).
  { vm_compute in Hrun. injection Hrun as <- _.
    eexists _, _, _. split; [reflexivity|]. split; [reflexivity|].
    right. left. reflexivity. }
  destruct Hresult as (show & bag & rest & -> & Hbag & Hplayed).
  exact (all_songs_covers_every_bag example_shows_api example_setlists_api 2025
           (PhishDataExtractor default_api_key) (Some 2020) (Some 2020) initial_world
           (show :: rest) w' Hrun show bag "Divided Sky"
           (or_introl eq_refl) Hbag (or_introl Hplayed)).
Defined.

(** ** The wide export *)

Lemma dict_get_set_eq {V : Type} (k : string) (v : V) (d : pydict V) :
  dict_get k (dict_set k v d) = Some v.
Proof.
  induction d as [|[k0 v0] d IH]; simpl.
  - rewrite String.eqb_refl. reflexivity.
  - destruct (String.eqb k k0) eqn:E; simpl; rewrite E; [reflexivity | exact IH].
Qed.

Lemma dict_get_set_ne {V : Type} (k k' : string) (v : V) (d : pydict V) :
  k <> k' -> dict_get k (dict_set k' v d) = dict_get k d.
Proof.
  intros Hne. induction d as [|[k0 v0] d IH]; simpl.
  - apply String.eqb_neq in Hne. rewrite Hne. reflexivity.
  - destruct (String.eqb k' k0) eqn:E; simpl.
    + apply String.eqb_eq in E. subst k0.
      apply String.eqb_neq in Hne. rewrite Hne. reflexivity.
    + rewrite IH. reflexivity.
Qed.

Lemma append_not_fixed (s t : string) : t <> EmptyString -> s +:+ t <> s.
Proof.
  intros Ht H. apply (f_equal String.length) in H.
  rewrite length_append in H. destruct t; [congruence|]. simpl in H. lia.
Qed.

Lemma song_column_not_count_column song : song_column song <> count_column song.
Proof.
  unfold song_column, count_column. intros H.
  assert (H' : ("song_" +:+ clean_column_name song) +:+ "_count"
               = "song_" +:+ clean_column_name song).
  { rewrite append_assoc. symmetry. exact H. }
  revert H'. apply append_not_fixed. discriminate.
Qed.

(** One pass of the loop over the songs: what it does to a key. *)
Lemma add_song_columns_other played counts row other k :
  k <> song_column other -> k <> count_column other ->
  dict_get k (add_song_columns played counts row other) = dict_get k row.
Proof.
  intros H1 H2. unfold add_song_columns. fold (song_column other).
  fold (count_column other).
  destruct (dict_has other counts && (1 <? dict_get_default 0 other counts)).
  - rewrite !dict_get_set_ne by assumption. reflexivity.
  - rewrite dict_get_set_ne by assumption. reflexivity.
Qed.

Lemma add_song_columns_indicator played counts row song :
  dict_get (song_column song) (add_song_columns played counts row song)
  = Some (JInt (if str_in song played then 1 else 0)).
Proof.
  unfold add_song_columns. fold (song_column song). fold (count_column song).
  destruct (dict_has song counts && (1 <? dict_get_default 0 song counts)).
  - rewrite dict_get_set_ne by apply song_column_not_count_column.
    apply dict_get_set_eq.
  - apply dict_get_set_eq.
Qed.

Lemma add_song_columns_count played counts row song :
  dict_get (count_column song) (add_song_columns played counts row song)
  = if dict_has song counts && (1 <? dict_get_default 0 song counts)
    then Some (JInt (dict_get_default 0 song counts))
    else dict_get (count_column song) row.
Proof.
  unfold add_song_columns. fold (song_column song). fold (count_column song).
  destruct (dict_has song counts && (1 <? dict_get_default 0 song counts)).
  - apply dict_get_set_eq.
  - apply dict_get_set_ne. intros H. symmetry in H.
    revert H. apply song_column_not_count_column.
Qed.

Lemma add_song_columns_others played counts k others :
  (forall other, In other others -> k <> song_column other /\ k <> count_column other) ->
  forall row,
    dict_get k (fold_left (add_song_columns played counts) others row) = dict_get k row.
Proof.
  induction others as [|other others IH]; intros Hothers row; [reflexivity|].
  cbn [fold_left]. rewrite IH by (intros o Ho; apply Hothers; right; exact Ho).
  destruct (Hothers other (or_introl eq_refl)) as [H1 H2].
  apply add_song_columns_other; assumption.
Qed.

(** The columns written before the loop over the songs do not begin with
    [song_]. *)
Lemma add_set_counts_song_key x sets :
  forall row,
    dict_get ("song_" +:+ x) (fold_left add_set_count sets row)
    = dict_get ("song_" +:+ x) row.
Proof.
  induction sets as [|[set_name set_songs] sets IH]; intros row; [reflexivity|].
  cbn [fold_left]. rewrite IH. unfold add_set_count.
  apply dict_get_set_ne. apply String.eqb_neq. reflexivity.
Qed.

Lemma columns_apart_keys other song :
  columns_apart other song ->
  (song_column song <> song_column other /\ song_column song <> count_column other) /\
  (count_column song <> song_column other /\ count_column song <> count_column other).
Proof.
  intros Hapart. unfold columns_apart in Hapart.
  repeat split; intros H;
    solve [ apply (Hapart (song_column other)); simpl; auto
          | apply (Hapart (count_column other)); simpl; auto ].
Qed.

Lemma in_two_mikes x :
  x ∈ two_mikes <-> x = "Mike's Song" \/ x = "Mike s Song".
Proof. unfold two_mikes. rewrite elem_of_union, !elem_of_singleton. tauto. Qed.

Lemma in_three_songs x :
  x ∈ three_songs <->
  x = "Tweezer" \/ x = "Divided Sky" \/ x = "Run Like an Antelope".
Proof. unfold three_songs. rewrite !elem_of_union, !elem_of_singleton. tauto. Qed.

(** The two orders in which a loop can visit the two song names. *)
Lemma two_mikes_orders visiting :
  visits visiting two_mikes ->
  visiting = ["Mike's Song"; "Mike s Song"] \/ visiting = ["Mike s Song"; "Mike's Song"].
Proof.
  intros [Hnodup Hvisits].
  assert (Hin : forall x, In x visiting -> x = "Mike's Song" \/ x = "Mike s Song").
  { intros x Hx. apply in_two_mikes, Hvisits, Hx. }
  assert (Ha : In "Mike's Song" visiting) by (apply Hvisits, in_two_mikes; auto).
  assert (Hb : In "Mike s Song" visiting) by (apply Hvisits, in_two_mikes; auto).
  destruct visiting as [|x [|y [|z rest]]].
  - destruct Ha.
  - destruct Ha as [->|[]]. destruct Hb as [Hb|[]].
    apply String.eqb_eq in Hb. vm_compute in Hb. discriminate Hb.
  - inversion Hnodup as [|? ? Hxy _]; subst.
    destruct (Hin x (or_introl eq_refl)) as [->| ->],
             (Hin y (or_intror (or_introl eq_refl))) as [->| ->]; auto;
      exfalso; apply Hxy; left; reflexivity.
  - exfalso. inversion Hnodup as [|? ? Hx Hnodup']; subst.
    inversion Hnodup' as [|? ? Hy _]; subst.
    destruct (Hin x (or_introl eq_refl)) as [->| ->],
             (Hin y (or_intror (or_introl eq_refl))) as [->| ->],
             (Hin z (or_intror (or_intror (or_introl eq_refl)))) as [->| ->];
      solve [ apply Hx; simpl; auto | apply Hy; simpl; auto ].
Qed.

(** C7: the code does not do what the claim says when two songs of the
    universe get the same column name. The universe holds "Mike's Song" and
    "Mike s Song", which both clean to [mike_s_song]; each of two shows
    played one of them. In whatever order the loop of line 405 visits the
    universe, one of the two shows has 0 in the indicator column of the song
    it played: the song visited last, which it did not play, has written
    the same key. *)
Theorem wide_indicator_collision (visiting : list string) :
  visits visiting two_mikes ->
  song_column "Mike's Song" = song_column "Mike s Song" /\
  exists show song,
    In show [show_with_apostrophe; show_with_space] /\
    song ∈ two_mikes /\
    str_in song (songs_played_of show) = true /\
    dict_get (song_column song) (wide_row visiting show) = Some (JInt 0).
Proof.
  intros Hvisits. split; [reflexivity|].
  destruct (two_mikes_orders visiting Hvisits) as [-> | ->].
  - exists show_with_apostrophe, "Mike's Song". split; [left; reflexivity|].
    split; [apply in_two_mikes; auto|]. split; reflexivity.
  - exists show_with_space, "Mike s Song". split; [right; left; reflexivity|].
    split; [apply in_two_mikes; auto|]. split; reflexivity.
Qed.

Lemma two_mikes_visited : visits ["Mike's Song"; "Mike s Song"] two_mikes.
Proof.
  split.
  - repeat (apply List.NoDup_cons; [not_among_strings|]). apply List.NoDup_nil.
  - intros song. rewrite in_two_mikes. simpl. intuition congruence.
Qed.

(** The order in which the apostrophe comes first: the show that played
    "Mike's Song" has 0 in [song_mike_s_song]. *)
Lemma wide_indicator_collision_example :
  str_in "Mike's Song" (songs_played_of show_with_apostrophe) = true /\
  dict_get "song_mike_s_song" (wide_row ["Mike's Song"; "Mike s Song"] show_with_apostrophe)
  = Some (JInt 0) /\
  exists show song,
    In show [show_with_apostrophe; show_with_space] /\
    song ∈ two_mikes /\
    str_in song (songs_played_of show) = true /\
    dict_get (song_column song) (wide_row ["Mike's Song"; "Mike s Song"] show)
    = Some (JInt 0).
Proof.
  split; [reflexivity|]. split; [reflexivity|].
  exact (proj2 (wide_indicator_collision ["Mike's Song"; "Mike s Song"] two_mikes_visited)).
Defined.

(** The universe of the two example shows is what the extractor makes it. *)
Lemma two_mikes_extracted :
  fst (extract_song_features_from_setlist
         (fst (extract_song_features_from_setlist
                 ∅ [example_entry "Set 1" "Mike's Song" 1 ""]))
         [example_entry "Set 1" "Mike s Song" 1 ""])
  = two_mikes.
Proof.
  apply set_eq. intros x. rewrite in_two_mikes.
  unfold extract_song_features_from_setlist. simpl.
  rewrite !elem_of_union, !elem_of_singleton, elem_of_empty. tauto.
Qed.

(** X24: where no two songs share a column, the columns are right. For a
    show and a song of the universe whose two column names no other song of
    the universe generates, the indicator column is 1 if the song is in the
    show's [songs_played] and 0 otherwise, and the [_count] column has an
    entry exactly when the show's count for the song exceeds 1, and then
    holds that count. *)
Theorem wide_row_song_columns (visiting : list string) (universe : gset string)
    (show : Show) (song : string) :
  visits visiting universe ->
  song ∈ universe ->
  (forall other, other ∈ universe -> other <> song -> columns_apart other song) ->
  let row := wide_row visiting show in
  let count := dict_get_default 0 song (song_counts_of show) in
  dict_get (song_column song) row
  = Some (JInt (if str_in song (songs_played_of show) then 1 else 0)) /\
  dict_get (count_column song) row
  = if dict_has song (song_counts_of show) && (1 <? count)
    then Some (JInt count) else None.
Proof.
  intros [Hnodup Hvisits] Hsong Hapart. cbv zeta.
  apply Hvisits in Hsong. apply in_split in Hsong as (before & after & ->).
  assert (Hothers : forall other, In other before \/ In other after ->
                                  columns_apart other song).
  { intros other Hother. apply Hapart.
    - apply Hvisits. apply in_or_app. destruct Hother; [left|right; right]; assumption.
    - intros ->. apply NoDup_remove_2 in Hnodup. apply Hnodup.
      apply in_or_app. exact Hother. }
  unfold wide_row. fold (songs_played_of show). fold (song_counts_of show).
  rewrite !fold_left_app. cbn [fold_left].
  split.
  - rewrite add_song_columns_others.
    + apply add_song_columns_indicator.
    + intros other Hother. apply (columns_apart_keys other song).
      apply Hothers. right. exact Hother.
  - rewrite add_song_columns_others.
    + rewrite add_song_columns_count.
      destruct (dict_has song (song_counts_of show)
                && (1 <? dict_get_default 0 song (song_counts_of show)));
        [reflexivity|].
      rewrite add_song_columns_others.
      * unfold count_column. rewrite add_set_counts_song_key. reflexivity.
      * intros other Hother. apply (columns_apart_keys other song).
        apply Hothers. left. exact Hother.
    + intros other Hother. apply (columns_apart_keys other song).
      apply Hothers. right. exact Hother.
Qed.

Lemma three_songs_visited :
  visits ["Tweezer"; "Divided Sky"; "Run Like an Antelope"] three_songs.
Proof.
  split.
  - repeat (apply List.NoDup_cons; [not_among_strings|]).
    apply List.NoDup_nil.
  - intros song. rewrite in_three_songs. simpl. intuition congruence.
Qed.

Lemma three_songs_apart song other :
  song ∈ three_songs -> other ∈ three_songs -> other <> song ->
  columns_apart other song.
Proof.
  intros Hs Ho Hne k Hk Hk'. apply in_three_songs in Hs, Ho.
  destruct Hs as [->|[->| ->]], Ho as [->|[->| ->]]; try (apply Hne; reflexivity);
    vm_compute in Hk, Hk';
    destruct Hk as [<-|[<-|[]]], Hk' as [Hk'|[Hk'|[]]]; revert Hk'; strings_differ.
Qed.

(** The example of the specification: "Divided Sky" played twice gets 1 and
    a count of 2, a song of the universe that was not played gets 0 and no
    count. *)
Lemma wide_row_song_columns_example :
  let row := wide_row ["Tweezer"; "Divided Sky"; "Run Like an Antelope"] show_with_repeat in
  (dict_get "song_divided_sky" row = Some (JInt 1) /\
   dict_get "song_divided_sky_count" row = Some (JInt 2)) /\
  (dict_get "song_run_like_an_antelope" row = Some (JInt 0) /\
   dict_get "song_run_like_an_antelope_count" row = None).
Proof.
  cbv zeta. split.
  - refine (wide_row_song_columns
              ["Tweezer"; "Divided Sky"; "Run Like an Antelope"] three_songs
              show_with_repeat "Divided Sky" three_songs_visited _ _).
    + apply in_three_songs. auto.
    + intros other Hother Hne. apply three_songs_apart; [|exact Hother|exact Hne].
      apply in_three_songs. auto.
  - refine (wide_row_song_columns
              ["Tweezer"; "Divided Sky"; "Run Like an Antelope"] three_songs
              show_with_repeat "Run Like an Antelope" three_songs_visited _ _).
    + apply in_three_songs. auto.
    + intros other Hother Hne. apply three_songs_apart; [|exact Hother|exact Hne].
      apply in_three_songs. auto.
Defined.

(** ** The long export *)

(** C8: the code does not give every show a row. A show whose only setlist
    entry has an empty song name has the setlist string "Set 1: ", which is
    what the formatter makes of that entry; the string is not empty, so the
    branch that writes the blank row (lines 494-504) is not taken, and it
    parses to no row, so the show gets none, while the show without setlist
    in the same input gets its blank row. *)
Theorem ml_rows_miss_a_show :
  let data := [show_without_setlist; show_with_nameless_song] in
  setlist show_with_nameless_song = "Set 1: " /\
  setlist show_with_nameless_song
  = format_setlist_from_show [example_entry "Set 1" "" 1 ""] /\
  ml_rows_of_show show_with_nameless_song = [] /\
  ml_rows data
  = [ {| ml_base := base_row_of show_without_setlist; ml_song := blank_song_row |} ] /\
  In show_with_nameless_song data /\
  ~ represented data show_with_nameless_song.
Proof.
  cbv zeta. split; [reflexivity|]. split; [reflexivity|]. split; [reflexivity|].
  split; [reflexivity|]. split; [right; left; reflexivity|].
  intros (row & Hrow & Hbase). vm_compute in Hrow.
  destruct Hrow as [<-|[]]. vm_compute in Hbase. discriminate Hbase.
Qed.
(** ** Stripping, splitting and joining *)

Lemma all_chars_app p (s t : string) :
  all_chars p (s +:+ t) = all_chars p s && all_chars p t.
Proof.
  induction s as [|c s IH]; [reflexivity|]. rewrite append_cons. simpl.
  rewrite IH, andb_assoc. reflexivity.
Qed.

Lemma rstrip_all_stripped q s : all_chars q s = true -> PyStr.rstrip_by q s = EmptyString.
Proof.
  induction s as [|c s IH]; [reflexivity|]. simpl. intros H.
  apply andb_true_iff in H as [Hc H]. rewrite IH, Hc by exact H. reflexivity.
Qed.

Lemma rstrip_kept q c s :
  q c = false -> PyStr.rstrip_by q (String c s) = String c (PyStr.rstrip_by q s).
Proof. intros Hc. simpl. destruct (PyStr.rstrip_by q s); [rewrite Hc|]; reflexivity. Qed.

Lemma rstrip_app q (s t : string) :
  PyStr.rstrip_by q (s +:+ t) =
  match PyStr.rstrip_by q t with
  | EmptyString => PyStr.rstrip_by q s
  | r => s +:+ r
  end.
Proof.
  induction s as [|c s IH].
  - rewrite append_empty_l. destruct (PyStr.rstrip_by q t); reflexivity.
  - rewrite append_cons. cbn [PyStr.rstrip_by]. rewrite IH.
    destruct (PyStr.rstrip_by q t) as [|a r]; [reflexivity|].
    rewrite append_cons. destruct s; reflexivity.
Qed.

Lemma lstrip_app_stripped q (a s : string) :
  all_chars q a = true -> PyStr.lstrip_by q (a +:+ s) = PyStr.lstrip_by q s.
Proof.
  induction a as [|c a IH]; [reflexivity|]. rewrite append_cons. simpl. intros H.
  apply andb_true_iff in H as [Hc H]. rewrite Hc. apply IH, H.
Qed.

Lemma lstrip_kept q c s : q c = false -> PyStr.lstrip_by q (String c s) = String c s.
Proof. intros Hc. simpl. rewrite Hc. reflexivity. Qed.

(** Padding that [strip] removes does not change what it returns. *)
Lemma strip_pad q (a s b : string) :
  all_chars q a = true -> all_chars q b = true ->
  PyStr.strip_by q (a +:+ s +:+ b) = PyStr.strip_by q s.
Proof.
  intros Ha Hb. unfold PyStr.strip_by.
  rewrite rstrip_app, (rstrip_app q s b), (rstrip_all_stripped q b Hb).
  destruct (PyStr.rstrip_by q s) as [|c r].
  - rewrite (rstrip_all_stripped q a Ha). reflexivity.
  - apply lstrip_app_stripped, Ha.
Qed.

Lemma strip_pad_l q (a s : string) :
  all_chars q a = true -> PyStr.strip_by q (a +:+ s) = PyStr.strip_by q s.
Proof.
  intros Ha. rewrite <- (append_empty_r s) at 1. apply strip_pad; [exact Ha | reflexivity].
Qed.

Lemma strip_pad_r q (s b : string) :
  all_chars q b = true -> PyStr.strip_by q (s +:+ b) = PyStr.strip_by q s.
Proof.
  intros Hb. rewrite <- (append_empty_l (s +:+ b)). apply strip_pad; [reflexivity | exact Hb].
Qed.

Lemma strip_all_stripped q s : all_chars q s = true -> PyStr.strip_by q s = EmptyString.
Proof. intros H. unfold PyStr.strip_by. rewrite rstrip_all_stripped by exact H. reflexivity. Qed.

Lemma rstrip_decompose q s :
  exists b, all_chars q b = true /\ s = PyStr.rstrip_by q s +:+ b.
Proof.
  induction s as [|c s (b & Hb & Hs)].
  - exists EmptyString. split; reflexivity.
  - cbn [PyStr.rstrip_by]. destruct (PyStr.rstrip_by q s) as [|a r] eqn:E.
    + rewrite append_empty_l in Hs. subst b. destruct (q c) eqn:Hc.
      * exists (String c s). split; [simpl; rewrite Hc; exact Hb | reflexivity].
      * exists s. split; [exact Hb | reflexivity].
    + exists b. split; [exact Hb|]. rewrite append_cons. f_equal. exact Hs.
Qed.

Lemma lstrip_decompose q s :
  exists a, all_chars q a = true /\ s = a +:+ PyStr.lstrip_by q s.
Proof.
  induction s as [|c s (a & Ha & Hs)].
  - exists EmptyString. split; reflexivity.
  - simpl. destruct (q c) eqn:Hc.
    + exists (String c a). split; [simpl; rewrite Hc; exact Ha|].
      rewrite append_cons. f_equal. exact Hs.
    + exists EmptyString. split; reflexivity.
Qed.

(** A string is its stripped self between two paddings. *)
Lemma strip_decompose q s :
  exists a b,
    all_chars q a = true /\ all_chars q b = true /\ s = a +:+ PyStr.strip_by q s +:+ b.
Proof.
  destruct (rstrip_decompose q s) as (b & Hb & Hs).
  destruct (lstrip_decompose q (PyStr.rstrip_by q s)) as (a & Ha & Hr).
  exists a, b. split; [exact Ha|]. split; [exact Hb|].
  unfold PyStr.strip_by. rewrite <- append_assoc, <- Hr. exact Hs.
Qed.

Lemma strip_idempotent q s : PyStr.strip_by q (PyStr.strip_by q s) = PyStr.strip_by q s.
Proof.
  destruct (strip_decompose q s) as (a & b & Ha & Hb & Hs).
  rewrite Hs at 2. symmetry. apply strip_pad; assumption.
Qed.

Lemma strip_fixed_ends q s :
  PyStr.strip_by q s = s -> starts_with q s = false /\ ends_with q s = false.
Proof.
  intros H. rewrite <- H. unfold PyStr.strip_by. split.
  - apply lstrip_head.
  - apply lstrip_last, rstrip_last.
Qed.

Lemma strip_kept_head q c s :
  q c = false -> PyStr.strip_by q (String c s) = String c (PyStr.rstrip_by q s).
Proof.
  intros Hc. unfold PyStr.strip_by. rewrite rstrip_kept by exact Hc.
  apply lstrip_kept, Hc.
Qed.

(** *** Splitting *)

Lemma lacks_app c (s t : string) : lacks c (s +:+ t) = lacks c s && lacks c t.
Proof. apply all_chars_app. Qed.

Lemma lacks_cons c a s : lacks c (String a s) = negb (Ascii.eqb a c) && lacks c s.
Proof. reflexivity. Qed.

(** What [strip] removes is not a separator. *)
Lemma stripped_lacks q c s :
  q c = false -> all_chars q s = true -> lacks c s = true.
Proof.
  intros Hc. apply all_chars_weaken. intros x Hx. apply negb_true_iff.
  apply Ascii.eqb_neq. intros ->. rewrite Hc in Hx. discriminate Hx.
Qed.

Lemma split_nonempty c s : PyStr.split c s <> [].
Proof.
  destruct s as [|a s]; simpl; [discriminate|].
  destruct (Ascii.eqb a c); [discriminate|].
  destruct (PyStr.split c s); discriminate.
Qed.

Lemma split_lacks c s : lacks c s = true -> PyStr.split c s = [s].
Proof.
  induction s as [|a s IH]; [reflexivity|]. rewrite lacks_cons. intros H.
  apply andb_true_iff in H as [Ha H]. apply negb_true_iff in Ha.
  simpl. rewrite Ha, IH by exact H. reflexivity.
Qed.

Lemma split_app_sep c (s t : string) :
  lacks c s = true -> PyStr.split c (s +:+ String c t) = s :: PyStr.split c t.
Proof.
  induction s as [|a s IH].
  - intros _. rewrite append_empty_l. simpl. rewrite Ascii.eqb_refl. reflexivity.
  - rewrite lacks_cons. intros H. apply andb_true_iff in H as [Ha H].
    apply negb_true_iff in Ha. rewrite append_cons. simpl.
    rewrite Ha, IH by exact H. reflexivity.
Qed.

Lemma split1_app_sep c (s t : string) :
  lacks c s = true -> PyStr.split1 c (s +:+ String c t) = [s; t].
Proof.
  induction s as [|a s IH].
  - intros _. rewrite append_empty_l. simpl. rewrite Ascii.eqb_refl. reflexivity.
  - rewrite lacks_cons. intros H. apply andb_true_iff in H as [Ha H].
    apply negb_true_iff in Ha. rewrite append_cons. simpl.
    rewrite Ha, IH by exact H. reflexivity.
Qed.

Lemma app_last_cons tail piece rest :
  rest <> [] -> app_last tail (piece :: rest) = piece :: app_last tail rest.
Proof. destruct rest; [congruence | reflexivity]. Qed.

Lemma split_app_last c (s b : string) :
  lacks c b = true -> PyStr.split c (s +:+ b) = app_last b (PyStr.split c s).
Proof.
  intros Hb. induction s as [|a s IH].
  - rewrite append_empty_l. simpl. apply split_lacks, Hb.
  - rewrite append_cons. simpl. destruct (Ascii.eqb a c).
    + rewrite app_last_cons by apply split_nonempty. rewrite IH. reflexivity.
    + rewrite IH. destruct (PyStr.split c s) as [|h [|h' t]] eqn:E.
      * destruct (split_nonempty c s E).
      * reflexivity.
      * reflexivity.
Qed.

Lemma strip_app_last b pieces :
  all_chars PyStr.is_space b = true ->
  map PyStr.strip (app_last b pieces) = map PyStr.strip pieces.
Proof.
  intros Hb. induction pieces as [|p [|p' rest] IH]; [reflexivity| |].
  - simpl. unfold PyStr.strip. rewrite strip_pad_r by exact Hb. reflexivity.
  - rewrite app_last_cons by discriminate. cbn [map]. rewrite IH. reflexivity.
Qed.

(** Splitting at [c] what was joined with [c] between paddings gives the
    pieces back, up to stripping. *)
Lemma strip_split_join c (a b : string) pieces :
  PyStr.is_space c = false ->
  all_chars PyStr.is_space a = true -> all_chars PyStr.is_space b = true ->
  Forall (fun piece => lacks c piece = true) pieces ->
  pieces <> [] ->
  forall pre,
    all_chars PyStr.is_space pre = true ->
    map PyStr.strip (PyStr.split c (pre +:+ PyStr.join (a +:+ String c b) pieces))
    = map PyStr.strip pieces.
Proof.
  intros Hc Ha Hb Hpieces. unfold PyStr.join.
  induction Hpieces as [|p rest Hp Hrest IH]; [congruence|]. intros _ pre Hpre.
  destruct rest as [|p' rest].
  - cbn [String.concat]. rewrite split_lacks.
    + cbn [map]. unfold PyStr.strip. rewrite strip_pad_l by exact Hpre. reflexivity.
    + rewrite lacks_app, Hp, (stripped_lacks _ c pre Hc Hpre). reflexivity.
  - change (String.concat (a +:+ String c b) (p :: p' :: rest))
      with (p +:+ (a +:+ String c b) +:+ String.concat (a +:+ String c b) (p' :: rest)).
    replace (pre +:+ p +:+ (a +:+ String c b) +:+ String.concat (a +:+ String c b) (p' :: rest))
      with ((pre +:+ p +:+ a) +:+ String c (b +:+ String.concat (a +:+ String c b) (p' :: rest))).
    2:{ rewrite !append_assoc. rewrite append_cons. reflexivity. }
    rewrite split_app_sep.
    + cbn [map]. rewrite IH by (discriminate || exact Hb). f_equal.
      unfold PyStr.strip. apply strip_pad; assumption.
    + rewrite !lacks_app, Hp, (stripped_lacks _ c pre Hc Hpre),
        (stripped_lacks _ c a Hc Ha). reflexivity.
Qed.

(** ** The formatter *)

(** The test [segue and segue.strip()] of line 298 holds of the markers
    that show. *)
Lemma segue_marked_shows segue : segue_marked segue = marker_shows segue.
Proof.
  unfold segue_marked, marker_shows.
  destruct (all_chars PyStr.is_space segue) eqn:Hspace; cbn [negb].
  - unfold PyStr.strip. rewrite strip_all_stripped by exact Hspace. apply andb_false_r.
  - destruct (strip_decompose PyStr.is_space segue) as (a & b & Ha & Hb & Hsegue).
    destruct (PyStr.strip_by PyStr.is_space segue) as [|c stripped] eqn:Hstrip.
    + rewrite Hsegue, append_empty_l, all_chars_app, Ha, Hb in Hspace. discriminate Hspace.
    + unfold PyStr.strip. rewrite Hstrip. destruct segue; [discriminate Hspace|reflexivity].
Qed.

Lemma first_occurrences_in labels x :
  In x (first_occurrences labels) <-> In x labels.
Proof.
  induction labels as [|label rest IH]; [reflexivity|]. simpl.
  rewrite List.filter_In, IH. split.
  - intros [H|[H _]]; auto.
  - intros [H|H]; [left; exact H|].
    destruct (String.eqb x label) eqn:E.
    + left. symmetry. apply String.eqb_eq, E.
    + right. split; [exact H | reflexivity].
Qed.

Lemma first_occurrences_nodup labels : List.NoDup (first_occurrences labels).
Proof.
  induction labels as [|label rest IH]; simpl; [constructor|].
  constructor.
  - rewrite List.filter_In. intros [_ H]. rewrite String.eqb_refl in H. discriminate H.
  - apply List.NoDup_filter, IH.
Qed.

Lemma existsb_eqb_in x (xs : list string) :
  existsb (String.eqb x) xs = true <-> In x xs.
Proof.
  rewrite existsb_exists. split.
  - intros (y & Hy & E). apply String.eqb_eq in E. subst. exact Hy.
  - intros H. exists x. split; [exact H | apply String.eqb_refl].
Qed.

Lemma first_occurrences_snoc labels label :
  first_occurrences (labels ++ [label]) =
  if existsb (String.eqb label) labels
  then first_occurrences labels
  else first_occurrences labels ++ [label].
Proof.
  induction labels as [|a rest IH]; [reflexivity|].
  cbn [app first_occurrences existsb]. rewrite IH.
  destruct (String.eqb label a) eqn:Ea; cbn [orb].
  - apply String.eqb_eq in Ea. subst a.
    destruct (existsb (String.eqb label) rest); [reflexivity|].
    rewrite List.filter_app. cbn [List.filter]. rewrite String.eqb_refl. cbn [negb].
    rewrite app_nil_r. reflexivity.
  - destruct (existsb (String.eqb label) rest); [reflexivity|].
    rewrite List.filter_app. cbn [List.filter]. rewrite Ea. reflexivity.
Qed.

Lemma items_of_snoc label entries entry :
  items_of label (entries ++ [entry]) =
  items_of label entries ++
  (if String.eqb (entry_label entry) label then [entry_item entry] else []).
Proof.
  unfold items_of. rewrite List.filter_app, map_app. cbn [List.filter].
  destruct (String.eqb (entry_label entry) label); reflexivity.
Qed.

Lemma items_of_absent label entries :
  ~ In label (map entry_label entries) -> items_of label entries = [].
Proof.
  unfold items_of. induction entries as [|e entries IH]; [reflexivity|].
  cbn [map List.filter]. intros Hnot.
  destruct (String.eqb (entry_label e) label) eqn:E.
  - exfalso. apply Hnot. left. apply String.eqb_eq, E.
  - apply IH. intros H. apply Hnot. right. exact H.
Qed.

(** A dictionary laid out as one item per key of a list. *)
Lemma dict_get_tabulate {V : Type} (f : string -> V) keys k :
  dict_get k (map (fun key => (key, f key)) keys) =
  if existsb (String.eqb k) keys then Some (f k) else None.
Proof.
  induction keys as [|key keys IH]; [reflexivity|]. cbn [map dict_get existsb].
  destruct (String.eqb k key) eqn:E; cbn [orb]; [|exact IH].
  apply String.eqb_eq in E. subst. reflexivity.
Qed.

Lemma dict_set_tabulate_new {V : Type} (f : string -> V) keys k v :
  existsb (String.eqb k) keys = false ->
  dict_set k v (map (fun key => (key, f key)) keys)
  = map (fun key => (key, f key)) keys ++ [(k, v)].
Proof.
  induction keys as [|key keys IH]; [reflexivity|]. cbn [map dict_set existsb app].
  intros H. apply orb_false_iff in H as [E H]. rewrite E, IH by exact H. reflexivity.
Qed.

Lemma dict_set_tabulate_old {V : Type} (f : string -> V) keys k v :
  List.NoDup keys ->
  dict_set k v (map (fun key => (key, f key)) keys)
  = if existsb (String.eqb k) keys
    then map (fun key => (key, if String.eqb key k then v else f key)) keys
    else map (fun key => (key, f key)) keys ++ [(k, v)].
Proof.
  intros Hnodup. destruct (existsb (String.eqb k) keys) eqn:Hin;
    [|apply dict_set_tabulate_new, Hin].
  induction keys as [|key keys IH]; [discriminate Hin|].
  inversion Hnodup as [|? ? Hnotin Hnodup']; subst.
  cbn [map dict_set existsb] in *.
  destruct (String.eqb k key) eqn:E.
  - apply String.eqb_eq in E. subst key. rewrite String.eqb_refl. f_equal.
    apply map_ext_in. intros key Hkey.
    destruct (String.eqb key k) eqn:E'; [|reflexivity].
    apply String.eqb_eq in E'. subst. contradiction.
  - cbn [orb] in Hin. rewrite String.eqb_sym, E. f_equal. apply IH; assumption.
Qed.

Lemma dict_get_app {V : Type} (k : string) (d1 d2 : pydict V) :
  dict_get k (d1 ++ d2) =
  match dict_get k d1 with Some v => Some v | None => dict_get k d2 end.
Proof.
  induction d1 as [|[k0 v0] d1 IH]; [reflexivity|]. cbn [app dict_get].
  destruct (String.eqb k k0); [reflexivity | exact IH].
Qed.

Lemma dict_set_app_new {V : Type} (k : string) (v : V) (d1 d2 : pydict V) :
  dict_get k d1 = None -> dict_set k v (d1 ++ d2) = d1 ++ dict_set k v d2.
Proof.
  induction d1 as [|[k0 v0] d1 IH]; [reflexivity|]. cbn [app dict_get dict_set].
  destruct (String.eqb k k0); [discriminate|]. intros H. rewrite IH by exact H.
  reflexivity.
Qed.

(** One pass of the grouping loop keeps the sets in first-occurrence order. *)
Lemma group_entry_sets_in_order entries entry :
  group_entry (sets_in_order entries) entry = sets_in_order (entries ++ [entry]).
Proof.
  unfold group_entry, sets_in_order. rewrite segue_marked_shows.
  fold (entry_label entry). fold (rendered_song entry). fold (entry_item entry).
  set (labels := map entry_label entries).
  set (label := entry_label entry).
  rewrite map_app. cbn [map]. fold labels. fold label.
  rewrite first_occurrences_snoc.
  set (table := map (fun key => (key, items_of key entries)) (first_occurrences labels)).
  assert (Hsame : existsb (String.eqb label) (first_occurrences labels)
                  = existsb (String.eqb label) labels).
  { apply eq_true_iff_eq. rewrite !existsb_eqb_in. apply first_occurrences_in. }
  assert (Hget : dict_get label table
                 = if existsb (String.eqb label) labels
                   then Some (items_of label entries) else None).
  { unfold table. rewrite dict_get_tabulate, Hsame. reflexivity. }
  unfold dict_has, dict_get_default. rewrite Hget.
  destruct (existsb (String.eqb label) labels) eqn:Hin; cbn [negb].
  - rewrite Hget. unfold table.
    rewrite dict_set_tabulate_old by apply first_occurrences_nodup.
    rewrite Hsame. apply map_ext. intros key.
    rewrite items_of_snoc. fold label. rewrite (String.eqb_sym key label).
    destruct (String.eqb label key) eqn:E.
    + apply String.eqb_eq in E. subst key. reflexivity.
    + rewrite app_nil_r. reflexivity.
  - assert (Habsent : items_of label entries = []).
    { apply items_of_absent. fold labels. intros H.
      apply existsb_eqb_in in H. rewrite H in Hin. discriminate Hin. }
    assert (Hnew : dict_set label [] table = table ++ [(label, [])]).
    { unfold table. apply dict_set_tabulate_new, Hsame. }
    rewrite Hnew.
    rewrite dict_get_app, Hget. cbn [dict_get]. rewrite String.eqb_refl.
    rewrite dict_set_app_new by exact Hget.
    cbn [dict_set]. rewrite String.eqb_refl.
    rewrite map_app. cbn [map]. f_equal.
    + unfold table. apply map_ext_in. intros key Hkey.
      rewrite items_of_snoc. fold label.
      destruct (String.eqb label key) eqn:E; [|rewrite app_nil_r; reflexivity].
      apply String.eqb_eq in E. subst key.
      apply (proj1 (first_occurrences_in _ _)) in Hkey.
      apply (proj2 (existsb_eqb_in _ _)) in Hkey.
      rewrite Hkey in Hin. discriminate Hin.
    + rewrite items_of_snoc, Habsent. fold label. rewrite String.eqb_refl. reflexivity.
Qed.

Lemma fold_group_entry_sets_in_order entries :
  fold_left group_entry entries [] = sets_in_order entries.
Proof.
  induction entries as [|entry entries IH] using rev_ind; [reflexivity|].
  rewrite fold_left_app. cbn [fold_left]. rewrite IH.
  apply group_entry_sets_in_order.
Qed.

(** The formatted string: the sets in first-occurrence order, formatted one
    by one and joined. *)
Lemma format_setlist_sets_in_order setlist_data :
  format_setlist_from_show setlist_data
  = PyStr.join " | " (map format_set (sets_in_order setlist_data)).
Proof.
  unfold format_setlist_from_show. destruct setlist_data as [|entry entries];
    [reflexivity|].
  rewrite fold_group_entry_sets_in_order. reflexivity.
Qed.

(** ** The sort of line 307 *)

Lemma insert_by_key_in {A : Type} (x y : Z * A) xs :
  In y (insert_by_key x xs) <-> y = x \/ In y xs.
Proof.
  induction xs as [|z xs IH]; simpl; [intuition congruence|].
  destruct (fst x <=? fst z); simpl; [intuition congruence|].
  rewrite IH. intuition congruence.
Qed.

Lemma sort_by_key_in {A : Type} (y : Z * A) xs : In y (sort_by_key xs) <-> In y xs.
Proof.
  induction xs as [|x xs IH]; [reflexivity|]. simpl.
  rewrite insert_by_key_in, IH. intuition congruence.
Qed.

Lemma insert_by_key_ascending {A : Type} (x : Z * A) xs :
  ascending (map fst xs) -> ascending (map fst (insert_by_key x xs)).
Proof.
  induction xs as [|y xs IH]; cbn [insert_by_key map ascending].
  - intros _. split; [intros later []|exact I].
  - intros [Hhead Htail]. destruct (fst x <=? fst y) eqn:Hle.
    + apply Z.leb_le in Hle. cbn [map ascending]. split; [|split; assumption].
      intros later [<-|Hlater]; [exact Hle|]. specialize (Hhead later Hlater). lia.
    + apply Z.leb_gt in Hle. cbn [map ascending]. split; [|apply IH, Htail].
      intros later Hlater. apply in_map_iff in Hlater as (z & <- & Hz).
      apply insert_by_key_in in Hz as [->|Hz]; [lia|].
      apply Hhead, in_map, Hz.
Qed.

Lemma insert_by_key_at_position {A : Type} (x : Z * A) xs position :
  at_position position (insert_by_key x xs) = at_position position (x :: xs).
Proof.
  unfold at_position. induction xs as [|y xs IH]; [reflexivity|].
  cbn [insert_by_key]. destruct (fst x <=? fst y) eqn:Hle; [reflexivity|].
  apply Z.leb_gt in Hle. cbn [List.filter] in *. rewrite IH.
  destruct (fst x =? position) eqn:Ex; [|reflexivity].
  destruct (fst y =? position) eqn:Ey; [|reflexivity]. lia.
Qed.

Lemma sort_by_key_stable {A : Type} (xs : list (Z * A)) :
  stable_sort_of xs (sort_by_key xs).
Proof.
  split.
  - induction xs as [|x xs IH]; [exact I|]. apply insert_by_key_ascending, IH.
  - intros position. induction xs as [|x xs IH]; [reflexivity|].
    cbn [sort_by_key]. rewrite insert_by_key_at_position. unfold at_position in *.
    cbn [List.filter]. rewrite IH. reflexivity.
Qed.

Lemma at_position_in {A : Type} (x : Z * A) xs :
  In x (at_position (fst x) xs) <-> In x xs.
Proof.
  unfold at_position. rewrite List.filter_In. rewrite Z.eqb_refl. tauto.
Qed.

(** Two ascending lists with the same items, in the same order, at every
    position are the same list. *)
Lemma ascending_unique {A : Type} (xs ys : list (Z * A)) :
  ascending (map fst xs) -> ascending (map fst ys) ->
  (forall position, at_position position xs = at_position position ys) ->
  xs = ys.
Proof.
  revert ys. induction xs as [|x xs IH]; intros ys Hxs Hys Hsame.
  - destruct ys as [|y ys]; [reflexivity|]. specialize (Hsame (fst y)).
    unfold at_position in Hsame. cbn [List.filter] in Hsame.
    rewrite Z.eqb_refl in Hsame. discriminate Hsame.
  - destruct ys as [|y ys].
    { specialize (Hsame (fst x)). unfold at_position in Hsame.
      cbn [List.filter] in Hsame. rewrite Z.eqb_refl in Hsame. discriminate Hsame. }
    cbn [map ascending] in Hxs, Hys. destruct Hxs as [Hx Hxs], Hys as [Hy Hys].
    assert (Hkey : fst x = fst y).
    { destruct (Z.eq_dec (fst x) (fst y)) as [E|NE]; [exact E|].
      assert (Hyx : In y xs).
      { assert (H : In y (at_position (fst y) (x :: xs))).
        { rewrite Hsame. apply at_position_in. left. reflexivity. }
        apply at_position_in in H as [->|H]; [contradiction|exact H]. }
      assert (Hxy : In x ys).
      { assert (H : In x (at_position (fst x) (y :: ys))).
        { rewrite <- Hsame. apply at_position_in. left. reflexivity. }
        apply at_position_in in H as [->|H]; [contradiction|exact H]. }
      specialize (Hx (fst y) (in_map fst _ _ Hyx)).
      specialize (Hy (fst x) (in_map fst _ _ Hxy)). lia. }
    assert (Hhead : x = y).
    { specialize (Hsame (fst x)). unfold at_position in Hsame.
      cbn [List.filter] in Hsame. rewrite <- Hkey, Z.eqb_refl in Hsame.
      congruence. }
    subst y. f_equal. apply IH; [exact Hxs|exact Hys|].
    intros position. specialize (Hsame position). unfold at_position in *.
    cbn [List.filter] in Hsame. destruct (fst x =? position); congruence.
Qed.

(** An ascending list with the songs of [songs] at every position, in their
    order, is what the sort makes of [songs]. *)
Lemma sort_by_key_unique {A : Type} (songs sorted : list (Z * A)) :
  stable_sort_of songs sorted -> sorted = sort_by_key songs.
Proof.
  intros [Hascending Hsame]. destruct (sort_by_key_stable songs) as [Hascending' Hsame'].
  apply ascending_unique; [exact Hascending|exact Hascending'|].
  intros position. rewrite Hsame, Hsame'. reflexivity.
Qed.

(** ** The string, set by set *)

(** The sets the formatter lists, with the names it writes. *)
Lemma sets_in_order_listed entries :
  listed_sets entries
    (map (fun item => (fst item, map snd (sort_by_key (snd item)))) (sets_in_order entries)).
Proof.
  unfold listed_sets, sets_in_order. rewrite !map_map. cbn [fst snd]. split.
  - apply map_id.
  - apply List.Forall_forall. intros set Hset.
    apply in_map_iff in Hset as (label & <- & _). cbn [fst snd].
    exists (sort_by_key (items_of label entries)). split; [apply sort_by_key_stable|reflexivity].
Qed.

(** The description leaves no choice. *)
Lemma listed_sets_unique entries sets sets' :
  listed_sets entries sets -> listed_sets entries sets' -> sets = sets'.
Proof.
  intros [Hlabels Hsets] [Hlabels' Hsets']. rewrite <- Hlabels' in Hlabels. clear Hlabels'.
  revert sets' Hlabels Hsets'.
  induction Hsets as [|[label names] sets (songs & Hsongs & Hnames) Hrest IH];
    intros sets' Hlabels Hsets'.
  - destruct sets'; [reflexivity|discriminate Hlabels].
  - destruct Hsets' as [|[label' names'] sets' (songs' & Hsongs' & Hnames') Hrest'];
      [discriminate Hlabels|].
    cbn [map fst snd] in *. injection Hlabels as <- Hlabels.
    rewrite (IH sets' Hlabels Hrest'). f_equal. f_equal.
    rewrite Hnames, Hnames'. f_equal.
    rewrite (sort_by_key_unique _ _ Hsongs), (sort_by_key_unique _ _ Hsongs'). reflexivity.
Qed.

Lemma format_setlist_listed entries :
  format_setlist_from_show entries
  = setlist_string
      (map (fun item => (fst item, map snd (sort_by_key (snd item)))) (sets_in_order entries)).
Proof.
  rewrite format_setlist_sets_in_order. unfold setlist_string. rewrite map_map.
  f_equal. apply map_ext. intros [label songs]. reflexivity.
Qed.

(** C10: the formatted string lists one set for each set label, in the
    order in which the labels first occur among the entries; under a label
    it lists the songs of the entries with that label, in ascending
    position, songs of equal position in the order of the entries. There is
    such a list of sets, the string is the string of it, and the string of
    every such list: the entries alone decide the string. *)
Theorem format_setlist_first_occurrence_order (setlist_data : list setlist_entry) :
  (exists sets,
      listed_sets setlist_data sets /\
      format_setlist_from_show setlist_data = setlist_string sets) /\
  (forall sets,
      listed_sets setlist_data sets ->
      format_setlist_from_show setlist_data = setlist_string sets).
Proof.
  pose proof (sets_in_order_listed setlist_data) as Hlisted.
  pose proof (format_setlist_listed setlist_data) as Hstring.
  split.
  - eexists. split; [exact Hlisted|exact Hstring].
  - intros sets Hsets. rewrite (listed_sets_unique _ _ _ Hsets Hlisted). exact Hstring.
Qed.

(** A setlist whose encore comes first among the entries, and whose first
    set has its songs out of order: the encore comes first in the string,
    and the songs of the first set are in the order of their positions. *)
Lemma format_setlist_first_occurrence_order_example :
  format_setlist_from_show
    [ example_entry "Encore" "Tweezer" 1 ""; example_entry "Set 1" "Divided Sky" 2 "";
      example_entry "Set 1" "Tweezer" 1 ">" ]
  = "Encore: Tweezer | Set 1: Tweezer > , Divided Sky".
Proof.
  apply (proj2 (format_setlist_first_occurrence_order
                  [ example_entry "Encore" "Tweezer" 1 "";
                    example_entry "Set 1" "Divided Sky" 2 "";
                    example_entry "Set 1" "Tweezer" 1 ">" ])
               [ ("Encore", ["Tweezer"]); ("Set 1", ["Tweezer > "; "Divided Sky"]) ]).
  split; [reflexivity|].
  apply List.Forall_cons; [|apply List.Forall_cons; [|apply List.Forall_nil]].
  - exists [(1, "Tweezer")]. split; [|reflexivity]. split.
    + cbn [map fst ascending]. split; [intros later []|exact I].
    + intros position. reflexivity.
  - exists [(1, "Tweezer > "); (2, "Divided Sky")]. split; [|reflexivity]. split.
    + cbn [map fst ascending]. split; [|split; [intros later []|exact I]].
      intros later [<-|[]]. lia.
    + intros position.
      change (items_of _ _) with [(2, "Divided Sky"); (1, "Tweezer > ")].
      unfold at_position. cbn [List.filter fst].
      destruct (2 =? position) eqn:E2, (1 =? position) eqn:E1; try reflexivity. lia.
Defined.
(** ** Looking for and removing a character *)

Lemma prefix_empty s : String.prefix EmptyString s = true.
Proof. destruct s; reflexivity. Qed.

Lemma prefix_cons a s b t :
  String.prefix (String a s) (String b t)
  = if ascii_dec a b then String.prefix s t else false.
Proof. reflexivity. Qed.

Lemma prefix_char c a s :
  String.prefix (String c EmptyString) (String a s) = Ascii.eqb a c.
Proof.
  rewrite prefix_cons. destruct (ascii_dec c a) as [->|Hne].
  - rewrite Ascii.eqb_refl. apply prefix_empty.
  - symmetry. apply Ascii.eqb_neq. congruence.
Qed.

Lemma contains_char c s :
  PyStr.contains (String c EmptyString) s = negb (lacks c s).
Proof.
  induction s as [|a s IH]; [reflexivity|].
  cbn [PyStr.contains]. rewrite prefix_char, IH, lacks_cons.
  destruct (Ascii.eqb a c); reflexivity.
Qed.

Lemma contains_arrow s : lacks ">" s = true -> PyStr.contains "->" s = false.
Proof.
  induction s as [|a s IH]; [reflexivity|]. rewrite lacks_cons. intros H.
  apply andb_true_iff in H as [_ H]. cbn [PyStr.contains]. rewrite IH by exact H.
  rewrite orb_false_r, prefix_cons. destruct (ascii_dec "-" a); [|reflexivity].
  destruct s as [|b s]; [reflexivity|].
  rewrite lacks_cons in H. apply andb_true_iff in H as [Hb _].
  rewrite prefix_char. apply negb_true_iff, Hb.
Qed.

Lemma replace_char_cons c a s :
  PyStr.replace (String c EmptyString) "" (String a s) =
  if Ascii.eqb a c
  then PyStr.replace (String c EmptyString) "" s
  else String a (PyStr.replace (String c EmptyString) "" s).
Proof.
  unfold PyStr.replace. cbn [PyStr.replace_from]. rewrite prefix_char.
  destruct (Ascii.eqb a c); reflexivity.
Qed.

Lemma replace_char_lacks c s :
  lacks c s = true -> PyStr.replace (String c EmptyString) "" s = s.
Proof.
  induction s as [|a s IH]; [reflexivity|]. rewrite lacks_cons, replace_char_cons.
  intros H. apply andb_true_iff in H as [Ha H]. apply negb_true_iff in Ha.
  rewrite Ha, IH by exact H. reflexivity.
Qed.

Lemma replace_char_app c (s t : string) :
  PyStr.replace (String c EmptyString) "" (s +:+ t) =
  PyStr.replace (String c EmptyString) "" s +:+ PyStr.replace (String c EmptyString) "" t.
Proof.
  induction s as [|a s IH]; [reflexivity|].
  rewrite append_cons, !replace_char_cons, IH.
  destruct (Ascii.eqb a c); reflexivity.
Qed.

(** Stripping neither brings in nor takes away a character that is not
    white space. *)
Lemma strip_lacks c s :
  PyStr.is_space c = false -> lacks c (PyStr.strip s) = lacks c s.
Proof.
  intros Hc. destruct (strip_decompose PyStr.is_space s) as (a & b & Ha & Hb & Hs).
  rewrite Hs at 2. rewrite !lacks_app.
  rewrite (stripped_lacks _ c a Hc Ha), (stripped_lacks _ c b Hc Hb), andb_true_r.
  reflexivity.
Qed.

(** Removing [c] and stripping: it does not matter whether the string was
    stripped before. *)
Lemma strip_replace_strip c s :
  PyStr.is_space c = false ->
  PyStr.strip (PyStr.replace (String c EmptyString) "" (PyStr.strip s))
  = PyStr.strip (PyStr.replace (String c EmptyString) "" s).
Proof.
  intros Hc. destruct (strip_decompose PyStr.is_space s) as (a & b & Ha & Hb & Hs).
  rewrite Hs at 2. rewrite !replace_char_app.
  rewrite (replace_char_lacks c a) by (apply (stripped_lacks _ c a Hc Ha)).
  rewrite (replace_char_lacks c b) by (apply (stripped_lacks _ c b Hc Hb)).
  symmetry. apply strip_pad; assumption.
Qed.

(** ** What the parser makes of a rendered song *)

Lemma parsed_name_plain song :
  lacks ">" song = true -> parsed_name song = PyStr.strip song.
Proof.
  intros Hgt. unfold parsed_name. cbv zeta.
  assert (H : lacks ">" (PyStr.strip song) = true)
    by (rewrite strip_lacks by reflexivity; exact Hgt).
  rewrite contains_char, H, contains_arrow by exact H. reflexivity.
Qed.

(** *** What splitting and stripping keep *)

Lemma split_all_chars p c s piece :
  all_chars p s = true -> In piece (PyStr.split c s) -> all_chars p piece = true.
Proof.
  revert piece. induction s as [|a s IH]; intros piece Hs Hin.
  - destruct Hin as [<-|[]]. reflexivity.
  - cbn [all_chars] in Hs. apply andb_true_iff in Hs as [Ha Hs].
    cbn [PyStr.split] in Hin. destruct (Ascii.eqb a c).
    + destruct Hin as [<-|Hin]; [reflexivity|apply IH; assumption].
    + destruct (PyStr.split c s) as [|piece0 rest].
      * destruct Hin as [<-|[]]. cbn [all_chars]. rewrite Ha. reflexivity.
      * destruct Hin as [<-|Hin].
        -- cbn [all_chars]. rewrite Ha. apply IH; [exact Hs|left; reflexivity].
        -- apply IH; [exact Hs|right; exact Hin].
Qed.

Lemma split_pieces_lack c s piece :
  In piece (PyStr.split c s) -> lacks c piece = true.
Proof.
  revert piece. induction s as [|a s IH]; intros piece Hin.
  - destruct Hin as [<-|[]]. reflexivity.
  - cbn [PyStr.split] in Hin. destruct (Ascii.eqb a c) eqn:Ea.
    + destruct Hin as [<-|Hin]; [reflexivity|apply IH; assumption].
    + destruct (PyStr.split c s) as [|piece0 rest].
      * destruct Hin as [<-|[]]. rewrite lacks_cons, Ea. reflexivity.
      * destruct Hin as [<-|Hin].
        -- rewrite lacks_cons, Ea. apply IH. left. reflexivity.
        -- apply IH. right. exact Hin.
Qed.

Lemma split1_all_chars p c s piece :
  all_chars p s = true -> In piece (PyStr.split1 c s) -> all_chars p piece = true.
Proof.
  revert piece. induction s as [|a s IH]; intros piece Hs Hin.
  - destruct Hin as [<-|[]]. reflexivity.
  - cbn [all_chars] in Hs. apply andb_true_iff in Hs as [Ha Hs].
    cbn [PyStr.split1] in Hin. destruct (Ascii.eqb a c).
    + destruct Hin as [<-|[<-|[]]]; [reflexivity|exact Hs].
    + destruct (PyStr.split1 c s) as [|piece0 rest].
      * destruct Hin as [<-|[]]. cbn [all_chars]. rewrite Ha. reflexivity.
      * destruct Hin as [<-|Hin].
        -- cbn [all_chars]. rewrite Ha. apply IH; [exact Hs|left; reflexivity].
        -- apply IH; [exact Hs|right; exact Hin].
Qed.

Lemma split1_head_lacks c s piece rest :
  PyStr.split1 c s = piece :: rest -> lacks c piece = true.
Proof.
  revert piece rest. induction s as [|a s IH]; intros piece rest Hsplit.
  - injection Hsplit as <- _. reflexivity.
  - cbn [PyStr.split1] in Hsplit. destruct (Ascii.eqb a c) eqn:Ea.
    + injection Hsplit as <- _. reflexivity.
    + destruct (PyStr.split1 c s) as [|piece0 rest0].
      * injection Hsplit as <- _. rewrite lacks_cons, Ea. reflexivity.
      * injection Hsplit as <- _. rewrite lacks_cons, Ea. apply (IH piece0 rest0).
        reflexivity.
Qed.

Lemma strip_all_chars p s :
  all_chars p s = true -> all_chars p (PyStr.strip s) = true.
Proof.
  intros Hs. destruct (strip_decompose PyStr.is_space s) as (a & b & _ & _ & Heq).
  rewrite Heq in Hs. rewrite !all_chars_app in Hs.
  apply andb_true_iff in Hs as [_ Hs]. apply andb_true_iff in Hs as [Hs _]. exact Hs.
Qed.

Lemma replace_char_all_chars p c s :
  all_chars p s = true -> all_chars p (PyStr.replace (String c EmptyString) "" s) = true.
Proof.
  induction s as [|a s IH]; [reflexivity|]. cbn [all_chars]. intros Hs.
  apply andb_true_iff in Hs as [Ha Hs]. rewrite replace_char_cons.
  destruct (Ascii.eqb a c); [apply IH, Hs|]. cbn [all_chars]. rewrite Ha. apply IH, Hs.
Qed.

Lemma replace_char_removes c s :
  lacks c (PyStr.replace (String c EmptyString) "" s) = true.
Proof.
  induction s as [|a s IH]; [reflexivity|]. rewrite replace_char_cons.
  destruct (Ascii.eqb a c) eqn:Ea; [exact IH|]. rewrite lacks_cons, Ea. exact IH.
Qed.

Lemma truthy_not_empty s : PyStr.truthy s = true -> s <> "".
Proof. intros H ->. discriminate H. Qed.

(** Splitting at a separator what has the separator in it: the pieces of
    the two sides. *)
Lemma split_app_sep_pieces c (s t : string) :
  PyStr.split c (s +:+ String c t) = PyStr.split c s ++ PyStr.split c t.
Proof.
  induction s as [|a s IH].
  - rewrite append_empty_l. cbn [PyStr.split]. rewrite Ascii.eqb_refl. reflexivity.
  - rewrite append_cons. cbn [PyStr.split]. rewrite IH.
    destruct (Ascii.eqb a c); [reflexivity|].
    destruct (PyStr.split c s) as [|piece rest] eqn:Hsplit;
      [destruct (split_nonempty c s Hsplit)|reflexivity].
Qed.

(** A string without the separator in front of another: it goes to the
    first piece. *)
Lemma split_app_head c (s t : string) :
  lacks c s = true ->
  PyStr.split c (s +:+ t)
  = match PyStr.split c t with
    | piece :: rest => (s +:+ piece) :: rest
    | [] => [s]
    end.
Proof.
  induction s as [|a s IH]; intros Hs.
  - rewrite append_empty_l. destruct (PyStr.split c t) as [|piece rest] eqn:Hsplit;
      [destruct (split_nonempty c t Hsplit)|reflexivity].
  - rewrite lacks_cons in Hs. apply andb_true_iff in Hs as [Ha Hs].
    apply negb_true_iff in Ha. rewrite append_cons. cbn [PyStr.split].
    rewrite Ha, IH by exact Hs.
    destruct (PyStr.split c t) as [|piece rest] eqn:Hsplit;
      [destruct (split_nonempty c t Hsplit)|reflexivity].
Qed.

(** White space in front of a string shows in no stripped piece. *)
Lemma strip_split_pad c (pre s : string) :
  PyStr.is_space c = false -> all_chars PyStr.is_space pre = true ->
  map PyStr.strip (PyStr.split c (pre +:+ s)) = map PyStr.strip (PyStr.split c s).
Proof.
  intros Hc Hpre. rewrite split_app_head by (apply (stripped_lacks _ c pre Hc Hpre)).
  destruct (PyStr.split c s) as [|piece rest] eqn:Hsplit;
    [destruct (split_nonempty c s Hsplit)|].
  cbn [map]. f_equal. unfold PyStr.strip. apply strip_pad_l, Hpre.
Qed.

(** What was joined with ", ", split at the commas: the pieces of every
    member, up to stripping. *)
Lemma strip_split_join_pieces names :
  names <> [] ->
  forall pre,
    all_chars PyStr.is_space pre = true ->
    map PyStr.strip (PyStr.split "," (pre +:+ PyStr.join ", " names))
    = flat_map (fun name => map PyStr.strip (PyStr.split "," name)) names.
Proof.
  unfold PyStr.join. induction names as [|name [|name' names] IH]; [congruence| |];
    intros _ pre Hpre.
  - cbn [String.concat flat_map]. rewrite app_nil_r.
    apply strip_split_pad; [reflexivity|exact Hpre].
  - change (String.concat ", " (name :: name' :: names))
      with (name +:+ String "," (" " +:+ String.concat ", " (name' :: names))).
    rewrite <- append_assoc, split_app_sep_pieces, map_app.
    rewrite strip_split_pad by (reflexivity || exact Hpre).
    rewrite (IH ltac:(discriminate) " " eq_refl). reflexivity.
Qed.

(** *** The name the parser makes of a piece *)

Lemma truthy_append (s t : string) :
  PyStr.truthy (s +:+ t) = PyStr.truthy s || PyStr.truthy t.
Proof. destruct s; [rewrite append_empty_l; reflexivity|rewrite append_cons; reflexivity]. Qed.

Lemma parsed_name_chars p piece :
  all_chars p piece = true -> all_chars p (parsed_name piece) = true.
Proof.
  intros Hpiece. unfold parsed_name. cbv zeta.
  pose proof (strip_all_chars p piece Hpiece) as Hstripped.
  rewrite contains_char. destruct (lacks ">" (PyStr.strip piece)) eqn:Hgt; cbn [negb].
  - rewrite contains_arrow by exact Hgt. exact Hstripped.
  - apply strip_all_chars, replace_char_all_chars, Hstripped.
Qed.

Lemma parsed_name_stripped piece :
  PyStr.strip (parsed_name piece) = parsed_name piece.
Proof.
  unfold parsed_name. cbv zeta. rewrite contains_char.
  destruct (lacks ">" (PyStr.strip piece)) eqn:Hgt; cbn [negb].
  - rewrite contains_arrow by exact Hgt. apply strip_idempotent.
  - apply strip_idempotent.
Qed.

Lemma parsed_name_lacks_gt piece : lacks ">" (parsed_name piece) = true.
Proof.
  unfold parsed_name. cbv zeta. rewrite contains_char.
  destruct (lacks ">" (PyStr.strip piece)) eqn:Hgt; cbn [negb].
  - rewrite contains_arrow by exact Hgt. exact Hgt.
  - apply strip_all_chars, replace_char_removes.
Qed.

(** Stripping what starts with a stripped string that is not empty. *)
Lemma strip_core_app core tail :
  PyStr.strip core = core -> core <> "" ->
  PyStr.strip (core +:+ tail) = core +:+ PyStr.rstrip_by PyStr.is_space tail.
Proof.
  intros Hcore Hnonempty. apply strip_fixed_ends in Hcore as [Hhead Hlast].
  unfold PyStr.strip, PyStr.strip_by. rewrite rstrip_app.
  assert (Hsame : match PyStr.rstrip_by PyStr.is_space tail with
                  | EmptyString => PyStr.rstrip_by PyStr.is_space core
                  | r => core +:+ r
                  end = core +:+ PyStr.rstrip_by PyStr.is_space tail).
  { destruct (PyStr.rstrip_by PyStr.is_space tail); [|reflexivity].
    rewrite append_empty_r. apply rstrip_fixed, Hlast. }
  rewrite Hsame. destruct core as [|c core]; [congruence|].
  rewrite append_cons. apply lstrip_kept. exact Hhead.
Qed.

(** A song name with something after it: the parser reads the stripped
    name, and after it what it leaves of the rest. *)
Lemma parsed_name_song_tail (p : ascii -> bool) song tail :
  lacks ">" song = true ->
  (forall c, PyStr.is_space c = true -> p c = true) ->
  all_chars p tail = true ->
  exists rest,
    all_chars p rest = true /\
    parsed_name (song +:+ tail) = PyStr.strip song +:+ rest.
Proof.
  intros Hgt Hspace Htail.
  destruct (strip_decompose PyStr.is_space song) as (a & b & Ha & Hb & Hsong).
  pose proof (all_chars_weaken _ p a Hspace Ha) as Hpa.
  pose proof (all_chars_weaken _ p b Hspace Hb) as Hpb.
  fold (PyStr.strip song) in Hsong.
  destruct (PyStr.strip song) as [|c core] eqn:Hcore.
  - exists (parsed_name (song +:+ tail)). split; [|reflexivity].
    apply parsed_name_chars. rewrite Hsong, !all_chars_app, Hpa, Hpb, Htail. reflexivity.
  - assert (Hstripped : PyStr.strip (String c core) = String c core)
      by (rewrite <- Hcore; apply strip_idempotent).
    assert (Hcore_gt : lacks ">" (String c core) = true)
      by (rewrite <- Hcore, strip_lacks by reflexivity; exact Hgt).
    assert (Hwhole : PyStr.strip (song +:+ tail)
                     = String c core +:+ PyStr.rstrip_by PyStr.is_space (b +:+ tail)).
    { rewrite Hsong at 1. rewrite !append_assoc. unfold PyStr.strip at 1.
      rewrite strip_pad_l by exact Ha. apply strip_core_app; [exact Hstripped|discriminate]. }
    assert (Hrest : all_chars p (PyStr.rstrip_by PyStr.is_space (b +:+ tail)) = true).
    { apply rstrip_all. rewrite all_chars_app, Hpb, Htail. reflexivity. }
    unfold parsed_name. cbv zeta. rewrite Hwhole, contains_char.
    destruct (lacks ">" (String c core +:+ PyStr.rstrip_by PyStr.is_space (b +:+ tail)))
      eqn:Hlacks; cbn [negb].
    + rewrite contains_arrow by exact Hlacks. eexists. split; [exact Hrest|reflexivity].
    + rewrite replace_char_app, (replace_char_lacks ">" _ Hcore_gt).
      rewrite strip_core_app by (exact Hstripped || discriminate).
      eexists. split; [|reflexivity].
      apply rstrip_all, replace_char_all_chars, Hrest.
Qed.

(** [parsed_name] looks at the stripped piece only. *)
Lemma parsed_name_strip raw : parsed_name (PyStr.strip raw) = parsed_name raw.
Proof.
  unfold parsed_name. cbv zeta. unfold PyStr.strip. rewrite !strip_idempotent. reflexivity.
Qed.

(** The pairs of the rows one piece gives. *)
Lemma parse_raw_song_pairs label position raw :
  map (fun row => (set_name row, song_name row)) (parse_raw_song label position raw)
  = if PyStr.truthy (parsed_name raw) then [(label, parsed_name raw)] else [].
Proof.
  unfold parse_raw_song, parsed_name. cbv zeta.
  destruct (PyStr.contains ">" (PyStr.strip raw)).
  - destruct (PyStr.truthy _); reflexivity.
  - destruct (PyStr.contains "->" (PyStr.strip raw)); destruct (PyStr.truthy _); reflexivity.
Qed.

Lemma parse_raw_songs_pairs label raw_songs :
  forall start,
    map (fun row => (set_name row, song_name row))
        (flat_map (fun '(position, raw_song) => parse_raw_song label position raw_song)
                  (enumerate start raw_songs))
    = flat_map (fun name => if PyStr.truthy name then [(label, name)] else [])
               (map parsed_name raw_songs).
Proof.
  induction raw_songs as [|raw rest IH]; intros start; [reflexivity|].
  cbn [enumerate flat_map map]. rewrite map_app, parse_raw_song_pairs, IH. reflexivity.
Qed.

(** ** One set of the formatted string, parsed *)

Lemma flat_map_map {A B C : Type} (f : B -> list C) (g : A -> B) (xs : list A) :
  flat_map f (map g xs) = flat_map (fun x => f (g x)) xs.
Proof. induction xs as [|x xs IH]; [reflexivity|]. simpl. rewrite IH. reflexivity. Qed.

Lemma map_flat_map {A B C : Type} (f : A -> list B) (g : B -> C) (xs : list A) :
  map g (flat_map f xs) = flat_map (fun x => map g (f x)) xs.
Proof.
  induction xs as [|x xs IH]; [reflexivity|]. simpl. rewrite map_app, IH. reflexivity.
Qed.

(** A function that strips its argument first sees stripped lists only. *)
Lemma flat_map_strip_ext {B : Type} (f : string -> list B) (xs ys : list string) :
  (forall x, f (PyStr.strip x) = f x) ->
  map PyStr.strip xs = map PyStr.strip ys ->
  flat_map f xs = flat_map f ys.
Proof.
  intros Hf Hmap.
  rewrite <- (flat_map_ext _ _ Hf xs), <- (flat_map_ext _ _ Hf ys).
  rewrite <- !(flat_map_map f PyStr.strip), Hmap. reflexivity.
Qed.

Lemma strip_strip x : PyStr.strip (PyStr.strip x) = PyStr.strip x.
Proof. apply strip_idempotent. Qed.

Lemma parse_set_info_strip x : parse_set_info (PyStr.strip x) = parse_set_info x.
Proof. unfold parse_set_info. cbv zeta. rewrite !strip_strip. reflexivity. Qed.

Lemma strip_chunk label y :
  PyStr.strip label = label ->
  PyStr.strip (label +:+ String ":" y)
  = label +:+ String ":" (PyStr.rstrip_by PyStr.is_space y).
Proof.
  intros Hlabel. apply strip_fixed_ends in Hlabel as [Hhead _].
  unfold PyStr.strip, PyStr.strip_by.
  rewrite rstrip_app, rstrip_kept by reflexivity.
  destruct label as [|a label].
  - rewrite append_empty_l. apply lstrip_kept. reflexivity.
  - rewrite append_cons. apply lstrip_kept. exact Hhead.
Qed.

Lemma strip_pieces_rstrip c y :
  PyStr.is_space c = false ->
  map PyStr.strip (PyStr.split c (PyStr.rstrip_by PyStr.is_space y))
  = map PyStr.strip (PyStr.split c y).
Proof.
  intros Hc. destruct (rstrip_decompose PyStr.is_space y) as (b & Hb & Hy).
  rewrite Hy at 2. rewrite split_app_last by (apply (stripped_lacks _ c b Hc Hb)).
  symmetry. apply strip_app_last, Hb.
Qed.

(** The pairs of the rows of one set: one for each piece between commas
    whose parsed name is not empty. *)
Lemma parse_set_info_chunk label names :
  lacks ":" label = true ->
  PyStr.strip label = label ->
  names <> [] ->
  map (fun row => (set_name row, song_name row))
      (parse_set_info (label +:+ ": " +:+ PyStr.join ", " names))
  = flat_map (fun name => if PyStr.truthy name then [(label, name)] else [])
             (map parsed_name
                  (flat_map (fun name => map PyStr.strip (PyStr.split "," name)) names)).
Proof.
  intros Hcolon Hlabel Hnames. unfold parse_set_info. cbv zeta.
  change (label +:+ ": " +:+ PyStr.join ", " names)
    with (label +:+ String ":" (" " +:+ PyStr.join ", " names)).
  rewrite strip_chunk by exact Hlabel.
  rewrite contains_char, lacks_app, lacks_cons, Ascii.eqb_refl, andb_false_r. cbn [negb].
  rewrite split1_app_sep by exact Hcolon.
  rewrite Hlabel, parse_raw_songs_pairs. f_equal.
  rewrite <- (map_ext _ _ parsed_name_strip), <- map_map.
  rewrite strip_pieces_rstrip by reflexivity.
  rewrite (strip_split_join_pieces names Hnames " " eq_refl). reflexivity.
Qed.

Lemma parse_set_info_chunk_in label names set_label song :
  lacks ":" label = true ->
  PyStr.strip label = label ->
  names <> [] ->
  In (set_label, song)
     (map (fun row => (set_name row, song_name row))
          (parse_set_info (label +:+ ": " +:+ PyStr.join ", " names))) <->
  set_label = label /\ PyStr.truthy song = true /\
  exists name piece,
    In name names /\ In piece (PyStr.split "," name) /\ song = parsed_name piece.
Proof.
  intros Hcolon Hlabel Hnames. rewrite parse_set_info_chunk by assumption.
  rewrite in_flat_map. split.
  - intros (parsed & Hparsed & Hpair).
    apply in_map_iff in Hparsed as (stripped & <- & Hstripped).
    apply in_flat_map in Hstripped as (name & Hname & Hstripped).
    apply in_map_iff in Hstripped as (piece & <- & Hpiece).
    rewrite parsed_name_strip in Hpair.
    destruct (PyStr.truthy (parsed_name piece)) eqn:Htruthy; [|destruct Hpair].
    destruct Hpair as [[= <- <-]|[]]. split; [reflexivity|]. split; [exact Htruthy|].
    exists name, piece. auto.
  - intros (-> & Htruthy & name & piece & Hname & Hpiece & ->).
    exists (parsed_name piece). split.
    + apply in_map_iff. exists (PyStr.strip piece). split; [apply parsed_name_strip|].
      apply in_flat_map. exists name. split; [exact Hname|]. apply in_map, Hpiece.
    + rewrite Htruthy. left. reflexivity.
Qed.

(** ** The whole formatted string, parsed *)

Lemma truthy_app_cons (s : string) c t : PyStr.truthy (s +:+ String c t) = true.
Proof. destruct s; reflexivity. Qed.

Lemma parsed_pairs_join chunks :
  chunks <> [] ->
  Forall (fun chunk => lacks "|" chunk = true) chunks ->
  PyStr.truthy (PyStr.join " | " chunks) = true ->
  parsed_pairs (PyStr.join " | " chunks)
  = flat_map (fun chunk => map (fun row => (set_name row, song_name row))
                               (parse_set_info chunk)) chunks.
Proof.
  intros Hchunks Hbar Htruthy. unfold parsed_pairs, parse_setlist_for_ml.
  rewrite Htruthy. cbn [negb]. rewrite map_flat_map.
  apply flat_map_strip_ext.
  - intros x. rewrite parse_set_info_strip. reflexivity.
  - rewrite <- (append_empty_l (PyStr.join " | " chunks)).
    apply (strip_split_join "|" " " " " chunks); reflexivity || assumption.
Qed.

(** ** The sets the formatter writes, read back *)

Lemma items_of_in label entries item :
  In item (items_of label entries) <->
  exists entry, In entry entries /\ entry_label entry = label /\ item = entry_item entry.
Proof.
  unfold items_of. rewrite in_map_iff. split.
  - intros (entry & <- & Hin). apply List.filter_In in Hin as [Hin E].
    apply String.eqb_eq in E. exists entry. auto.
  - intros (entry & Hin & E & ->). exists entry. split; [reflexivity|].
    apply List.filter_In. split; [exact Hin | apply String.eqb_eq, E].
Qed.

Lemma sorted_names_in label entries name :
  In name (map snd (sort_by_key (items_of label entries))) <->
  exists entry, In entry entries /\ entry_label entry = label /\ name = rendered_song entry.
Proof.
  rewrite in_map_iff. split.
  - intros (item & <- & Hin). apply sort_by_key_in, items_of_in in Hin.
    destruct Hin as (entry & Hin & E & ->). exists entry. auto.
  - intros (entry & Hin & E & ->). exists (entry_item entry). split; [reflexivity|].
    apply sort_by_key_in, items_of_in. exists entry. auto.
Qed.

Lemma reads_back_in entries entry :
  Forall reads_back entries -> In entry entries -> reads_back entry.
Proof. intros Hreads. apply List.Forall_forall, Hreads. Qed.

(** Every character of a string occurs in it. *)
Lemma occurs_all (q : ascii -> bool) s :
  forall pre,
    all_chars (fun c => q c || negb (lacks c (pre +:+ s))) s = true.
Proof.
  induction s as [|a s IH]; intros pre; [reflexivity|]. cbn [all_chars].
  rewrite lacks_app, lacks_cons, Ascii.eqb_refl. cbn [negb andb].
  rewrite andb_false_r, orb_true_r. cbn [negb andb].
  specialize (IH (pre +:+ String a EmptyString)).
  rewrite append_assoc in IH. exact IH.
Qed.

(** A character that occurs in a string has what all its characters have. *)
Lemma occurs_satisfies (p : ascii -> bool) s c :
  all_chars p s = true -> lacks c s = false -> p c = true.
Proof.
  induction s as [|a s IH]; [discriminate|]. cbn [all_chars]. rewrite lacks_cons.
  intros Hall Hlacks. apply andb_true_iff in Hall as [Ha Hs].
  destruct (Ascii.eqb a c) eqn:E.
  - apply Ascii.eqb_eq in E. subst. exact Ha.
  - apply IH; [exact Hs|exact Hlacks].
Qed.

(** A rendered song is the song name and, after it, a rendering of the
    segue marker. *)
Lemma rendered_song_tail entry :
  exists tail,
    rendered_song entry = get_or (entry_song entry) "Unknown Song" +:+ tail /\
    marker_rest entry tail /\
    lacks "|" tail = lacks "|" (get_or (entry_segue entry) "")
    || negb (marker_shows (get_or (entry_segue entry) "")).
Proof.
  unfold rendered_song, marker_rest. cbv zeta.
  destruct (marker_shows (get_or (entry_segue entry) "")).
  - exists (" " +:+ get_or (entry_segue entry) "" +:+ " "). split; [reflexivity|]. split.
    + rewrite !all_chars_app. cbn [all_chars]. cbn [PyStr.is_space orb andb].
      change (PyStr.is_space " ") with true. cbn [orb andb].
      rewrite andb_true_r.
      apply (occurs_all PyStr.is_space (get_or (entry_segue entry) "") "").
    + rewrite !lacks_app. change (lacks "|" " ") with true. cbn [negb andb orb].
      rewrite andb_true_r, orb_false_r. reflexivity.
  - exists "". split; [rewrite append_empty_r; reflexivity|]. split; [reflexivity|].
    cbn [negb]. rewrite orb_true_r. reflexivity.
Qed.

Lemma rendered_song_lacks_bar entry :
  reads_back entry -> lacks "|" (rendered_song entry) = true.
Proof.
  intros (_ & _ & _ & Hsong & _ & _ & _ & Hsegue).
  destruct (rendered_song_tail entry) as (tail & -> & _ & Htail).
  rewrite lacks_app, Hsong, Htail, Hsegue. reflexivity.
Qed.

(** The pieces of a rendered song between commas, parsed: the first is the
    stripped song name with what is left of the marker after it, the others
    are made of what is left of the marker. *)
Lemma rendered_song_pieces entry :
  reads_back entry ->
  (exists piece rest,
      In piece (PyStr.split "," (rendered_song entry)) /\
      marker_rest entry rest /\
      parsed_name piece = entry_song_name entry +:+ rest) /\
  (forall piece,
      In piece (PyStr.split "," (rendered_song entry)) ->
      exists rest,
        marker_rest entry rest /\
        (parsed_name piece = rest \/ parsed_name piece = entry_song_name entry +:+ rest)).
Proof.
  intros (_ & _ & _ & _ & Hcomma & Hgt & _ & _).
  destruct (rendered_song_tail entry) as (tail & -> & Htail & _).
  unfold marker_rest in *. rewrite split_app_head by exact Hcomma.
  destruct (PyStr.split "," tail) as [|first others] eqn:Hsplit;
    [destruct (split_nonempty "," tail Hsplit)|].
  assert (Hpieces : forall piece, In piece (first :: others) ->
            all_chars (fun c => PyStr.is_space c
                                || negb (lacks c (get_or (entry_segue entry) ""))) piece
            = true).
  { intros piece Hpiece. apply (split_all_chars _ "," tail); [exact Htail|].
    rewrite Hsplit. exact Hpiece. }
  assert (Hfirst : exists rest,
             all_chars (fun c => PyStr.is_space c
                                 || negb (lacks c (get_or (entry_segue entry) ""))) rest
             = true /\
             parsed_name (get_or (entry_song entry) "Unknown Song" +:+ first)
             = entry_song_name entry +:+ rest).
  { apply parsed_name_song_tail; [exact Hgt| |apply Hpieces; left; reflexivity].
    intros c ->. reflexivity. }
  split.
  - destruct Hfirst as (rest & Hrest & Hparsed). eexists _, rest.
    split; [left; reflexivity|]. split; assumption.
  - intros piece [<-|Hpiece].
    + destruct Hfirst as (rest & Hrest & Hparsed). exists rest. split; [exact Hrest|].
      right. exact Hparsed.
    + exists (parsed_name piece). split; [|left; reflexivity].
      apply parsed_name_chars, Hpieces. right. exact Hpiece.
Qed.

Lemma format_set_lacks_bar entries label :
  Forall reads_back entries ->
  In label (map entry_label entries) ->
  lacks "|" (format_set (label, items_of label entries)) = true.
Proof.
  intros Hreads Hlabel. apply in_map_iff in Hlabel as (entry0 & Hlabel0 & Hin0).
  pose proof (reads_back_in entries entry0 Hreads Hin0) as (Hbar & _).
  rewrite Hlabel0 in Hbar.
  unfold format_set. rewrite !lacks_app, Hbar. cbn [andb].
  change (lacks "|" ": ") with true. cbn [andb].
  assert (Hnames : Forall (fun name => lacks "|" name = true)
                          (map snd (sort_by_key (items_of label entries)))).
  { apply List.Forall_forall. intros name Hname.
    apply sorted_names_in in Hname as (entry & Hin & _ & ->).
    apply rendered_song_lacks_bar, (reads_back_in entries); assumption. }
  unfold PyStr.join.
  induction Hnames as [|name [|name' names] Hname Hrest IH]; [reflexivity|exact Hname|].
  change (String.concat ", " (name :: name' :: names))
    with (name +:+ ", " +:+ String.concat ", " (name' :: names)).
  rewrite !lacks_app, Hname, IH. reflexivity.
Qed.

(** The pairs of the rows parsed from one formatted set. *)
Lemma format_set_pairs entries label set_label song :
  Forall reads_back entries ->
  In label (map entry_label entries) ->
  In (set_label, song)
     (map (fun row => (set_name row, song_name row))
          (parse_set_info (format_set (label, items_of label entries)))) <->
  set_label = label /\ PyStr.truthy song = true /\
  exists entry piece,
    In entry entries /\ entry_label entry = label /\
    In piece (PyStr.split "," (rendered_song entry)) /\ song = parsed_name piece.
Proof.
  intros Hreads Hlabel. apply in_map_iff in Hlabel as (entry0 & Hlabel0 & Hin0).
  pose proof (reads_back_in entries entry0 Hreads Hin0) as Hentry0.
  destruct Hentry0 as (_ & Hcolon & Hstrip & _). rewrite Hlabel0 in Hcolon, Hstrip.
  unfold format_set.
  rewrite parse_set_info_chunk_in; [|exact Hcolon|exact Hstrip|].
  - split.
    + intros (-> & Htruthy & name & piece & Hname & Hpiece & ->).
      apply sorted_names_in in Hname as (entry & Hin & E & ->).
      split; [reflexivity|]. split; [exact Htruthy|]. exists entry, piece. auto.
    + intros (-> & Htruthy & entry & piece & Hin & E & Hpiece & ->).
      split; [reflexivity|]. split; [exact Htruthy|].
      exists (rendered_song entry), piece. split; [|auto].
      apply sorted_names_in. exists entry. auto.
  - intros Hempty.
    assert (Hin : In (rendered_song entry0)
                     (map snd (sort_by_key (items_of label entries)))).
    { apply sorted_names_in. exists entry0. auto. }
    rewrite Hempty in Hin. destruct Hin.
Qed.

(** The pairs of the rows parsed from the formatted string: for every
    entry, the pieces of its rendered song whose parsed name is not empty. *)
Lemma parsed_pairs_format entries set_label song :
  Forall reads_back entries ->
  In (set_label, song) (parsed_pairs (format_setlist_from_show entries)) <->
  PyStr.truthy song = true /\
  exists entry piece,
    In entry entries /\ set_label = entry_label entry /\
    In piece (PyStr.split "," (rendered_song entry)) /\ song = parsed_name piece.
Proof.
  intros Hreads.
  rewrite format_setlist_sets_in_order.
  assert (Hcase : entries = [] \/ exists entry0, In entry0 entries).
  { destruct entries as [|entry0 ?]; [left; reflexivity|].
    right. exists entry0. left. reflexivity. }
  destruct Hcase as [-> | [entry0 Hin0]].
  { split; [intros [] | intros (_ & entry & piece & [] & _)]. }
  assert (Hlabel0 : In (entry_label entry0) (map entry_label entries))
    by (apply in_map, Hin0).
  unfold sets_in_order. rewrite map_map.
  set (labels := first_occurrences (map entry_label entries)).
  assert (Hlabels : forall label, In label labels -> In label (map entry_label entries)).
  { intros label. apply first_occurrences_in. }
  rewrite parsed_pairs_join.
  - rewrite flat_map_map, in_flat_map. split.
    + intros (label & Hlabel & Hpair).
      apply format_set_pairs in Hpair
        as (-> & Htruthy & entry & piece & Hin & E & Hpiece & Hsong);
        [|exact Hreads|apply Hlabels, Hlabel].
      split; [exact Htruthy|]. exists entry, piece. auto.
    + intros (Htruthy & entry & piece & Hin & -> & Hpiece & Hsong).
      assert (Hlabel : In (entry_label entry) (map entry_label entries))
        by (apply in_map, Hin).
      exists (entry_label entry). split; [apply first_occurrences_in, Hlabel|].
      apply format_set_pairs; [exact Hreads|exact Hlabel|]. split; [reflexivity|].
      split; [exact Htruthy|]. exists entry, piece. auto.
  - intros Hempty. apply map_eq_nil in Hempty.
    apply (proj2 (first_occurrences_in _ _)) in Hlabel0. fold labels in Hlabel0.
    rewrite Hempty in Hlabel0. destruct Hlabel0.
  - apply List.Forall_forall. intros chunk Hchunk.
    apply in_map_iff in Hchunk as (label & <- & Hlabel).
    apply format_set_lacks_bar; [exact Hreads | apply Hlabels, Hlabel].
  - apply (proj2 (first_occurrences_in _ _)) in Hlabel0. fold labels in Hlabel0.
    destruct labels as [|label rest]; [destruct Hlabel0|].
    cbn [map]. unfold PyStr.join, format_set at 1.
    destruct (map _ rest); cbn [String.concat].
    + change (label +:+ ": " +:+ ?x) with (label +:+ String ":" (" " +:+ x)).
      apply truthy_app_cons.
    + rewrite append_assoc.
      change (label +:+ ": " +:+ ?x) with (label +:+ String ":" (" " +:+ x)).
      apply truthy_app_cons.
Qed.

(** What every song name read back looks like: it belongs to an entry, it
    is the stripped song name of the entry with what is left of the marker
    after it, or what is left of the marker alone; it is not empty, it is
    stripped, and it has neither ">" nor a comma. *)
Lemma parsed_pair_shape entries set_label song :
  Forall reads_back entries ->
  In (set_label, song) (parsed_pairs (format_setlist_from_show entries)) ->
  exists entry rest,
    In entry entries /\ set_label = entry_label entry /\ marker_rest entry rest /\
    (song = rest \/ song = entry_song_name entry +:+ rest) /\
    PyStr.truthy song = true /\ PyStr.strip song = song /\
    lacks ">" song = true /\ lacks "," song = true.
Proof.
  intros Hreads Hin. apply parsed_pairs_format in Hin; [|exact Hreads].
  destruct Hin as (Htruthy & entry & piece & Hentry & Hlabel & Hpiece & ->).
  destruct (proj2 (rendered_song_pieces entry (reads_back_in _ _ Hreads Hentry)) piece Hpiece)
    as (rest & Hrest & Hshape).
  exists entry, rest. split; [exact Hentry|]. split; [exact Hlabel|].
  split; [exact Hrest|]. split; [exact Hshape|]. split; [exact Htruthy|].
  split; [apply parsed_name_stripped|]. split; [apply parsed_name_lacks_gt|].
  apply parsed_name_chars, (split_pieces_lack "," (rendered_song entry)), Hpiece.
Qed.

(** What is left of a marker that vanishes, in a name the parser made: nothing. *)
Lemma marker_rest_vanishes entry prefix rest :
  marker_vanishes entry -> marker_rest entry rest ->
  PyStr.strip (prefix +:+ rest) = prefix +:+ rest ->
  lacks ">" (prefix +:+ rest) = true -> lacks "," (prefix +:+ rest) = true ->
  rest = "".
Proof.
  unfold marker_vanishes, marker_rest. intros Hvanishes Hrest Hstripped Hgt Hcomma.
  rewrite lacks_app in Hgt, Hcomma.
  apply andb_true_iff in Hgt as [_ Hgt]. apply andb_true_iff in Hcomma as [_ Hcomma].
  assert (Hspace : all_chars PyStr.is_space rest = true).
  { clear Hstripped. induction rest as [|c rest IH]; [reflexivity|].
    cbn [all_chars] in *. rewrite lacks_cons in Hgt, Hcomma.
    apply andb_true_iff in Hrest as [Hc Hrest].
    apply andb_true_iff in Hgt as [Hc_gt Hgt].
    apply andb_true_iff in Hcomma as [Hc_comma Hcomma].
    rewrite IH by assumption. rewrite andb_true_r.
    apply negb_true_iff in Hc_gt, Hc_comma.
    assert (Hmarker : is_marker_char c = true).
    { apply orb_true_iff in Hc as [Hc|Hc].
      - unfold is_marker_char. rewrite Hc, !orb_true_r. reflexivity.
      - apply negb_true_iff in Hc. apply (occurs_satisfies _ _ _ Hvanishes Hc). }
    unfold is_marker_char in Hmarker. rewrite Hc_gt, Hc_comma in Hmarker. exact Hmarker. }
  unfold PyStr.strip in Hstripped. rewrite strip_pad_r in Hstripped by exact Hspace.
  destruct (strip_decompose PyStr.is_space prefix) as (a & b & _ & _ & Hprefix).
  apply (f_equal String.length) in Hstripped, Hprefix.
  rewrite length_append in Hstripped. rewrite !length_append in Hprefix.
  destruct rest; [reflexivity|]. cbn [String.length] in Hstripped. lia.
Qed.

(** ** The set groupings of the feature bag *)

Lemma dict_set_in_self {V : Type} (k : string) (v : V) (d : pydict V) :
  In (k, v) (dict_set k v d).
Proof.
  induction d as [|[k0 v0] d IH]; simpl; [left; reflexivity|].
  destruct (String.eqb k k0) eqn:E.
  - apply String.eqb_eq in E. subst k0. left. reflexivity.
  - right. exact IH.
Qed.

Lemma dict_set_keeps {V : Type} (k k0 : string) (v v0 : V) (d : pydict V) :
  In (k, v) d ->
  In (k, v) (dict_set k0 v0 d) \/ (k = k0 /\ dict_get k0 d = Some v).
Proof.
  induction d as [|[k1 v1] d IH]; simpl; [intros []|].
  destruct (String.eqb k0 k1) eqn:E.
  - apply String.eqb_eq in E. subst k1. intros [[= <- <-]|H].
    + right. split; reflexivity.
    + left. right. exact H.
  - intros [H|H]; [left; left; exact H|].
    destruct (IH H) as [H'|H']; [left; right; exact H' | right; exact H'].
Qed.

(** Appending [x] to the list under [k0]: the pairs are the old ones and
    [(k0, x)]. *)
Lemma dict_append_pairs {A : Type} (k0 : string) (x : A) (d : pydict (list A)) k y :
  (exists ys, In (k, ys) (dict_set k0 (dict_get_default [] k0 d ++ [x]) d) /\ In y ys) <->
  (exists ys, In (k, ys) d /\ In y ys) \/ (k = k0 /\ y = x).
Proof.
  split.
  - intros (ys & Hin & Hy). apply dict_set_items in Hin as [[-> ->]|Hin].
    + apply in_app_or in Hy as [Hy|[<-|[]]]; [|right; split; reflexivity].
      left. apply dict_get_default_items in Hy as (xs & Hxs & Hx).
      exists xs. split; assumption.
    + left. exists ys. split; assumption.
  - intros [(ys & Hin & Hy)|[-> ->]].
    + destruct (dict_set_keeps k k0 ys (dict_get_default [] k0 d ++ [x]) d Hin)
        as [H|[-> Hget]].
      * exists ys. split; assumption.
      * exists (dict_get_default [] k0 d ++ [x]). split; [apply dict_set_in_self|].
        unfold dict_get_default. rewrite Hget. apply in_or_app. left. exact Hy.
    + exists (dict_get_default [] k0 d ++ [x]). split; [apply dict_set_in_self|].
      apply in_or_app. right. left. reflexivity.
Qed.

Lemma extract_entry_pairs songs bag entry set_label song :
  bag_pair (snd (extract_entry (songs, bag) entry)) set_label song <->
  bag_pair bag set_label song \/
  (kept entry = true /\ set_label = entry_label entry /\ song = entry_song_name entry).
Proof.
  unfold extract_entry. fold (entry_song_name entry). fold (entry_label entry).
  fold (kept entry). destruct (kept entry); cbn [snd].
  - unfold bag_pair at 1. cbn [set_info]. rewrite dict_append_pairs.
    unfold bag_pair. intuition congruence.
  - intuition congruence.
Qed.

Lemma extract_entries_pairs entries :
  forall songs bag set_label song,
    bag_pair (snd (fold_left extract_entry entries (songs, bag))) set_label song <->
    bag_pair bag set_label song \/
    exists entry, In entry entries /\ kept entry = true /\
                  set_label = entry_label entry /\ song = entry_song_name entry.
Proof.
  induction entries as [|entry entries IH]; intros songs bag set_label song.
  - cbn [fold_left snd]. split; [auto | intros [H|(e & [] & _)]; exact H].
  - cbn [fold_left].
    destruct (extract_entry (songs, bag) entry) as [songs1 bag1] eqn:Hstep.
    rewrite IH.
    replace bag1 with (snd (extract_entry (songs, bag) entry)) by (rewrite Hstep; reflexivity).
    rewrite extract_entry_pairs. split.
    + intros [[H|(Hk & Hs & Hn)]|(e & Hin & Hk & Hs & Hn)].
      * left. exact H.
      * right. exists entry. split; [left; reflexivity | auto].
      * right. exists e. split; [right; exact Hin | auto].
    + intros [H|(e & [<-|Hin] & Hk & Hs & Hn)].
      * left. left. exact H.
      * left. right. auto.
      * right. exists e. auto.
Qed.

(** The pairs of the feature bag are the set label and stripped song name
    of every entry the extractor keeps. *)
Lemma bag_pairs_extract all_songs entries set_label song :
  bag_pair (snd (extract_song_features_from_setlist all_songs entries)) set_label song <->
  exists entry, In entry entries /\ kept entry = true /\
                set_label = entry_label entry /\ song = entry_song_name entry.
Proof.
  unfold extract_song_features_from_setlist. rewrite extract_entries_pairs.
  split; [|auto]. intros [(songs & [] & _)|H]. exact H.
Qed.

(** C5, as stated, fails: an entry without song name is rendered as
    "Unknown Song" by the formatter, and the parser reads that back as a
    song of the set, while the feature extractor leaves the entry out. *)
Lemma placeholder_read_back_but_not_in_bag :
  let setlist_data :=
    [ example_entry "Set 1" "Tweezer" 1 "";
      {| entry_set := Some "Set 1"; entry_song := None;
         entry_position := Some 2; entry_segue := None |} ] in
  format_setlist_from_show setlist_data = "Set 1: Tweezer, Unknown Song" /\
  In ("Set 1", "Unknown Song") (parsed_pairs (format_setlist_from_show setlist_data)) /\
  ~ bag_pair (snd (extract_song_features_from_setlist ∅ setlist_data))
             "Set 1" "Unknown Song".
Proof.
  cbv zeta. split; [reflexivity|]. split.
  - vm_compute. right. left. reflexivity.
  - intros (songs & Hin & Hsong). vm_compute in Hin.
    destruct Hin as [[= <-]|[]]. destruct Hsong as [H|[]].
    apply String.eqb_eq in H. vm_compute in H. discriminate H.
Qed.

(** C5, amended: for entries whose set labels and song names hold none of
    the separators of the format, whose labels have no white space around
    them, whose songs are not the placeholder and whose segue markers have
    no "|", the (set, song) pairs parsed from the formatted string are the
    (set, song) pairs of the feature bag's [set_info] up to the rendering
    of the segue markers: every pair of the bag is read back with, after
    the song name, at most white space and characters of a segue marker;
    and every pair read back is such a pair, or is made of white space and
    characters of a segue marker alone. When the segue markers are made of
    ">", commas and white space, nothing of them is left, and the pairs
    read back are the pairs of the bag. *)
Theorem parse_format_recovers_set_info (all_songs : gset string)
    (setlist_data : list setlist_entry) :
  Forall reads_back setlist_data ->
  let parsed := parsed_pairs (format_setlist_from_show setlist_data) in
  let bag := snd (extract_song_features_from_setlist all_songs setlist_data) in
  (forall set_label song,
      bag_pair bag set_label song ->
      exists entry rest,
        In entry setlist_data /\ marker_rest entry rest /\
        In (set_label, song +:+ rest) parsed) /\
  (forall set_label parsed_song,
      In (set_label, parsed_song) parsed ->
      exists entry rest,
        In entry setlist_data /\ marker_rest entry rest /\
        (parsed_song = rest \/
         exists song, bag_pair bag set_label song /\ parsed_song = song +:+ rest)) /\
  (Forall marker_vanishes setlist_data ->
   forall set_label song, In (set_label, song) parsed <-> bag_pair bag set_label song).
Proof.
  intros Hreads. cbv zeta.
  assert (Hbag : forall set_label song,
             bag_pair (snd (extract_song_features_from_setlist all_songs setlist_data))
                      set_label song ->
             exists entry rest,
               In entry setlist_data /\ marker_rest entry rest /\
               In (set_label, song +:+ rest)
                  (parsed_pairs (format_setlist_from_show setlist_data))).
  { intros set_label song Hpair. apply bag_pairs_extract in Hpair.
    destruct Hpair as (entry & Hin & Hkept & -> & ->).
    destruct (proj1 (rendered_song_pieces entry (reads_back_in _ _ Hreads Hin)))
      as (piece & rest & Hpiece & Hrest & Hparsed).
    exists entry, rest. split; [exact Hin|]. split; [exact Hrest|].
    apply parsed_pairs_format; [exact Hreads|]. split.
    - unfold kept in Hkept. apply andb_true_iff in Hkept as [Htruthy _].
      rewrite truthy_append, Htruthy. reflexivity.
    - exists entry, piece. rewrite Hparsed. auto. }
  assert (Hparsed : forall set_label parsed_song,
             In (set_label, parsed_song)
                (parsed_pairs (format_setlist_from_show setlist_data)) ->
             exists entry rest,
               In entry setlist_data /\ set_label = entry_label entry /\
               marker_rest entry rest /\
               (parsed_song = rest \/
                (kept entry = true /\ parsed_song = entry_song_name entry +:+ rest)) /\
               (marker_vanishes entry ->
                kept entry = true /\ parsed_song = entry_song_name entry)).
  { intros set_label parsed_song Hin.
    destruct (parsed_pair_shape _ _ _ Hreads Hin)
      as (entry & rest & Hentry & Hlabel & Hrest & Hshape & Htruthy & Hstripped & Hgt & Hcomma).
    exists entry, rest. split; [exact Hentry|]. split; [exact Hlabel|].
    split; [exact Hrest|].
    assert (Hkept : entry_song_name entry <> "" -> kept entry = true).
    { intros Hname. unfold kept. apply andb_true_iff. split.
      - destruct (entry_song_name entry); [congruence|reflexivity].
      - apply negb_true_iff, String.eqb_neq.
        apply (reads_back_in _ _ Hreads Hentry). }
    split.
    - destruct Hshape as [Hshape|Hshape]; [left; exact Hshape|].
      destruct (entry_song_name entry) as [|c name] eqn:Hname.
      + left. rewrite Hshape. apply append_empty_l.
      + right. split; [apply Hkept; discriminate|exact Hshape].
    - intros Hvanishes. destruct Hshape as [Hshape|Hshape]; subst parsed_song.
      + exfalso. rewrite <- (append_empty_l rest) in Hstripped, Hgt, Hcomma.
        rewrite (marker_rest_vanishes entry "" rest Hvanishes Hrest Hstripped Hgt Hcomma)
          in Htruthy.
        discriminate Htruthy.
      + rewrite (marker_rest_vanishes entry _ rest Hvanishes Hrest Hstripped Hgt Hcomma)
          in Htruthy |- *.
        rewrite append_empty_r in Htruthy |- *. split; [|reflexivity].
        apply Hkept. intros Hempty. rewrite Hempty in Htruthy. discriminate Htruthy. }
  split; [exact Hbag|]. split.
  - intros set_label parsed_song Hin.
    destruct (Hparsed _ _ Hin) as (entry & rest & Hentry & Hlabel & Hrest & Hshape & _).
    exists entry, rest. split; [exact Hentry|]. split; [exact Hrest|].
    destruct Hshape as [Hshape|(Hkept & Hshape)]; [left; exact Hshape|].
    right. exists (entry_song_name entry). split; [|exact Hshape].
    apply bag_pairs_extract. exists entry. auto.
  - intros Hvanish set_label song. split.
    + intros Hin.
      destruct (Hparsed _ _ Hin) as (entry & rest & Hentry & Hlabel & _ & _ & Hexact).
      destruct (Hexact (proj1 (List.Forall_forall _ _) Hvanish entry Hentry))
        as (Hkept & Hsong).
      apply bag_pairs_extract. exists entry. auto.
    + intros Hpair. destruct (Hbag _ _ Hpair) as (entry & rest & Hentry & Hrest & Hin).
      destruct (parsed_pair_shape _ _ _ Hreads Hin)
        as (e & r & He & _ & _ & _ & _ & Hst & Hg & Hc).
      assert (Hvan : marker_vanishes entry)
        by (apply (proj1 (List.Forall_forall _ _) Hvanish entry Hentry)).
      rewrite (marker_rest_vanishes entry song rest Hvan Hrest Hst Hg Hc) in Hin.
      rewrite append_empty_r in Hin. exact Hin.
Qed.

Lemma example_setlist_markers_reads_back : Forall reads_back example_setlist_markers.
Proof.
  unfold example_setlist_markers.
  repeat (apply List.Forall_cons;
          [unfold reads_back; cbv zeta;
           repeat (split; [reflexivity|]);
           split; [intros H; apply String.eqb_eq in H; vm_compute in H; discriminate H
                  |reflexivity]|]).
  apply List.Forall_nil.
Qed.

Lemma example_setlist_reads_back : Forall reads_back example_setlist.
Proof.
  unfold example_setlist.
  repeat (apply List.Forall_cons;
          [unfold reads_back; cbv zeta;
           repeat (split; [reflexivity|]);
           split; [intros H; apply String.eqb_eq in H; vm_compute in H; discriminate H
                  |reflexivity]|]).
  apply List.Forall_nil.
Qed.

Lemma example_setlist_vanishes : Forall marker_vanishes example_setlist.
Proof. unfold example_setlist. repeat constructor. Qed.

(** A setlist with a segue and a song name with blanks around it: the pair
    read back from the string is a pair of the bag. And a setlist with the
    marker "->" and a marker with a comma: what is read back of its first
    song is a pair of the bag with characters of the marker after it. *)
Lemma parse_format_recovers_set_info_example :
  (format_setlist_from_show example_setlist
   = "Set 1: Tweezer > ,  Mike's Song  | Encore: Tweezer" /\
   bag_pair (snd (extract_song_features_from_setlist ∅ example_setlist))
            "Set 1" "Mike's Song") /\
  (format_setlist_from_show example_setlist_markers
   = "Set 1: Tweezer -> ,  Mike's Song  ,   | Encore: Tweezer" /\
   exists entry rest,
     In entry example_setlist_markers /\ marker_rest entry rest /\
     ("Tweezer -" = rest \/
      exists song,
        bag_pair (snd (extract_song_features_from_setlist ∅ example_setlist_markers))
                 "Set 1" song /\
        "Tweezer -" = song +:+ rest)).
Proof.
  split; (split; [reflexivity|]).
  - pose proof (parse_format_recovers_set_info ∅ example_setlist
                  example_setlist_reads_back) as Hpairs.
    cbv zeta in Hpairs. destruct Hpairs as (_ & _ & Hequal).
    refine (proj1 (Hequal example_setlist_vanishes "Set 1" "Mike's Song") _).
    vm_compute. right. left. reflexivity.
  - pose proof (parse_format_recovers_set_info ∅ example_setlist_markers
                  example_setlist_markers_reads_back) as Hpairs.
    cbv zeta in Hpairs. destruct Hpairs as (_ & Hback & _).
    refine (Hback "Set 1" "Tweezer -" _).
    vm_compute. left. reflexivity.
Defined.
(* ===================================================================== *)
(** * Part III: further properties of the code                            *)
(* ===================================================================== *)

(** ** The HTTP client, whatever the server does *)

Lemma attempts_request_bound {A} self (respond : nat -> http_outcome A) url retry_count :
  forall todo w,
    (requests_sent w
     <= requests_sent (snd (attempts self respond url retry_count todo w))
     <= requests_sent w + length todo)%nat.
Proof.
  induction todo as [|attempt rest IH]; intros w; [simpl; lia|].
  rewrite attempts_cons. cbv zeta.
  assert (Hrec : forall w1,
             requests_sent w1 = S (requests_sent w) ->
             (requests_sent w
              <= requests_sent (snd (attempts self respond url retry_count rest w1))
              <= requests_sent w + length (attempt :: rest))%nat).
  { intros w1 Hw1. specialize (IH w1). rewrite Hw1 in IH. simpl. lia. }
  assert (Hexc : forall e w1,
             requests_sent w1 = S (requests_sent w) ->
             (requests_sent w
              <= requests_sent
                   (snd (if isinstance_RequestException e
                         then if (attempt <? retry_count - 1)%Z
                              then attempts self respond url retry_count rest
                                     {| all_songs := all_songs w1;
                                        requests_sent := requests_sent w1;
                                        trace := trace w1 ++
                                                 [Sleep RetryBackoff
                                                    (inject_Z (2 * (attempt + 1))%Z)] |}
                              else (inl None, w1)
                         else if isinstance_JSONDecodeError e
                              then (inl None, w1) else (inr e, w1)))
              <= requests_sent w + length (attempt :: rest))%nat).
  { intros e w1 Hw1. destruct (isinstance_RequestException e).
    - destruct (attempt <? retry_count - 1); [apply Hrec; exact Hw1|].
      simpl. lia.
    - destruct (isinstance_JSONDecodeError e); simpl; lia. }
  destruct (respond (requests_sent w)) as [e|status_code json].
  - apply Hexc. reflexivity.
  - destruct (status_code =? 429); [apply Hrec; reflexivity|].
    destruct (raise_for_status status_code) as [e|]; [apply Hexc; reflexivity|].
    destruct json as [[body|]|e]; [|simpl; lia|apply Hexc; reflexivity].
    destruct (jtruthy (get (error body)) && negb (jeq (get (error body)) (JBool false)));
      simpl; lia.
Qed.

(** X1: whatever the server answers, one call of [make_request] sends at
    most [retry_count] requests. *)
Theorem make_request_retry_ceiling {A : Type} (self : extractor)
    (respond : nat -> http_outcome A) (endpoint : string) (retry_count : Z) (w : world) :
  let w' := snd (make_request self respond endpoint retry_count w) in
  (requests_sent w <= requests_sent w' <= requests_sent w + Z.to_nat retry_count)%nat.
Proof.
  cbv zeta. unfold make_request. destruct (PyStr.truthy (api_key self)).
  - pose proof (attempts_request_bound self respond
                  (base_url self +:+ "/" +:+ endpoint) retry_count
                  (py_range 0 retry_count 1) w) as H.
    rewrite py_range_from_zero in *. rewrite length_map, length_seq in H. exact H.
  - simpl. lia.
Qed.

(** X2: [make_request] raises nothing as long as [requests.get] and
    [response.json()] raise nothing but a [RequestException] or a
    [JSONDecodeError] and every body that is JSON is an object. An exception
    of another class raised by the first request reaches the caller as it
    is; and a first response that passes the status check with a JSON body
    that is no object makes the call raise [AttributeError], after the
    request delay. *)
Theorem make_request_exceptions {A : Type} (self : extractor)
    (respond : nat -> http_outcome A) (endpoint : string) (retry_count : Z) (w : world) :
  ((forall n, well_behaved (respond n) = true) ->
   exists result w', make_request self respond endpoint retry_count w = (inl result, w')) /\
  (forall e,
      PyStr.truthy (api_key self) = true -> 0 < retry_count ->
      respond (requests_sent w) = GetRaises e -> caught e = false ->
      exists w', make_request self respond endpoint retry_count w = (inr e, w') /\
                 requests_sent w' = S (requests_sent w)) /\
  (forall status_code,
      PyStr.truthy (api_key self) = true -> 0 < retry_count ->
      respond (requests_sent w) = GetResponse status_code (inl JsonOther) ->
      passes_status status_code = true ->
      make_request self respond endpoint retry_count w
      = (inr AttributeError,
         {| all_songs := all_songs w;
            requests_sent := S (requests_sent w);
            trace := trace w ++ [Get (base_url self +:+ "/" +:+ endpoint);
                                 Sleep RequestDelay (request_delay self)] |})).
Proof.
  split; [apply make_request_returns|]. split.
  - intros e Hkey Hretry Hat Hcaught. unfold make_request. rewrite Hkey.
    rewrite py_range_from_zero.
    destruct (Z.to_nat retry_count) as [|n] eqn:Hn; [lia|].
    cbn [seq map]. rewrite attempts_cons. cbv zeta. rewrite Hat.
    unfold caught in Hcaught. apply orb_false_iff in Hcaught as [-> ->].
    eexists. split; reflexivity.
  - intros status_code Hkey Hretry Hat Hpass. unfold make_request. rewrite Hkey.
    rewrite py_range_from_zero.
    destruct (Z.to_nat retry_count) as [|n] eqn:Hn; [lia|].
    cbn [seq map]. rewrite attempts_cons. cbv zeta. rewrite Hat.
    unfold passes_status in Hpass. apply andb_true_iff in Hpass as [H429 Hraise].
    apply negb_true_iff in H429. rewrite H429.
    destruct (raise_for_status status_code); [discriminate Hraise|].
    cbn [all_songs requests_sent trace]. rewrite <- app_assoc. reflexivity.
Qed.

Lemma make_request_exceptions_examples :
  (exists result w',
      make_request (PhishDataExtractor default_api_key) respond_503 "shows/tiph.json" 3
                   initial_world = (inl result, w')) /\
  (exists w',
      make_request (PhishDataExtractor default_api_key) respond_interrupt "shows/tiph.json" 3
                   initial_world = (inr (OtherException "KeyboardInterrupt"), w') /\
      requests_sent w' = 1%nat) /\
  make_request (PhishDataExtractor default_api_key) respond_array "shows/tiph.json" 3
               initial_world
  = (inr AttributeError,
     {| all_songs := ∅; requests_sent := 1;
        trace := [ Get "https://api.phish.net/v5/shows/tiph.json";
                   Sleep RequestDelay (1 # 2) ] |}).
Proof.
  split; [|split].
  - apply (proj1 (make_request_exceptions (PhishDataExtractor default_api_key)
                    respond_503 "shows/tiph.json" 3 initial_world)).
    intros n. reflexivity.
  - apply (proj1 (proj2 (make_request_exceptions (PhishDataExtractor default_api_key)
                           respond_interrupt "shows/tiph.json" 3 initial_world))
             (OtherException "KeyboardInterrupt")).
    + reflexivity.
    + lia.
    + reflexivity.
    + reflexivity.
  - apply (proj2 (proj2 (make_request_exceptions (PhishDataExtractor default_api_key)
                           respond_array "shows/tiph.json" 3 initial_world))
             200).
    + reflexivity.
    + lia.
    + reflexivity.
    + reflexivity.
Defined.

(** The failing requests of a run of the loop that starts at attempt [a]
    with [m] attempts left. *)
Lemma attempts_always_fail {A} self (respond : nat -> http_outcome A) url retry_count :
  (forall n, request_fails (respond n) = true) ->
  forall m a w,
    Z.of_nat (a + m) = retry_count ->
    attempts self respond url retry_count (map Z.of_nat (seq a m)) w =
    (inl None,
     {| all_songs := all_songs w;
        requests_sent := requests_sent w + m;
        trace := trace w ++
                 flat_map (fun attempt_number =>
                             if (attempt_number <? a + m)%nat
                             then [Get url;
                                   Sleep RetryBackoff
                                         (inject_Z (2 * Z.of_nat attempt_number))]
                             else [Get url])
                          (seq (S a) m) |}).
Proof.
  intros Hfails. induction m as [|m IH]; intros a w Hcount.
  - simpl. unfold ret. destruct w. simpl. rewrite Nat.add_0_r, app_nil_r. reflexivity.
  - cbn [seq map]. rewrite attempts_cons. cbv zeta.
    assert (Hstep :
              (if Z.of_nat a <? retry_count - 1
               then attempts self respond url retry_count (map Z.of_nat (seq (S a) m))
                      {| all_songs := all_songs w; requests_sent := S (requests_sent w);
                         trace := (trace w ++ [Get url]) ++
                                  [Sleep RetryBackoff (inject_Z (2 * (Z.of_nat a + 1)))] |}
               else (inl None,
                     {| all_songs := all_songs w; requests_sent := S (requests_sent w);
                        trace := trace w ++ [Get url] |}))
              = (inl None,
                 {| all_songs := all_songs w;
                    requests_sent := requests_sent w + S m;
                    trace := trace w ++
                             flat_map (fun attempt_number =>
                                         if (attempt_number <? a + S m)%nat
                                         then [Get url;
                                               Sleep RetryBackoff
                                                     (inject_Z (2 * Z.of_nat attempt_number))]
                                         else [Get url])
                                      (seq (S a) (S m)) |})).
    { cbn [seq flat_map].
      destruct (Z.of_nat a <? retry_count - 1) eqn:Hlast.
      - apply Z.ltb_lt in Hlast.
        assert (Hlt : (S a <? a + S m)%nat = true) by (apply Nat.ltb_lt; lia).
        rewrite Hlt, IH by lia. cbn [all_songs requests_sent trace].
        replace (S a + m)%nat with (a + S m)%nat by lia.
        replace (S (requests_sent w) + m)%nat with (requests_sent w + S m)%nat by lia.
        replace (Z.of_nat a + 1) with (Z.of_nat (S a)) by lia.
        rewrite <- !app_assoc. reflexivity.
      - apply Z.ltb_ge in Hlast. assert (m = O) by lia. subst m.
        assert (Hlt : (S a <? a + 1)%nat = false) by (apply Nat.ltb_ge; lia).
        rewrite Hlt. cbn [seq flat_map]. rewrite app_nil_r.
        replace (requests_sent w + 1)%nat with (S (requests_sent w)) by lia.
        reflexivity. }
    specialize (Hfails (requests_sent w)).
    destruct (respond (requests_sent w)) as [e|status_code json]; simpl in Hfails.
    + rewrite Hfails. exact Hstep.
    + apply andb_true_iff in Hfails as [H429 Hraise]. apply negb_true_iff in H429.
      rewrite H429. destruct (raise_for_status status_code) as [e|] eqn:Hr;
        [|discriminate Hraise].
      rewrite (raise_for_status_raises _ _ Hr). exact Hstep.
Qed.

(** X3: when every request fails (the request raises a [RequestException],
    or the status is an error status other than 429), a client with a key
    sends exactly [retry_count] requests, pauses [2 * attempt_number]
    seconds after each but the last, and returns [None]. *)
Theorem make_request_always_fails {A : Type} (self : extractor)
    (respond : nat -> http_outcome A) (endpoint : string) (retry_count : Z) (w : world) :
  PyStr.truthy (api_key self) = true ->
  (forall n, request_fails (respond n) = true) ->
  make_request self respond endpoint retry_count w =
  (inl None,
   {| all_songs := all_songs w;
      requests_sent := requests_sent w + Z.to_nat retry_count;
      trace := trace w ++
               failing_trace (base_url self +:+ "/" +:+ endpoint)
                             (Z.to_nat retry_count) |}).
Proof.
  intros Hkey Hfails. unfold make_request. rewrite Hkey, py_range_from_zero.
  destruct (Z.to_nat retry_count) as [|n] eqn:Hn.
  - simpl. unfold ret, failing_trace. destruct w. simpl.
    rewrite Nat.add_0_r, app_nil_r. reflexivity.
  - apply (attempts_always_fail self respond _ retry_count Hfails (S n) O w). lia.
Qed.

Lemma make_request_always_fails_example :
  make_request (PhishDataExtractor default_api_key) respond_503 "shows/tiph.json"
               default_retry_count initial_world =
  (inl None,
   {| all_songs := ∅; requests_sent := 3;
      trace := [ Get "https://api.phish.net/v5/shows/tiph.json";
                 Sleep RetryBackoff 2;
                 Get "https://api.phish.net/v5/shows/tiph.json";
                 Sleep RetryBackoff 4;
                 Get "https://api.phish.net/v5/shows/tiph.json" ] |}).
Proof.
  apply (make_request_always_fails (PhishDataExtractor default_api_key) respond_503
           "shows/tiph.json" default_retry_count initial_world).
  - reflexivity.
  - intros n. reflexivity.
Defined.

(** If the responses before the [k]-th never pass the status check and the
    [k]-th passes it with a body whose [error] is not truthy, the loop
    returns that body. *)
Lemma attempts_usable_body {A} self (respond : nat -> http_outcome A) url retry_count
    status_code (body : envelope A) :
  passes_status status_code = true ->
  jtruthy (get (error body)) = false ->
  forall k a m w,
    Z.of_nat (a + m) = retry_count ->
    (k < m)%nat ->
    (forall n, (n < k)%nat -> never_passes (respond (requests_sent w + n)%nat) = true) ->
    respond (requests_sent w + k)%nat = GetResponse status_code (inl (JsonObject body)) ->
    exists w' evs,
      attempts self respond url retry_count (map Z.of_nat (seq a m)) w
      = (inl (Some body), w') /\
      all_songs w' = all_songs w /\
      requests_sent w' = (requests_sent w + S k)%nat /\
      trace w' = trace w ++ evs ++ [Get url; Sleep RequestDelay (request_delay self)].
Proof.
  intros Hpass Herr. unfold passes_status in Hpass.
  apply andb_true_iff in Hpass as [H429 Hraise]. apply negb_true_iff in H429.
  induction k as [|k IH]; intros a m w Hcount Hk Hbefore Hat;
    (destruct m as [|m]; [lia|]); cbn [seq map]; rewrite attempts_cons; cbv zeta.
  - rewrite Nat.add_0_r in Hat. rewrite Hat, H429.
    destruct (raise_for_status status_code); [discriminate Hraise|].
    rewrite Herr. cbn [andb]. eexists _, []. split; [reflexivity|].
    cbn [all_songs requests_sent trace]. repeat split; [lia|].
    rewrite <- app_assoc. reflexivity.
  - assert (Hlt : (Z.of_nat a <? retry_count - 1) = true) by (apply Z.ltb_lt; lia).
    assert (Hrec : forall ev w1,
               all_songs w1 = all_songs w ->
               requests_sent w1 = S (requests_sent w) ->
               trace w1 = trace w ++ Get url :: ev ->
               exists w' evs,
                 attempts self respond url retry_count (map Z.of_nat (seq (S a) m)) w1
                 = (inl (Some body), w') /\
                 all_songs w' = all_songs w /\
                 requests_sent w' = (requests_sent w + S (S k))%nat /\
                 trace w' = trace w ++ evs ++ [Get url; Sleep RequestDelay (request_delay self)]).
    { intros ev w1 Hsongs Hsent Htr.
      destruct (IH (S a) m w1) as (w' & evs & Hrun & Hsongs' & Hsent' & Hevs).
      - lia.
      - lia.
      - intros n Hn. rewrite Hsent.
        replace (S (requests_sent w) + n)%nat with (requests_sent w + S n)%nat by lia.
        apply Hbefore. lia.
      - rewrite Hsent.
        replace (S (requests_sent w) + k)%nat with (requests_sent w + S k)%nat by lia.
        exact Hat.
      - exists w', ((Get url :: ev) ++ evs). split; [exact Hrun|].
        split; [congruence|]. split; [lia|].
        rewrite Hevs, Htr, <- !app_assoc. reflexivity. }
    pose proof (Hbefore O ltac:(lia)) as Hfirst. rewrite Nat.add_0_r in Hfirst.
    destruct (respond (requests_sent w)) as [e|status1 json1]; simpl in Hfirst.
    + rewrite Hfirst, Hlt.
      apply (Hrec [Sleep RetryBackoff (inject_Z (2 * (Z.of_nat a + 1)))]);
        [reflexivity|reflexivity|]. simpl. rewrite <- app_assoc. reflexivity.
    + apply negb_true_iff in Hfirst. unfold passes_status in Hfirst.
      destruct (status1 =? 429).
      { apply (Hrec [Sleep RateLimitBackoff (inject_Z (5 * (Z.of_nat a + 1)))]);
          [reflexivity|reflexivity|]. simpl. rewrite <- app_assoc. reflexivity. }
      simpl in Hfirst.
      destruct (raise_for_status status1) as [e|] eqn:Hr; [|discriminate Hfirst].
      rewrite (raise_for_status_raises _ _ Hr), Hlt.
      apply (Hrec [Sleep RetryBackoff (inject_Z (2 * (Z.of_nat a + 1)))]);
        [reflexivity|reflexivity|]. simpl. rewrite <- app_assoc. reflexivity.
Qed.

Lemma make_request_usable_body {A} self (respond : nat -> http_outcome A) endpoint
    retry_count w k status_code (body : envelope A) :
  PyStr.truthy (api_key self) = true ->
  (k < Z.to_nat retry_count)%nat ->
  (forall n, (n < k)%nat -> never_passes (respond (requests_sent w + n)%nat) = true) ->
  respond (requests_sent w + k)%nat = GetResponse status_code (inl (JsonObject body)) ->
  passes_status status_code = true ->
  jtruthy (get (error body)) = false ->
  exists w' evs,
    make_request self respond endpoint retry_count w = (inl (Some body), w') /\
    all_songs w' = all_songs w /\
    requests_sent w' = (requests_sent w + S k)%nat /\
    trace w' = trace w ++ evs ++
               [Get (base_url self +:+ "/" +:+ endpoint);
                Sleep RequestDelay (request_delay self)].
Proof.
  intros Hkey Hk Hbefore Hat Hpass Herr. unfold make_request.
  rewrite Hkey, py_range_from_zero.
  apply (attempts_usable_body self respond _ retry_count status_code body Hpass Herr
           k O (Z.to_nat retry_count) w); try assumption. simpl. lia.
Qed.

(** X4: a retry recovers. When the first [k] responses are failures or 429
    and attempts remain, and the next response passes the status check with
    a body whose [error] is not truthy, [make_request] returns that body,
    having sent [k + 1] requests. *)
Theorem make_request_recovers {A : Type} (self : extractor)
    (respond : nat -> http_outcome A) (endpoint : string) (retry_count : Z) (w : world)
    (k : nat) (status_code : Z) (body : envelope A) :
  PyStr.truthy (api_key self) = true ->
  (k < Z.to_nat retry_count)%nat ->
  (forall n, (n < k)%nat -> never_passes (respond (requests_sent w + n)%nat) = true) ->
  respond (requests_sent w + k)%nat = GetResponse status_code (inl (JsonObject body)) ->
  passes_status status_code = true ->
  jtruthy (get (error body)) = false ->
  exists w',
    make_request self respond endpoint retry_count w = (inl (Some body), w') /\
    requests_sent w' = (requests_sent w + S k)%nat.
Proof.
  intros Hkey Hk Hbefore Hat Hpass Herr.
  destruct (make_request_usable_body self respond endpoint retry_count w k status_code body
              Hkey Hk Hbefore Hat Hpass Herr) as (w' & evs & Hrun & _ & Hsent & _).
  exists w'. split; assumption.
Qed.

Lemma make_request_recovers_example :
  exists w',
    make_request (PhishDataExtractor default_api_key) respond_third_time "shows/tiph.json"
                 3 initial_world
    = (inl (Some {| error := Some (JBool false); error_message := Some (JStr "");
                    data := Some []; other_keys := O |}), w') /\
    requests_sent w' = 3%nat.
Proof.
  apply (make_request_recovers (PhishDataExtractor default_api_key) respond_third_time
           "shows/tiph.json" 3 initial_world 2 200).
  - reflexivity.
  - simpl. lia.
  - intros n Hn. destruct n as [|[|n]]; [reflexivity|reflexivity|lia].
  - reflexivity.
  - reflexivity.
  - reflexivity.
Defined.

(** ** Ranges *)

Lemma py_range_nil a b step : 0 < step -> b <= a -> py_range a b step = [].
Proof.
  intros Hstep Hle. unfold py_range.
  replace (0 <? step) with true by (symmetry; apply Z.ltb_lt; exact Hstep).
  assert (H : (b - a + step - 1) / step < 1) by (apply Z.div_lt_upper_bound; lia).
  replace (Z.to_nat ((b - a + step - 1) / step)) with O by lia. reflexivity.
Qed.

Lemma py_range_cons a b step :
  0 < step -> a < b -> py_range a b step = a :: py_range (a + step) b step.
Proof.
  intros Hstep Hlt. unfold py_range.
  replace (0 <? step) with true by (symmetry; apply Z.ltb_lt; exact Hstep).
  replace (b - a + step - 1) with ((b - a - 1) + 1 * step) by lia.
  rewrite Z.div_add by lia.
  replace (b - (a + step) + step - 1) with (b - a - 1) by lia.
  assert (Hq : 0 <= (b - a - 1) / step) by (apply Z.div_pos; lia).
  replace (Z.to_nat ((b - a - 1) / step + 1)) with (S (Z.to_nat ((b - a - 1) / step)))
    by lia.
  cbn [seq map]. f_equal; [lia|].
  rewrite <- seq_shift, map_map. apply map_ext. intros i. lia.
Qed.

Lemma py_range_app a m b :
  a <= m -> m <= b -> py_range a m 1 ++ py_range m b 1 = py_range a b 1.
Proof.
  intros Ham. revert a Ham.
  assert (H : forall n a, Z.of_nat n = m - a ->
                          m <= b -> py_range a m 1 ++ py_range m b 1 = py_range a b 1).
  { induction n as [|n IH]; intros a Hn Hmb.
    - replace a with m by lia. rewrite (py_range_nil m m 1) by lia. reflexivity.
    - rewrite (py_range_cons a m 1), (py_range_cons a b 1) by lia.
      cbn [app]. f_equal. apply IH; lia. }
  intros a Ham Hmb. apply (H (Z.to_nat (m - a))); lia.
Qed.

(** The year batches cover the years of the range, each once, in order. *)
Lemma year_batches_cover e :
  forall n s,
    e + 1 - s <= Z.of_nat n ->
    flat_map (fun year_start =>
                py_range year_start (Z.min (year_start + year_batch_size - 1) e + 1) 1)
             (py_range s (e + 1) year_batch_size)
    = py_range s (e + 1) 1.
Proof.
  unfold year_batch_size.
  induction n as [|n IH]; intros s Hn.
  - rewrite !py_range_nil by lia. reflexivity.
  - destruct (Z_lt_le_dec s (e + 1)) as [Hlt|Hge];
      [|rewrite !py_range_nil by lia; reflexivity].
    rewrite (py_range_cons s (e + 1) 5) by lia. cbn [flat_map].
    rewrite IH by lia.
    destruct (Z_le_gt_dec (s + 5 - 1) e) as [Hfull|Hshort].
    + rewrite Z.min_l by lia. replace (s + 5 - 1 + 1) with (s + 5) by lia.
      apply py_range_app; lia.
    + rewrite Z.min_r by lia. rewrite (py_range_nil (s + 5)) by lia.
      apply app_nil_r.
Qed.

(** ** The catalog fetcher against a server that answers *)

Lemma equals_false_not_truthy v : jeq v (JBool false) = true -> jtruthy v = false.
Proof.
  destruct v as [|b|z|s]; simpl; try discriminate.
  - destruct b; [discriminate | reflexivity].
  - intros ->. reflexivity.
Qed.

Lemma response_data_answer {A} (body : envelope A) items :
  jeq (get (error body)) (JBool false) = true ->
  data body = Some items ->
  response_data (Some body) = Some items.
Proof.
  intros Herr Hdata. unfold response_data, envelope_truthy.
  rewrite Hdata, Herr. destruct (error body), (error_message body); reflexivity.
Qed.

Section Answering.
Variable shows_api : nat -> Z -> http_outcome raw_show.
Variable self : extractor.
Variable catalog : Z -> list raw_show.
Hypothesis Hkey : PyStr.truthy (api_key self) = true.
Hypothesis Hanswers : forall n year, answers (shows_api n year) (catalog year).

Lemma fetch_year_answered all_shows year w :
  exists w',
    fetch_year shows_api self all_shows year w
    = (inl (all_shows ++ List.filter is_phish (catalog year)), w') /\
    requests_sent w' = S (requests_sent w).
Proof.
  destruct (Hanswers (requests_sent w) year) as (status & body & Hat & Hpass & Herr & Hdata).
  unfold fetch_year, bind.
  destruct (make_request_usable_body self (fun n => shows_api n year)
              ("shows/showyear/" +:+ str_of_int year +:+ ".json") default_retry_count
              w O status body Hkey) as (w' & evs & -> & _ & Hsent & _).
  - unfold default_retry_count. simpl. lia.
  - intros n Hn. lia.
  - rewrite Nat.add_0_r. exact Hat.
  - exact Hpass.
  - apply equals_false_not_truthy, Herr.
  - rewrite (response_data_answer body _ Herr Hdata).
    exists w'. split; [|lia].
    destruct (catalog year) as [|show shows]; [rewrite app_nil_r|]; reflexivity.
Qed.

Lemma fetch_years_answered years :
  forall all_shows w,
  exists w',
    foldM (fetch_year shows_api self) years all_shows w
    = (inl (all_shows ++ flat_map (fun year => List.filter is_phish (catalog year)) years),
       w') /\
    requests_sent w' = (requests_sent w + length years)%nat.
Proof.
  induction years as [|year years IH]; intros all_shows w.
  - exists w. cbn [flat_map length]. rewrite app_nil_r, Nat.add_0_r. split; reflexivity.
  - cbn [foldM]. unfold bind.
    destruct (fetch_year_answered all_shows year w) as (w1 & -> & Hsent1).
    destruct (IH (all_shows ++ List.filter is_phish (catalog year)) w1)
      as (w' & -> & Hsent).
    exists w'. cbn [flat_map length]. rewrite <- app_assoc. split; [reflexivity|lia].
Qed.

Lemma fetch_year_batch_answered end_year all_shows year_start w :
  exists w',
    fetch_year_batch shows_api self end_year all_shows year_start w
    = (inl (all_shows ++
            flat_map (fun year => List.filter is_phish (catalog year))
              (py_range year_start
                        (Z.min (year_start + year_batch_size - 1) end_year + 1) 1)),
       w') /\
    requests_sent w'
    = (requests_sent w +
       length (py_range year_start
                        (Z.min (year_start + year_batch_size - 1) end_year + 1) 1))%nat.
Proof.
  unfold fetch_year_batch, bind.
  destruct (fetch_years_answered
              (py_range year_start
                        (Z.min (year_start + year_batch_size - 1) end_year + 1) 1)
              all_shows w) as (w1 & -> & Hsent1).
  destruct (_ <? end_year); unfold sleep, ret; eexists; (split; [reflexivity|]);
    cbn [requests_sent]; exact Hsent1.
Qed.

Lemma fetch_year_batches_answered end_year starts :
  forall all_shows w,
  exists w',
    foldM (fetch_year_batch shows_api self end_year) starts all_shows w
    = (inl (all_shows ++
            flat_map (fun year => List.filter is_phish (catalog year))
              (flat_map (fun year_start =>
                           py_range year_start
                                    (Z.min (year_start + year_batch_size - 1) end_year + 1) 1)
                        starts)),
       w') /\
    requests_sent w'
    = (requests_sent w +
       length (flat_map (fun year_start =>
                           py_range year_start
                                    (Z.min (year_start + year_batch_size - 1) end_year + 1) 1)
                        starts))%nat.
Proof.
  induction starts as [|year_start starts IH]; intros all_shows w.
  - exists w. cbn [flat_map length]. rewrite app_nil_r, Nat.add_0_r. split; reflexivity.
  - cbn [foldM]. unfold bind.
    destruct (fetch_year_batch_answered end_year all_shows year_start w)
      as (w1 & -> & Hsent1).
    destruct (IH (all_shows ++
                  flat_map (fun year => List.filter is_phish (catalog year))
                    (py_range year_start
                              (Z.min (year_start + year_batch_size - 1) end_year + 1) 1))
                 w1) as (w' & -> & Hsent).
    exists w'. cbn [flat_map]. rewrite flat_map_app, length_app, <- app_assoc.
    split; [reflexivity|lia].
Qed.
End Answering.


(** X5: for a year range that is empty, [get_all_shows] returns no show and
    neither sends a request nor pauses. *)
Theorem get_all_shows_empty_range (shows_api : nat -> Z -> http_outcome raw_show)
    (now_year : Z) (self : extractor) (start_year end_year : option Z) (w : world) :
  last_year now_year end_year < first_year start_year ->
  get_all_shows shows_api now_year self start_year end_year w = (inl [], w).
Proof.
  intros Hempty. unfold get_all_shows. fold (first_year start_year).
  fold (last_year now_year end_year).
  rewrite py_range_nil by (unfold year_batch_size; lia). reflexivity.
Qed.

Lemma get_all_shows_empty_range_example :
  get_all_shows example_shows_api 2025 (PhishDataExtractor default_api_key)
                (Some 2026) None initial_world
  = (inl [], initial_world).
Proof.
  apply (get_all_shows_empty_range example_shows_api 2025
           (PhishDataExtractor default_api_key) (Some 2026) None initial_world).
  simpl. lia.
Defined.

(** X6: the year batches only pace the requests. Against a server that
    answers every catalog request, a client with a key asks once for each
    year of the range and returns the Phish shows of all years, in the order
    of the years. *)
Theorem get_all_shows_answered (shows_api : nat -> Z -> http_outcome raw_show)
    (now_year : Z) (self : extractor) (start_year end_year : option Z) (w : world)
    (catalog : Z -> list raw_show) :
  PyStr.truthy (api_key self) = true ->
  (forall n year, answers (shows_api n year) (catalog year)) ->
  let years := py_range (first_year start_year) (last_year now_year end_year + 1) 1 in
  exists w',
    get_all_shows shows_api now_year self start_year end_year w
    = (inl (flat_map (fun year => List.filter is_phish (catalog year)) years), w') /\
    requests_sent w' = (requests_sent w + length years)%nat.
Proof.
  intros Hkey Hanswers. cbv zeta. unfold get_all_shows.
  fold (first_year start_year). fold (last_year now_year end_year).
  destruct (fetch_year_batches_answered shows_api self catalog Hkey Hanswers
              (last_year now_year end_year)
              (py_range (first_year start_year) (last_year now_year end_year + 1)
                        year_batch_size)
              [] w) as (w' & Hrun & Hsent).
  rewrite (year_batches_cover (last_year now_year end_year)
             (Z.to_nat (last_year now_year end_year + 1 - first_year start_year))) in Hrun, Hsent
    by lia.
  exists w'. split; assumption.
Qed.

Lemma example_shows_api_answers :
  forall n year, answers (example_shows_api n year) (example_catalog year).
Proof.
  intros n year. unfold answers. eexists 200, _.
  split; [reflexivity|]. split; [reflexivity|]. split; reflexivity.
Qed.

(** The seven years 2016 to 2022 of the example catalog: seven requests,
    the one Phish show of 2020. *)
Lemma get_all_shows_answered_example :
  exists w',
    get_all_shows example_shows_api 2025 (PhishDataExtractor default_api_key)
                  (Some 2016) (Some 2022) initial_world
    = (inl [example_raw_show 1 "2020-02-20" "Phish"], w') /\
    requests_sent w' = 7%nat.
Proof.
  apply (get_all_shows_answered example_shows_api 2025
           (PhishDataExtractor default_api_key) (Some 2016) (Some 2022) initial_world
           example_catalog eq_refl example_shows_api_answers).
Defined.
(** ** Enrichment: one show for each catalog show, in order *)

Lemma skipn_length_le {A : Type} (n : nat) (xs : list A) :
  (length xs <= n)%nat -> skipn n xs = [].
Proof. apply skipn_all2. Qed.

(** The batches cover the list, each show once, in order. *)
Lemma batches_cover {A : Type} (xs : list A) (size : Z) :
  0 < size ->
  forall n batch_start,
    0 <= batch_start ->
    len xs - batch_start <= Z.of_nat n ->
    flat_map (fun batch_start =>
                slice batch_start (Z.min (batch_start + size) (len xs)) xs)
             (py_range batch_start (len xs) size)
    = skipn (Z.to_nat batch_start) xs.
Proof.
  intros Hsize. unfold len. induction n as [|n IH]; intros b Hb Hn.
  - rewrite py_range_nil by lia. rewrite skipn_all2 by lia. reflexivity.
  - destruct (Z_lt_le_dec b (Z.of_nat (length xs))) as [Hlt|Hge].
    2:{ rewrite py_range_nil by lia. rewrite skipn_all2 by lia. reflexivity. }
    rewrite py_range_cons by lia. cbn [flat_map]. rewrite IH by lia.
    unfold slice.
    destruct (Z_le_gt_dec (b + size) (Z.of_nat (length xs))) as [Hfull|Hshort].
    + rewrite Z.min_l by lia.
      replace (Z.to_nat (b + size)) with ((Z.to_nat (b + size) - Z.to_nat b) + Z.to_nat b)%nat
        at 2 by lia.
      rewrite <- skipn_skipn. apply firstn_skipn.
    + rewrite Z.min_r by lia.
      rewrite (skipn_all2 (n := Z.to_nat (b + size))) by lia.
      rewrite app_nil_r. apply firstn_all2. rewrite length_skipn. lia.
Qed.

Lemma get_all_shows_is_phish shows_api now_year self start_year end_year w shows w' :
  get_all_shows shows_api now_year self start_year end_year w = (inl shows, w') ->
  Forall (fun show => is_phish show = true) shows.
Proof.
  unfold get_all_shows. intros Hrun.
  apply (foldM_invariant only_phish) in Hrun; [exact Hrun| |constructor].
  intros *. apply fetch_year_batch_only_phish.
Qed.

Section Enriching.
Variable setlists_api : nat -> string -> http_outcome setlist_entry.
Variable self : extractor.

(** What one pass of the loop over the shows appends. *)
Lemma enrich_show_appends enriched_shows show w enriched_shows' w' :
  enrich_show setlists_api self enriched_shows show w = (inl enriched_shows', w') ->
  if is_phish show
  then exists enriched,
         enriched_shows' = enriched_shows ++ [enriched] /\
         base_row_of enriched = raw_base_row show /\
         setlist_matches_bag enriched
  else enriched_shows' = enriched_shows.
Proof.
  unfold enrich_show. destruct (is_phish show); cbn [negb].
  2:{ intros [= <- _]. reflexivity. }
  unfold get_show_setlist. unfold bind.
  destruct (make_request (A := setlist_entry) _ _ _ _ w) as [[response|e] w1];
    [|discriminate].
  unfold ret at 1.
  destruct (response_data response) as [[|entry entries]|].
  - intros [= <- _]. eexists. split; [reflexivity|]. split; [reflexivity|].
    left. split; reflexivity.
  - unfold extract_song_features, ret.
    destruct (extract_song_features_from_setlist (all_songs w1) (entry :: entries))
      as [songs bag] eqn:Hext.
    intros [= <- _]. eexists. split; [reflexivity|]. split; [reflexivity|].
    right. exists (entry :: entries), (all_songs w1).
    split; [discriminate|]. split; [reflexivity|]. cbn [song_features snd].
    rewrite Hext. reflexivity.
  - intros [= <- _]. eexists. split; [reflexivity|]. split; [reflexivity|].
    left. split; reflexivity.
Qed.

Lemma enrich_shows_base shows :
  Forall (fun show => is_phish show = true) shows ->
  forall enriched_shows w enriched_shows' w',
    foldM (enrich_show setlists_api self) shows enriched_shows w
    = (inl enriched_shows', w') ->
    map base_row_of enriched_shows'
    = map base_row_of enriched_shows ++ map raw_base_row shows.
Proof.
  induction 1 as [|show shows Hshow Hshows IH]; intros acc w acc' w' Hrun.
  - injection Hrun as <- _. rewrite app_nil_r. reflexivity.
  - cbn [foldM] in Hrun. unfold bind in Hrun.
    destruct (enrich_show setlists_api self acc show w) as [[acc1|e] w1] eqn:Hstep;
      [|discriminate Hrun].
    apply enrich_show_appends in Hstep. rewrite Hshow in Hstep.
    destruct Hstep as (enriched & -> & Hbase & _).
    rewrite (IH _ _ _ _ Hrun), map_app. cbn [map]. rewrite Hbase, <- app_assoc.
    reflexivity.
Qed.

Lemma slice_forall {A : Type} (P : A -> Prop) a b (xs : list A) :
  Forall P xs -> Forall P (slice a b xs).
Proof.
  intros H. unfold slice. apply Forall_take, Forall_drop, H.
Qed.

Lemma process_batches_base shows total_shows starts :
  Forall (fun show => is_phish show = true) shows ->
  forall enriched_shows w enriched_shows' w',
    foldM (process_batch setlists_api self shows total_shows) starts enriched_shows w
    = (inl enriched_shows', w') ->
    map base_row_of enriched_shows'
    = map base_row_of enriched_shows ++
      map raw_base_row
          (flat_map (fun batch_start =>
                       slice batch_start
                             (Z.min (batch_start + batch_size self) total_shows) shows)
                    starts).
Proof.
  intros Hshows. induction starts as [|batch_start starts IH];
    intros acc w acc' w' Hrun.
  - injection Hrun as <- _. rewrite app_nil_r. reflexivity.
  - cbn [foldM] in Hrun. unfold bind in Hrun.
    destruct (process_batch setlists_api self shows total_shows acc batch_start w)
      as [[acc1|e] w1] eqn:Hstep; [|discriminate Hrun].
    unfold process_batch, bind in Hstep.
    destruct (foldM _ _ acc w) as [[acc2|e] w2] eqn:Hloop; [|discriminate Hstep].
    apply enrich_shows_base in Hloop; [|apply slice_forall, Hshows].
    assert (acc1 = acc2) as ->.
    { destruct (_ <? total_shows); unfold sleep, ret in Hstep; congruence. }
    rewrite (IH _ _ _ _ Hrun), Hloop. cbn [flat_map].
    rewrite map_app, <- app_assoc. reflexivity.
Qed.

End Enriching.

(** X7: the batches only pace the requests. When the batch size is
    positive, [extract_all_data] returns one enriched show for each show of
    the catalog, in the order of the catalog, with the twelve descriptive
    fields of the catalog record. *)
Theorem extract_all_data_keeps_order (shows_api : nat -> Z -> http_outcome raw_show)
    (setlists_api : nat -> string -> http_outcome setlist_entry)
    (now_year : Z) (self : extractor) (start_year end_year : option Z)
    (w w1 w' : world) (raw_shows : list raw_show) (shows : list Show) :
  0 < batch_size self ->
  get_all_shows shows_api now_year self start_year end_year w = (inl raw_shows, w1) ->
  extract_all_data shows_api setlists_api now_year self start_year end_year w
  = (inl shows, w') ->
  map base_row_of shows = map raw_base_row raw_shows.
Proof.
  intros Hsize Hcatalog Hrun. unfold extract_all_data, bind in Hrun.
  rewrite Hcatalog in Hrun. apply get_all_shows_is_phish in Hcatalog.
  destruct raw_shows as [|raw raw_shows]; [injection Hrun as <- _; reflexivity|].
  replace (batch_size self =? 0) with false in Hrun by (symmetry; apply Z.eqb_neq; lia).
  apply process_batches_base in Hrun; [|exact Hcatalog].
  rewrite Hrun. cbn [map app]. f_equal.
  change (Z.of_nat (length (raw :: raw_shows))) with (len (raw :: raw_shows)).
  rewrite (batches_cover (raw :: raw_shows) (batch_size self) Hsize
             (length (raw :: raw_shows)) 0) by (unfold len; lia).
  reflexivity.
Qed.

Lemma extract_all_data_keeps_order_example :
  let run := extract_all_data example_shows_api example_setlists_api 2025
               (PhishDataExtractor default_api_key) (Some 2020) (Some 2020) initial_world in
  exists shows w',
    run = (inl shows, w') /\
    map base_row_of shows = [raw_base_row (example_raw_show 1 "2020-02-20" "Phish")].
Proof.
  cbv zeta.
  destruct (extract_all_data example_shows_api example_setlists_api 2025
              (PhishDataExtractor default_api_key) (Some 2020) (Some 2020) initial_world)
    as [result w'] eqn:Hrun.
  assert (Hresult : exists shows, result = inl shows).
  { vm_compute in Hrun. injection Hrun as <- _. eexists. reflexivity. }
  destruct Hresult as [shows ->]. exists shows, w'. split; [reflexivity|].
  apply (extract_all_data_keeps_order example_shows_api example_setlists_api 2025
           (PhishDataExtractor default_api_key) (Some 2020) (Some 2020)
           initial_world
           (snd (get_all_shows example_shows_api 2025 (PhishDataExtractor default_api_key)
                   (Some 2020) (Some 2020) initial_world))
           w' [example_raw_show 1 "2020-02-20" "Phish"] shows).
  - simpl. lia.
  - vm_compute. reflexivity.
  - exact Hrun.
Defined.



(** ** The feature bag in closed form *)

Lemma existsb_first_occurrences k keys :
  existsb (String.eqb k) (first_occurrences keys) = existsb (String.eqb k) keys.
Proof. apply eq_true_iff_eq. rewrite !existsb_eqb_in. apply first_occurrences_in. Qed.

Lemma existsb_eqb_false k (keys : list string) :
  existsb (String.eqb k) keys = false <-> ~ In k keys.
Proof.
  rewrite <- existsb_eqb_in. destruct (existsb (String.eqb k) keys); split;
    congruence.
Qed.

(** Setting the value of [k] in a table over the first occurrences of
    [keys] gives the table over the first occurrences of [keys ++ [k]]. *)
Lemma dict_set_tabulate_snoc {V : Type} (value value' : string -> V) keys k v :
  value' k = v ->
  (forall key, key <> k -> value' key = value key) ->
  dict_set k v (tabulate value (first_occurrences keys))
  = tabulate value' (first_occurrences (keys ++ [k])).
Proof.
  intros <- Hother. unfold tabulate.
  rewrite dict_set_tabulate_old by apply first_occurrences_nodup.
  rewrite first_occurrences_snoc, existsb_first_occurrences.
  destruct (existsb (String.eqb k) keys) eqn:Hin.
  - apply map_ext. intros key. destruct (String.eqb key k) eqn:E.
    + apply String.eqb_eq in E. subst. reflexivity.
    + apply String.eqb_neq in E. rewrite Hother by exact E. reflexivity.
  - rewrite map_app. cbn [map]. f_equal. apply map_ext_in. intros key Hkey.
    rewrite Hother; [reflexivity|]. intros ->.
    apply (proj1 (first_occurrences_in _ _)) in Hkey.
    apply (proj1 (existsb_eqb_false _ _)) in Hin. contradiction.
Qed.

Lemma dict_get_tabulate_first {V : Type} (value : string -> V) keys k :
  dict_get k (tabulate value (first_occurrences keys))
  = if existsb (String.eqb k) keys then Some (value k) else None.
Proof. unfold tabulate. rewrite dict_get_tabulate. rewrite existsb_first_occurrences. reflexivity. Qed.

Lemma dict_get_default_tabulate {V : Type} (dflt : V) (value : string -> V) keys k :
  (~ In k keys -> value k = dflt) ->
  dict_get_default dflt k (tabulate value (first_occurrences keys)) = value k.
Proof.
  intros Habsent. unfold dict_get_default. rewrite dict_get_tabulate_first.
  destruct (existsb (String.eqb k) keys) eqn:Hin; [reflexivity|].
  symmetry. apply Habsent, existsb_eqb_false, Hin.
Qed.

Lemma filter_eqb_absent k (keys : list string) :
  ~ In k keys -> List.filter (String.eqb k) keys = [].
Proof.
  induction keys as [|key keys IH]; [reflexivity|]. cbn [List.filter]. intros Hnot.
  destruct (String.eqb k key) eqn:E.
  - exfalso. apply Hnot. left. symmetry. apply String.eqb_eq, E.
  - apply IH. intros H. apply Hnot. right. exact H.
Qed.

Lemma times_absent name names : ~ In name names -> times name names = 0.
Proof. intros H. unfold times. rewrite filter_eqb_absent by exact H. reflexivity. Qed.

Lemma times_snoc name names other :
  times name (names ++ [other])
  = times name names + (if String.eqb name other then 1 else 0).
Proof.
  unfold times, len. rewrite List.filter_app, length_app. cbn [List.filter].
  destruct (String.eqb name other); cbn [length]; lia.
Qed.

Lemma songs_of_set_absent label entries :
  ~ In label (labels_played entries) -> songs_of_set label entries = [].
Proof.
  unfold songs_of_set, labels_played.
  induction (List.filter kept entries) as [|e es IH]; [reflexivity|].
  cbn [map List.filter]. intros Hnot.
  destruct (String.eqb (entry_label e) label) eqn:E.
  - exfalso. apply Hnot. left. apply String.eqb_eq, E.
  - apply IH. intros H. apply Hnot. right. exact H.
Qed.

Lemma kept_extract_entry all_songs features entry :
  extract_entry (all_songs, features) entry
  = if kept entry
    then (all_songs ∪ {[ entry_song_name entry ]},
          {| songs_played := songs_played features ++ [entry_song_name entry];
             song_counts :=
               dict_set (entry_song_name entry)
                        (dict_get_default 0 (entry_song_name entry) (song_counts features) + 1)
                        (song_counts features);
             set_positions :=
               dict_set (entry_song_name entry) (get_or (entry_position entry) 0)
                        (set_positions features);
             has_segues :=
               dict_set (entry_song_name entry)
                        (segue_marked (get_or (entry_segue entry) ""))
                        (has_segues features);
             set_info :=
               dict_set (entry_label entry)
                        (dict_get_default [] (entry_label entry) (set_info features)
                         ++ [entry_song_name entry])
                        (set_info features) |})
    else (all_songs, features).
Proof. reflexivity. Qed.

(** One pass of the loop takes the closed form of the entries so far to the
    closed form with the entry added. *)
Lemma extract_entry_bag_of entries entry :
  snd (extract_entry (∅, bag_of entries) entry) = bag_of (entries ++ [entry]).
Proof.
  rewrite kept_extract_entry. unfold bag_of, names_played, labels_played, last_played,
    songs_of_set.
  rewrite !List.filter_app. cbn [List.filter].
  destruct (kept entry) eqn:Hkept; [|rewrite !app_nil_r; reflexivity].
  cbn [snd songs_played song_counts set_positions has_segues set_info].
  set (played := List.filter kept entries).
  rewrite !map_app. cbn [map].
  set (name := entry_song_name entry). set (label := entry_label entry).
  f_equal.
  - rewrite rev_app_distr. cbn [rev app].
    apply (dict_set_tabulate_snoc
             (fun key => position_or_zero
                           (List.find (fun e => String.eqb (entry_song_name e) key) (rev played)))
             (fun key => position_or_zero
                           (List.find (fun e => String.eqb (entry_song_name e) key)
                                      (entry :: rev played)))
             (map entry_song_name played) name).
    + cbn [List.find]. fold name. rewrite String.eqb_refl. reflexivity.
    + intros key Hkey. cbn [List.find]. fold name.
      destruct (String.eqb name key) eqn:E; [|reflexivity].
      apply String.eqb_eq in E. congruence.
  - rewrite dict_get_default_tabulate by apply times_absent.
    apply (dict_set_tabulate_snoc
             (fun key => times key (map entry_song_name played))
             (fun key => times key (map entry_song_name played ++ [name]))).
    + rewrite times_snoc, String.eqb_refl. reflexivity.
    + intros key Hkey. rewrite times_snoc.
      destruct (String.eqb key name) eqn:E; [apply String.eqb_eq in E; congruence|lia].
  - rewrite rev_app_distr. cbn [rev app].
    apply (dict_set_tabulate_snoc
             (fun key => segue_or_false
                           (List.find (fun e => String.eqb (entry_song_name e) key) (rev played)))
             (fun key => segue_or_false
                           (List.find (fun e => String.eqb (entry_song_name e) key)
                                      (entry :: rev played)))
             (map entry_song_name played) name).
    + cbn [List.find]. fold name. rewrite String.eqb_refl. reflexivity.
    + intros key Hkey. cbn [List.find]. fold name.
      destruct (String.eqb name key) eqn:E; [|reflexivity].
      apply String.eqb_eq in E. congruence.
  - rewrite (dict_get_default_tabulate []
               (fun key => map entry_song_name
                             (List.filter (fun e => String.eqb (entry_label e) key) played))
               (map entry_label played) label)
      by apply songs_of_set_absent.
    apply (dict_set_tabulate_snoc
             (fun key => map entry_song_name
                           (List.filter (fun e => String.eqb (entry_label e) key) played))
             (fun key => map entry_song_name
                           (List.filter (fun e => String.eqb (entry_label e) key)
                                        (played ++ [entry])))
             (map entry_label played) label).
    + rewrite List.filter_app, map_app. cbn [List.filter]. fold label.
      rewrite String.eqb_refl. reflexivity.
    + intros key Hkey. rewrite List.filter_app. cbn [List.filter]. fold label.
      destruct (String.eqb label key) eqn:E; [apply String.eqb_eq in E; congruence|].
      rewrite app_nil_r. reflexivity.
Qed.

Lemma extract_entry_songs all_songs features entry :
  extract_entry (all_songs, features) entry
  = (all_songs ∪ (if kept entry then {[ entry_song_name entry ]} else ∅),
     snd (extract_entry (∅, features) entry)).
Proof.
  rewrite !kept_extract_entry. destruct (kept entry); cbn [snd]; f_equal.
  symmetry. apply union_empty_r_L.
Qed.

Lemma names_played_snoc entries entry :
  names_played (entries ++ [entry])
  = names_played entries ++ (if kept entry then [entry_song_name entry] else []).
Proof.
  unfold names_played. rewrite List.filter_app, map_app. cbn [List.filter].
  destruct (kept entry); reflexivity.
Qed.

(** The extractor computes the closed form, and adds the recorded names to
    the song set. *)
Lemma extract_song_features_bag_of all_songs entries :
  extract_song_features_from_setlist all_songs entries
  = (all_songs ∪ list_to_set (names_played entries), bag_of entries).
Proof.
  unfold extract_song_features_from_setlist.
  induction entries as [|entry entries IH] using rev_ind.
  - cbn [fold_left]. f_equal. symmetry. apply union_empty_r_L.
  - rewrite fold_left_app. cbn [fold_left]. rewrite IH, extract_entry_songs.
    rewrite extract_entry_bag_of. f_equal.
    rewrite names_played_snoc, list_to_set_app_L.
    destruct (kept entry); cbn [list_to_set]; rewrite !union_empty_r_L;
      [symmetry; apply (assoc_L (∪))|reflexivity].
Qed.

Lemma names_played_kept entries name :
  In name (names_played entries) ->
  name <> "" /\ name <> "Unknown Song" /\ PyStr.strip name = name.
Proof.
  unfold names_played. rewrite in_map_iff. intros (entry & <- & Hin).
  apply List.filter_In in Hin as [_ Hkept]. unfold kept in Hkept.
  apply andb_true_iff in Hkept as [Htruthy Hknown]. split; [|split].
  - intros E. rewrite E in Htruthy. discriminate Htruthy.
  - intros E. rewrite E in Hknown. discriminate Hknown.
  - unfold entry_song_name. apply strip_idempotent.
Qed.

(** X9: the bag lists in [songs_played] the stripped song names of the
    entries, in the order of the entries, leaving out the entries whose
    stripped name is empty or "Unknown Song"; and the call adds exactly these
    names to [all_songs]. *)
Theorem extract_song_features_songs_played (all_songs : gset string)
    (setlist_data : list setlist_entry) :
  let result := extract_song_features_from_setlist all_songs setlist_data in
  songs_played (snd result) = map entry_song_name (List.filter kept setlist_data) /\
  fst result = all_songs ∪ list_to_set (songs_played (snd result)) /\
  forall name,
    In name (songs_played (snd result)) ->
    name <> "" /\ name <> "Unknown Song" /\ PyStr.strip name = name.
Proof.
  cbv zeta. rewrite extract_song_features_bag_of. cbn [fst snd bag_of songs_played].
  split; [reflexivity|]. split; [reflexivity|].
  intros name. apply names_played_kept.
Qed.

Lemma extract_song_features_songs_played_example :
  let result := extract_song_features_from_setlist {[ "Free" ]} example_setlist in
  songs_played (snd result) = ["Tweezer"; "Mike's Song"; "Tweezer"] /\
  fst result = {[ "Free" ]} ∪ list_to_set ["Tweezer"; "Mike's Song"; "Tweezer"].
Proof.
  destruct (extract_song_features_songs_played {[ "Free" ]} example_setlist)
    as (Hplayed & Hsongs & _).
  cbv zeta. rewrite Hsongs, Hplayed. split; reflexivity.
Defined.

Lemma sum_cons z zs : sum (z :: zs) = z + sum zs.
Proof. reflexivity. Qed.

Lemma sum_map_add {A : Type} (f g : A -> Z) xs :
  sum (map (fun x => f x + g x) xs) = sum (map f xs) + sum (map g xs).
Proof.
  induction xs as [|x xs IH]; [reflexivity|]. cbn [map]. rewrite !sum_cons, IH. lia.
Qed.

Lemma sum_map_zero {A : Type} (f : A -> Z) xs :
  (forall x, In x xs -> f x = 0) -> sum (map f xs) = 0.
Proof.
  induction xs as [|x xs IH]; [reflexivity|]. intros H. cbn [map]. rewrite sum_cons.
  rewrite (H x) by (left; reflexivity). rewrite IH; [reflexivity|].
  intros y Hy. apply H. right. exact Hy.
Qed.

Lemma sum_indicator k keys :
  List.NoDup keys -> In k keys ->
  sum (map (fun key => if String.eqb k key then 1 else 0) keys) = 1.
Proof.
  induction 1 as [|key keys Hnotin Hnodup IH]; [intros []|].
  cbn [map]. rewrite sum_cons. intros [->|Hin].
  - rewrite String.eqb_refl.
    rewrite sum_map_zero; [reflexivity|]. intros key Hkey.
    destruct (String.eqb k key) eqn:E; [|reflexivity].
    apply String.eqb_eq in E. subst. contradiction.
  - destruct (String.eqb k key) eqn:E.
    + apply String.eqb_eq in E. subst. contradiction.
    + rewrite IH by exact Hin. reflexivity.
Qed.

(** Sorting a list under the keys of a duplicate-free list that has every
    key loses nothing and counts nothing twice. *)
Lemma partition_total {A : Type} (key : A -> string) (xs : list A) (keys : list string) :
  List.NoDup keys ->
  (forall x, In x xs -> In (key x) keys) ->
  sum (map (fun k => len (List.filter (fun x => String.eqb (key x) k) xs)) keys)
  = len xs.
Proof.
  intros Hnodup. induction xs as [|x xs IH]; intros Hkeys.
  - apply sum_map_zero. reflexivity.
  - rewrite (map_ext _ (fun k => (if String.eqb (key x) k then 1 else 0)
                                 + len (List.filter (fun x => String.eqb (key x) k) xs))).
    2:{ intros k. cbn [List.filter]. unfold len.
        destruct (String.eqb (key x) k); cbn [length]; lia. }
    rewrite sum_map_add, IH by (intros y Hy; apply Hkeys; right; exact Hy).
    rewrite sum_indicator; [unfold len; cbn [length]; lia|exact Hnodup|].
    apply Hkeys. left. reflexivity.
Qed.

Lemma dict_values_tabulate {V : Type} (value : string -> V) keys :
  dict_values (tabulate value keys) = map value keys.
Proof. unfold dict_values, tabulate. rewrite map_map. reflexivity. Qed.

Lemma dict_keys_tabulate {V : Type} (value : string -> V) keys :
  dict_keys (tabulate value keys) = keys.
Proof. unfold dict_keys, tabulate. rewrite map_map. apply map_id. Qed.

(** X10: [song_counts] has one key for each distinct recorded name, in the
    order in which the names first occur; the count of a name is the number
    of times it occurs in [songs_played] (0 for a name that is no key), so
    the counts add up to the length of [songs_played]. *)
Theorem extract_song_features_song_counts (all_songs : gset string)
    (setlist_data : list setlist_entry) :
  let bag := snd (extract_song_features_from_setlist all_songs setlist_data) in
  dict_keys (song_counts bag) = first_occurrences (songs_played bag) /\
  (forall name,
      dict_get_default 0 name (song_counts bag) = times name (songs_played bag) /\
      (dict_has name (song_counts bag) = true <-> In name (songs_played bag))) /\
  sum (dict_values (song_counts bag)) = len (songs_played bag).
Proof.
  cbv zeta. rewrite extract_song_features_bag_of.
  cbn [snd bag_of songs_played song_counts].
  split; [apply dict_keys_tabulate|]. split.
  - intros name. split.
    { apply (dict_get_default_tabulate 0
               (fun name => times name (names_played setlist_data))).
      apply times_absent. }
    unfold dict_has. rewrite dict_get_tabulate_first, <- existsb_eqb_in.
    destruct (existsb (String.eqb name) (names_played setlist_data)); split; congruence.
  - rewrite dict_values_tabulate. unfold times.
    rewrite (map_ext _ (fun k => len (List.filter (fun x => String.eqb x k)
                                                  (names_played setlist_data)))).
    2:{ intros k. f_equal. apply List.filter_ext. intros x. apply String.eqb_sym. }
    apply (partition_total (fun x => x)); [apply first_occurrences_nodup|].
    intros x Hx. apply first_occurrences_in, Hx.
Qed.

Lemma extract_song_features_song_counts_example :
  let bag := snd (extract_song_features_from_setlist ∅ example_setlist) in
  dict_keys (song_counts bag) = ["Tweezer"; "Mike's Song"] /\
  dict_get_default 0 "Tweezer" (song_counts bag) = 2 /\
  sum (dict_values (song_counts bag)) = 3.
Proof.
  destruct (extract_song_features_song_counts ∅ example_setlist)
    as (Hkeys & Hcounts & Htotal).
  cbv zeta. rewrite Hkeys, Htotal, (proj1 (Hcounts "Tweezer")).
  split; [|split]; reflexivity.
Defined.

(** X11: [set_info] has one key for each set label with a recorded song, in
    the order in which the labels first occur; under a label it lists the
    recorded names of the entries of that set, in the order of the entries.
    The lengths of the lists add up to the length of [songs_played]. *)
Theorem extract_song_features_set_info (all_songs : gset string)
    (setlist_data : list setlist_entry) :
  let bag := snd (extract_song_features_from_setlist all_songs setlist_data) in
  let recorded := List.filter kept setlist_data in
  dict_keys (set_info bag) = first_occurrences (map entry_label recorded) /\
  (forall label,
      dict_get_default [] label (set_info bag)
      = map entry_song_name
            (List.filter (fun entry => String.eqb (entry_label entry) label) recorded)) /\
  sum (map len (dict_values (set_info bag))) = len (songs_played bag).
Proof.
  cbv zeta. rewrite extract_song_features_bag_of.
  cbn [snd bag_of songs_played set_info].
  split; [apply dict_keys_tabulate|]. split.
  - intros label. apply (dict_get_default_tabulate [] (fun label => songs_of_set label setlist_data)).
    apply songs_of_set_absent.
  - rewrite dict_values_tabulate, map_map. unfold songs_of_set, names_played, labels_played.
    unfold len at 2. rewrite length_map.
    rewrite (map_ext _ (fun k => len (List.filter (fun e => String.eqb (entry_label e) k)
                                                  (List.filter kept setlist_data)))).
    2:{ intros k. unfold len. rewrite length_map. reflexivity. }
    apply (partition_total entry_label); [apply first_occurrences_nodup|].
    intros e He. apply first_occurrences_in, in_map, He.
Qed.

Lemma extract_song_features_set_info_example :
  let bag := snd (extract_song_features_from_setlist ∅ example_setlist) in
  dict_keys (set_info bag) = ["Set 1"; "Encore"] /\
  dict_get_default [] "Set 1" (set_info bag) = ["Tweezer"; "Mike's Song"] /\
  sum (map len (dict_values (set_info bag))) = 3.
Proof.
  destruct (extract_song_features_set_info ∅ example_setlist)
    as (Hkeys & Hsongs & Htotal).
  cbv zeta. rewrite Hkeys, Htotal, (Hsongs "Set 1").
  split; [|split]; reflexivity.
Defined.

Lemma find_app_none {A : Type} (f : A -> bool) xs ys :
  (forall x, In x xs -> f x = false) -> List.find f (xs ++ ys) = List.find f ys.
Proof.
  induction xs as [|x xs IH]; [reflexivity|]. intros H. cbn [app List.find].
  rewrite (H x) by (left; reflexivity). apply IH. intros y Hy. apply H. right. exact Hy.
Qed.

Lemma last_played_split before entry after :
  kept entry = true ->
  (forall later, In later after -> kept later = true ->
                 entry_song_name later <> entry_song_name entry) ->
  last_played (entry_song_name entry) (before ++ entry :: after) = Some entry.
Proof.
  intros Hkept Hlater. unfold last_played.
  rewrite List.filter_app. cbn [List.filter]. rewrite Hkept.
  rewrite rev_app_distr. cbn [rev]. rewrite <- !app_assoc. cbn [app].
  rewrite find_app_none.
  - cbn [List.find]. rewrite String.eqb_refl. reflexivity.
  - intros later Hin. apply in_rev, List.filter_In in Hin as [Hin Hk].
    apply String.eqb_neq, Hlater; assumption.
Qed.

(** X12: the last occurrence wins. For an entry that is recorded and after
    which no recorded entry has the same stripped name, [set_positions] holds
    its position (0 when it has none) and [has_segues] tells whether its
    segue has a character that is no white space. *)
Theorem extract_song_features_last_occurrence (all_songs : gset string)
    (before after : list setlist_entry) (entry : setlist_entry) :
  kept entry = true ->
  (forall later, In later after -> kept later = true ->
                 entry_song_name later <> entry_song_name entry) ->
  let bag := snd (extract_song_features_from_setlist all_songs (before ++ entry :: after)) in
  dict_get (entry_song_name entry) (set_positions bag)
  = Some (get_or (entry_position entry) 0) /\
  dict_get (entry_song_name entry) (has_segues bag)
  = Some (segue_marked (get_or (entry_segue entry) "")).
Proof.
  intros Hkept Hlater. cbv zeta. rewrite extract_song_features_bag_of.
  cbn [snd bag_of set_positions has_segues].
  rewrite !dict_get_tabulate_first, (last_played_split before entry after Hkept Hlater).
  assert (Hin : existsb (String.eqb (entry_song_name entry))
                        (names_played (before ++ entry :: after)) = true).
  { apply existsb_eqb_in. unfold names_played. apply in_map, List.filter_In.
    split; [|exact Hkept]. apply in_or_app. right. left. reflexivity. }
  rewrite Hin. split; reflexivity.
Qed.

Lemma extract_song_features_last_occurrence_example :
  let bag := snd (extract_song_features_from_setlist
                    ∅ ([example_entry "Set 1" "Tweezer" 1 ">"]
                       ++ example_entry "Encore" " Tweezer " 7 "" :: [])) in
  dict_get "Tweezer" (set_positions bag) = Some 7 /\
  dict_get "Tweezer" (has_segues bag) = Some false.
Proof.
  apply (extract_song_features_last_occurrence
           ∅ [example_entry "Set 1" "Tweezer" 1 ">"]
           [] (example_entry "Encore" " Tweezer " 7 "")).
  - reflexivity.
  - intros later [].
Defined.
(** ** One set of the string *)

(** X13: the line the formatter writes for a set is the label, a colon and
    the songs joined by ", ", the songs in ascending position and songs of
    equal position in the order in which they were added. There is a list
    with these two properties, and whatever list has them, the formatter
    writes the songs in its order. *)
Theorem format_set_stable_sort (set_name : string) (songs : list (Z * string)) :
  (exists sorted, stable_sort_of songs sorted) /\
  (forall sorted,
      stable_sort_of songs sorted ->
      format_set (set_name, songs)
      = set_name +:+ ": " +:+ PyStr.join ", " (map snd sorted)).
Proof.
  split.
  - exists (sort_by_key songs). apply sort_by_key_stable.
  - intros sorted Hsorted. unfold format_set. cbv zeta.
    rewrite <- (sort_by_key_unique songs sorted Hsorted). reflexivity.
Qed.

Lemma format_set_stable_sort_example :
  format_set ("Set 2", [(2, "Divided Sky"); (1, "Tweezer"); (2, "Free")])
  = "Set 2: Tweezer, Divided Sky, Free".
Proof.
  apply (proj2 (format_set_stable_sort
                  "Set 2" [(2, "Divided Sky"); (1, "Tweezer"); (2, "Free")])
               [(1, "Tweezer"); (2, "Divided Sky"); (2, "Free")]).
  split.
  - cbn [map fst ascending]. repeat split; intros later Hlater; cbn [In] in Hlater;
      intuition lia.
  - intros position. unfold at_position. cbn [List.filter fst].
    destruct (2 =? position) eqn:E2, (1 =? position) eqn:E1; try reflexivity. lia.
Defined.
(** ** The rows of the parser *)

(** The rows of one piece between commas. *)
Lemma parse_raw_song_row label position raw row :
  lacks "," raw = true -> lacks "|" raw = true ->
  In row (parse_raw_song label position raw) ->
  set_name row = label /\ song_position row = position /\
  (song_name row <> "" /\
   PyStr.strip (song_name row) = song_name row /\
   lacks ">" (song_name row) = true /\
   lacks "," (song_name row) = true /\
   lacks "|" (song_name row) = true) /\
  segue_info row = (if has_segue row then ">" else "").
Proof.
  intros Hcomma Hbar. unfold parse_raw_song. cbv zeta. rewrite contains_char.
  destruct (lacks ">" (PyStr.strip raw)) eqn:Hgt; cbn [negb].
  - rewrite contains_arrow by exact Hgt.
    destruct (PyStr.truthy (PyStr.strip raw)) eqn:Htruthy; [|intros []].
    intros [<-|[]]. cbn [set_name song_position song_name has_segue segue_info].
    split; [reflexivity|]. split; [reflexivity|]. split; [|reflexivity].
    split; [apply truthy_not_empty, Htruthy|]. split; [apply strip_idempotent|].
    split; [exact Hgt|]. split; apply strip_all_chars; assumption.
  - destruct (PyStr.truthy (PyStr.strip (PyStr.replace ">" "" (PyStr.strip raw))))
      eqn:Htruthy; [|intros []].
    intros [<-|[]]. cbn [set_name song_position song_name has_segue segue_info].
    split; [reflexivity|]. split; [reflexivity|]. split; [|reflexivity].
    split; [apply truthy_not_empty, Htruthy|]. split; [apply strip_idempotent|].
    split; [apply strip_all_chars, replace_char_removes|].
    split; apply strip_all_chars, replace_char_all_chars, strip_all_chars; assumption.
Qed.

Lemma enumerate_in {A : Type} (xs : list A) :
  forall start position x,
    In (position, x) (enumerate start xs) -> start <= position /\ In x xs.
Proof.
  induction xs as [|y xs IH]; intros start position x; [intros []|].
  cbn [enumerate]. intros [H|H].
  - injection H as <- <-. split; [lia|left; reflexivity].
  - apply IH in H as [Hle Hin]. split; [lia|right; exact Hin].
Qed.

Lemma parse_set_info_rows chunk row :
  lacks "|" chunk = true -> In row (parse_set_info chunk) -> well_formed_row row.
Proof.
  intros Hbar. unfold parse_set_info. cbv zeta.
  destruct (PyStr.contains ":" (PyStr.strip chunk)); [|intros []].
  destruct (PyStr.split1 ":" (PyStr.strip chunk)) as [|label [|song_list [|]]] eqn:Hsplit;
    try (intros []).
  assert (Hstripped : lacks "|" (PyStr.strip chunk) = true)
    by (apply strip_all_chars, Hbar).
  assert (Hlabel : lacks "|" label = true).
  { apply (split1_all_chars _ ":" (PyStr.strip chunk)); [exact Hstripped|].
    rewrite Hsplit. left. reflexivity. }
  assert (Hsongs : lacks "|" song_list = true).
  { apply (split1_all_chars _ ":" (PyStr.strip chunk)); [exact Hstripped|].
    rewrite Hsplit. right. left. reflexivity. }
  apply split1_head_lacks in Hsplit.
  intros Hin. apply in_flat_map in Hin as ([position raw] & Hraw & Hrow).
  apply enumerate_in in Hraw as [Hposition Hraw].
  apply parse_raw_song_row in Hrow as (Hset & Hpos & Hname & Hsegue).
  - unfold well_formed_row. rewrite Hset, Hpos. split; [exact Hname|].
    split; [|split; [exact Hposition|exact Hsegue]].
    split; [apply strip_idempotent|]. split; apply strip_all_chars; assumption.
  - apply (split_pieces_lack "," song_list), Hraw.
  - apply (split_all_chars _ "," song_list); assumption.
Qed.

(** X14: every row the parser returns has a song name that is not empty,
    is stripped and has none of ">", "," and "|"; a set name that is
    stripped and has neither ":" nor "|"; a position of at least 1; and the
    segue marker ">" when it has a segue, the empty string when not (the
    marker "->" is never reported). *)
Theorem parse_setlist_for_ml_rows (setlist_string : string) (row : song_row) :
  In row (parse_setlist_for_ml setlist_string) -> well_formed_row row.
Proof.
  unfold parse_setlist_for_ml. destruct (negb (PyStr.truthy setlist_string)); [intros []|].
  intros Hin. apply in_flat_map in Hin as (chunk & Hchunk & Hrow).
  apply (parse_set_info_rows chunk); [|exact Hrow].
  apply (split_pieces_lack "|" setlist_string), Hchunk.
Qed.

Lemma parse_setlist_for_ml_rows_example :
  well_formed_row {| set_name := "Set 1"; song_position := 2; song_name := "Free -";
                     has_segue := true; segue_info := ">" |}.
Proof.
  apply (parse_setlist_for_ml_rows "Set 1: Tweezer, Free -> , | Encore: Cavern").
  vm_compute. right. left. reflexivity.
Defined.

Lemma flat_map_all_nil {A B : Type} (f : A -> list B) xs :
  (forall x, In x xs -> f x = []) -> flat_map f xs = [].
Proof.
  induction xs as [|x xs IH]; [reflexivity|]. intros H. cbn [flat_map].
  rewrite (H x) by (left; reflexivity). apply IH. intros y Hy. apply H. right. exact Hy.
Qed.

(** X15: a setlist string without ":" gives no row, whatever else it
    holds. *)
Theorem parse_setlist_for_ml_needs_colon (setlist_string : string) :
  lacks ":" setlist_string = true -> parse_setlist_for_ml setlist_string = [].
Proof.
  intros Hcolon. unfold parse_setlist_for_ml.
  destruct (negb (PyStr.truthy setlist_string)); [reflexivity|].
  apply flat_map_all_nil. intros chunk Hchunk. unfold parse_set_info. cbv zeta.
  rewrite contains_char.
  replace (lacks ":" (PyStr.strip chunk)) with true; [reflexivity|].
  symmetry. apply strip_all_chars. apply (split_all_chars _ "|" setlist_string); assumption.
Qed.

Lemma parse_setlist_for_ml_needs_colon_example :
  parse_setlist_for_ml "Tweezer > , Free | Cavern" = [].
Proof.
  apply (parse_setlist_for_ml_needs_colon "Tweezer > , Free | Cavern"). reflexivity.
Defined.
(** ** The long export, row by row *)

(** X16: every row of the long export belongs to a show of the input and
    carries its twelve descriptive fields; it is the blank row when the
    show's setlist string is empty and a well-formed song row of the parsed
    setlist string when not. So the rows with position 0 are exactly the
    blank rows. *)
Theorem ml_rows_song_or_blank (data : list Show) (row : ml_row) :
  In row (ml_rows data) ->
  (exists show, In show data /\ row_of_show row show) /\
  (song_position (ml_song row) = 0 <-> ml_song row = blank_song_row).
Proof.
  unfold ml_rows. intros Hin. apply in_flat_map in Hin as (show & Hshow & Hrow).
  assert (Hof : row_of_show row show).
  { unfold ml_rows_of_show in Hrow. cbv zeta in Hrow.
    destruct (PyStr.truthy (setlist show)) eqn:Htruthy.
    - apply in_map_iff in Hrow as (song & <- & Hsong). split; [reflexivity|].
      right. cbn [ml_song]. split; [apply truthy_not_empty, Htruthy|].
      split; [exact Hsong|].
      unfold parse_setlist_for_ml in Hsong. rewrite Htruthy in Hsong. cbn [negb] in Hsong.
      apply in_flat_map in Hsong as (chunk & Hchunk & Hsong).
      apply (parse_set_info_rows chunk); [|exact Hsong].
      apply (split_pieces_lack "|" (setlist show)), Hchunk.
    - destruct Hrow as [<-|[]]. split; [reflexivity|]. left. split; [|reflexivity].
      destruct (setlist show); [reflexivity|discriminate Htruthy]. }
  split; [exists show; split; assumption|].
  destruct Hof as [_ [[_ Hblank]|(_ & _ & Hwell)]].
  - rewrite Hblank. split; reflexivity.
  - destruct Hwell as (_ & _ & Hposition & _). split; [lia|].
    intros Hblank. rewrite Hblank in Hposition. cbn in Hposition. lia.
Qed.

Lemma ml_rows_song_or_blank_example :
  let row := {| ml_base := base_row_of show_without_setlist; ml_song := blank_song_row |} in
  (exists show, In show [show_with_repeat; show_without_setlist] /\ row_of_show row show) /\
  (song_position (ml_song row) = 0 <-> ml_song row = blank_song_row).
Proof.
  apply (ml_rows_song_or_blank [show_with_repeat; show_without_setlist]).
  unfold ml_rows. apply in_flat_map. exists show_without_setlist.
  split; [right; left; reflexivity|]. left. reflexivity.
Defined.

(** ** The formatted setlist is empty only for no entries *)

Lemma join_cons_truthy sep piece pieces :
  PyStr.truthy piece = true -> PyStr.truthy (PyStr.join sep (piece :: pieces)) = true.
Proof.
  intros H. unfold PyStr.join. cbn [String.concat]. destruct pieces; [exact H|].
  change (PyStr.truthy (piece +:+ (sep +:+ String.concat sep (s :: pieces))) = true).
  rewrite truthy_append, H. reflexivity.
Qed.

Lemma format_set_truthy item : PyStr.truthy (format_set item) = true.
Proof.
  destruct item as [label songs]. unfold format_set. cbv zeta.
  rewrite !truthy_append. cbn. apply orb_true_r.
Qed.

(** X17: for setlist entries as the API documents them (set, song and
    segue each a string or missing, position an integer or missing), the
    formatted setlist is the empty string for an empty list of entries
    only: one such entry already gives a string that is not empty, so a
    show with setlist data never counts as a show without. Entries with a
    JSON [null] or a value of another type in a member are not covered. *)
Theorem format_setlist_from_show_empty (setlist_data : list setlist_entry) :
  format_setlist_from_show setlist_data = "" <-> setlist_data = [].
Proof.
  split; [|intros ->; reflexivity].
  destruct setlist_data as [|entry entries]; [reflexivity|]. intros Hempty. exfalso.
  rewrite format_setlist_sets_in_order in Hempty. unfold sets_in_order in Hempty.
  cbn [map first_occurrences] in Hempty.
  apply (f_equal PyStr.truthy) in Hempty.
  rewrite join_cons_truthy in Hempty by apply format_set_truthy. discriminate Hempty.
Qed.

Lemma format_setlist_from_show_empty_example :
  format_setlist_from_show
    [ {| entry_set := None; entry_song := None; entry_position := None;
         entry_segue := None |} ] <> "".
Proof.
  intros Hempty. apply (proj1 (format_setlist_from_show_empty _)) in Hempty.
  discriminate Hempty.
Defined.

(** ** The set-wise formatter *)

Lemma format_setlist_sets acc setlist_data :
  fold_left format_setlist_set setlist_data acc
  = acc ++ map formatted_set (List.filter has_songs setlist_data).
Proof.
  revert acc. induction setlist_data as [|set_info rest IH]; intros acc.
  - rewrite app_nil_r. reflexivity.
  - assert (Hstep : format_setlist_set acc set_info
                    = acc ++ (if has_songs set_info then [formatted_set set_info] else [])).
    { unfold format_setlist_set, has_songs, formatted_set. cbv zeta.
      destruct (get_or (set_songs set_info) []); [rewrite app_nil_r|]; reflexivity. }
    cbn [fold_left List.filter]. rewrite IH, Hstep.
    destruct (has_songs set_info); cbn [map]; rewrite <- app_assoc; reflexivity.
Qed.

Lemma formatted_set_truthy set_info : PyStr.truthy (formatted_set set_info) = true.
Proof. unfold formatted_set. rewrite !truthy_append. cbn. apply orb_true_r. Qed.

Lemma filter_all_false {A : Type} (f : A -> bool) xs :
  (forall x, In x xs -> f x = false) -> List.filter f xs = [].
Proof.
  induction xs as [|x xs IH]; [reflexivity|]. intros H. cbn [List.filter].
  rewrite (H x) by (left; reflexivity). apply IH. intros y Hy. apply H. right. exact Hy.
Qed.

(** X18: [format_setlist] writes the sets that have songs, in the order of
    the input, and leaves the others out; its result is the empty string
    exactly when no set has a song. *)
Theorem format_setlist_skips_empty_sets (setlist_data : list setlist_set) :
  format_setlist setlist_data
  = PyStr.join " | " (map formatted_set (List.filter has_songs setlist_data)) /\
  (format_setlist setlist_data = "" <->
   forall set_info, In set_info setlist_data -> has_songs set_info = false).
Proof.
  assert (Hform : format_setlist setlist_data
                  = PyStr.join " | "
                      (map formatted_set (List.filter has_songs setlist_data))).
  { unfold format_setlist. destruct setlist_data as [|set_info rest]; [reflexivity|].
    rewrite format_setlist_sets. reflexivity. }
  split; [exact Hform|]. rewrite Hform. split.
  - intros Hempty set_info Hin. destruct (has_songs set_info) eqn:Hsongs; [|reflexivity].
    assert (Hkept : In set_info (List.filter has_songs setlist_data))
      by (apply List.filter_In; split; assumption).
    destruct (List.filter has_songs setlist_data) as [|first others]; [destruct Hkept|].
    apply (f_equal PyStr.truthy) in Hempty. cbn [map] in Hempty.
    rewrite join_cons_truthy in Hempty by apply formatted_set_truthy.
    discriminate Hempty.
  - intros Hnone. replace (List.filter has_songs setlist_data) with (@nil setlist_set);
      [reflexivity|].
    symmetry. apply filter_all_false, Hnone.
Qed.

Lemma format_setlist_skips_empty_sets_example :
  format_setlist example_sets = "Set 1: Tweezer > , Unknown Song | Unknown Set: Cavern".
Proof.
  rewrite (proj1 (format_setlist_skips_empty_sets example_sets)). reflexivity.
Defined.

(** ** File names *)

Lemma append_inj_l (s t u : string) : s +:+ t = s +:+ u -> t = u.
Proof.
  induction s as [|c s IH]; [rewrite !append_empty_l; auto|].
  rewrite !append_cons. intros H. injection H as H. apply IH, H.
Qed.

Lemma head_differs c d (s t : string) : Ascii.eqb c d = false -> String c s <> String d t.
Proof. intros Hne H. injection H as Hc _. subst. rewrite Ascii.eqb_refl in Hne. discriminate. Qed.

(** X19: for one year range the three exporters write three different
    files, whatever the time stamps: no export overwrites another. *)
Theorem generate_filename_by_file_type (timestamp timestamp' : string)
    (start_year end_year : option Z) :
  generate_filename timestamp start_year end_year standard_file_type
  <> generate_filename timestamp' start_year end_year wide_file_type /\
  generate_filename timestamp start_year end_year standard_file_type
  <> generate_filename timestamp' start_year end_year ml_file_type /\
  generate_filename timestamp start_year end_year wide_file_type
  <> generate_filename timestamp' start_year end_year ml_file_type.
Proof.
  unfold generate_filename. cbv zeta.
  set (year_str := match start_year with Some _ => _ | None => _ end).
  split; [|split]; intros H;
    apply append_inj_l, append_inj_l, append_inj_l in H;
    unfold standard_file_type, wide_file_type, ml_file_type in H;
    rewrite !append_cons in H; revert H; apply head_differs; reflexivity.
Qed.

Lemma generate_filename_by_file_type_example :
  generate_filename "20250101_120000" (Some 1997) (Some 1997) standard_file_type
  = "phish_shows_1997_standard_20250101_120000.csv" /\
  generate_filename "20250101_120000" (Some 1997) (Some 1997) standard_file_type
  <> generate_filename "20250101_120000" (Some 1997) (Some 1997) wide_file_type.
Proof.
  split; [reflexivity|].
  exact (proj1 (generate_filename_by_file_type "20250101_120000" "20250101_120000"
                  (Some 1997) (Some 1997))).
Defined.
(** ** The wide export: summary columns and header *)

Lemma wide_row_folds visiting show :
  wide_row visiting show
  = fold_left (add_song_columns (songs_played_of show) (song_counts_of show)) visiting
              (fold_left add_set_count (set_info_of show) (summary_row show)).
Proof. reflexivity. Qed.

Lemma startswith_append prefix rest : startswith prefix (prefix +:+ rest) = true.
Proof.
  unfold startswith. induction prefix as [|c prefix IH].
  - rewrite append_empty_l. apply prefix_empty.
  - rewrite append_cons, prefix_cons. destruct (ascii_dec c c); [exact IH|congruence].
Qed.

Lemma startswith_differs prefix key other :
  startswith prefix key = false -> key <> prefix +:+ other.
Proof. intros H ->. rewrite startswith_append in H. discriminate H. Qed.

Lemma add_set_counts_other key sets :
  startswith "songs_in_" key = false ->
  forall row, dict_get key (fold_left add_set_count sets row) = dict_get key row.
Proof.
  intros Hkey. induction sets as [|[set_name set_songs] sets IH]; intros row;
    [reflexivity|].
  cbn [fold_left]. rewrite IH. unfold add_set_count.
  apply dict_get_set_ne, startswith_differs, Hkey.
Qed.

Lemma add_song_columns_no_song key played counts songs :
  startswith "song_" key = false ->
  forall row,
    dict_get key (fold_left (add_song_columns played counts) songs row) = dict_get key row.
Proof.
  intros Hkey. apply add_song_columns_others. intros other _.
  unfold song_column, count_column. split; apply startswith_differs, Hkey.
Qed.

Lemma base_column_prefix column :
  In column base_columns ->
  startswith "songs_in_" column = false /\ startswith "song_" column = false.
Proof.
  unfold base_columns. cbn [In]. intros H.
  repeat (destruct H as [<-|H]; [split; reflexivity|]). destruct H.
Qed.

(** X20: no set column and no song column takes the place of a descriptive
    or summary column. Whatever the set labels and song names are, a wide
    row holds under each of the sixteen fixed columns what lines 373-398
    put there. *)
Theorem wide_row_keeps_summary (visiting : list string) (show : Show) (column : string) :
  In column base_columns ->
  dict_keys (summary_row show) = base_columns /\
  dict_get column (wide_row visiting show) = dict_get column (summary_row show).
Proof.
  intros Hcolumn. split; [reflexivity|].
  apply base_column_prefix in Hcolumn as [Hset Hsong].
  rewrite wide_row_folds, add_song_columns_no_song by exact Hsong.
  apply add_set_counts_other, Hset.
Qed.

Lemma wide_row_keeps_summary_example :
  dict_keys (summary_row show_with_repeat) = base_columns /\
  dict_get "total_songs"
           (wide_row ["Tweezer"; "Divided Sky"; "Run Like an Antelope"] show_with_repeat)
  = dict_get "total_songs" (summary_row show_with_repeat).
Proof.
  apply (wide_row_keeps_summary ["Tweezer"; "Divided Sky"; "Run Like an Antelope"]
           show_with_repeat "total_songs").
  unfold base_columns. cbn [In]. do 12 right. left. reflexivity.
Defined.

Lemma add_set_counts_keys key sets :
  forall row,
    In key (dict_keys (fold_left add_set_count sets row)) ->
    In key (dict_keys row) \/ startswith "songs_in_" key = true.
Proof.
  induction sets as [|[set_name set_songs] sets IH]; intros row Hin; [left; exact Hin|].
  cbn [fold_left] in Hin. apply IH in Hin as [Hin|Hin]; [|right; exact Hin].
  unfold add_set_count in Hin. apply dict_set_keys in Hin as [->|Hin];
    [right; apply startswith_append|left; exact Hin].
Qed.

Lemma add_song_columns_keys key played counts songs :
  forall row,
    In key (dict_keys (fold_left (add_song_columns played counts) songs row)) ->
    In key (dict_keys row) \/ startswith "song_" key = true.
Proof.
  induction songs as [|song songs IH]; intros row Hin; [left; exact Hin|].
  cbn [fold_left] in Hin. apply IH in Hin as [Hin|Hin]; [|right; exact Hin].
  unfold add_song_columns in Hin. cbv zeta in Hin.
  destruct (dict_has song counts && (1 <? dict_get_default 0 song counts)).
  - apply dict_set_keys in Hin as [->|Hin]; [right; apply startswith_append|].
    apply dict_set_keys in Hin as [->|Hin]; [right; apply startswith_append|left; exact Hin].
  - apply dict_set_keys in Hin as [->|Hin]; [right; apply startswith_append|left; exact Hin].
Qed.

(** The keys of a wide row: fixed columns, set columns and song columns. *)
Lemma wide_row_keys visiting show key :
  In key (dict_keys (wide_row visiting show)) ->
  In key base_columns \/ startswith "songs_in_" key = true \/ startswith "song_" key = true.
Proof.
  rewrite wide_row_folds. intros Hin.
  apply add_song_columns_keys in Hin as [Hin|Hin]; [|right; right; exact Hin].
  apply add_set_counts_keys in Hin as [Hin|Hin]; [|right; left; exact Hin].
  left. exact Hin.
Qed.

Lemma insert_string_in x y xs : In y (insert_string x xs) <-> y = x \/ In y xs.
Proof.
  induction xs as [|z xs IH]; cbn [insert_string In]; [intuition congruence|].
  destruct (String.leb x z); cbn [In]; [intuition congruence|].
  rewrite IH. intuition congruence.
Qed.

Lemma sorted_in y xs : In y (sorted xs) <-> In y xs.
Proof.
  induction xs as [|x xs IH]; [reflexivity|]. cbn [sorted In].
  rewrite insert_string_in, IH. intuition congruence.
Qed.

Lemma insert_string_nodup x xs :
  ~ In x xs -> List.NoDup xs -> List.NoDup (insert_string x xs).
Proof.
  induction xs as [|z xs IH]; intros Hnotin Hnodup; cbn [insert_string].
  - constructor; [intros []|constructor].
  - destruct (String.leb x z); [constructor; assumption|].
    inversion Hnodup as [|? ? Hz Hxs]; subst. constructor.
    + rewrite insert_string_in. intros [->|H]; [apply Hnotin; left; reflexivity|contradiction].
    + apply IH; [intros H; apply Hnotin; right; exact H|exact Hxs].
Qed.

Lemma sorted_nodup xs : List.NoDup xs -> List.NoDup (sorted xs).
Proof.
  induction 1 as [|x xs Hnotin Hnodup IH]; [constructor|]. cbn [sorted].
  apply insert_string_nodup; [rewrite sorted_in; exact Hnotin|exact IH].
Qed.

Lemma nodup_app {A : Type} (xs ys : list A) :
  List.NoDup xs -> List.NoDup ys -> (forall x, In x xs -> ~ In x ys) ->
  List.NoDup (xs ++ ys).
Proof.
  induction 1 as [|x xs Hnotin Hnodup IH]; intros Hys Hapart; [exact Hys|].
  cbn [app]. constructor.
  - rewrite in_app_iff. intros [H|H]; [contradiction|].
    apply (Hapart x); [left; reflexivity|exact H].
  - apply IH; [exact Hys|]. intros y Hy. apply Hapart. right. exact Hy.
Qed.

Lemma set_column_no_song_column key :
  startswith "songs_in_" key = true -> startswith "song_" key = false.
Proof.
  unfold startswith. intros H.
  destruct key as [|c1 key]; [discriminate H|]. rewrite prefix_cons in H.
  destruct (ascii_dec "s" c1) as [<-|]; [|discriminate H].
  destruct key as [|c2 key]; [discriminate H|]. rewrite prefix_cons in H.
  destruct (ascii_dec "o" c2) as [<-|]; [|discriminate H].
  destruct key as [|c3 key]; [discriminate H|]. rewrite prefix_cons in H.
  destruct (ascii_dec "n" c3) as [<-|]; [|discriminate H].
  destruct key as [|c4 key]; [discriminate H|]. rewrite prefix_cons in H.
  destruct (ascii_dec "g" c4) as [<-|]; [|discriminate H].
  destruct key as [|c5 key]; [discriminate H|]. rewrite prefix_cons in H.
  destruct (ascii_dec "s" c5) as [<-|]; [|discriminate H].
  reflexivity.
Qed.

Lemma base_columns_nodup : List.NoDup base_columns.
Proof.
  unfold base_columns. repeat (apply List.NoDup_cons; [not_among_strings|]).
  apply List.NoDup_nil.
Qed.

(** X21: the header of the wide file names every key of every row, and
    names no column twice: the sixteen fixed columns, the set columns and the
    song columns do not overlap. *)
Theorem wide_fieldnames_cover (visiting : list string) (data : list Show)
    (columns_visiting : list string) :
  visits_columns columns_visiting (wide_data visiting data) ->
  (forall row key,
      In row (wide_data visiting data) -> In key (dict_keys row) ->
      In key (wide_fieldnames columns_visiting)) /\
  List.NoDup (wide_fieldnames columns_visiting).
Proof.
  intros [Hnodup Hvisits]. unfold wide_fieldnames. cbv zeta. split.
  - intros row key Hrow Hkey.
    assert (Hvisited : In key columns_visiting)
      by (apply Hvisits; exists row; split; assumption).
    unfold wide_data in Hrow. apply in_map_iff in Hrow as (show & <- & _).
    rewrite !in_app_iff, sorted_in, !List.filter_In.
    apply wide_row_keys in Hkey as [Hkey|[Hkey|Hkey]]; auto.
  - apply nodup_app; [apply base_columns_nodup| |].
    + apply nodup_app; [apply List.NoDup_filter, Hnodup| |].
      * apply sorted_nodup, List.NoDup_filter, Hnodup.
      * intros key Hset Hsong. apply List.filter_In in Hset as [_ Hset].
        apply sorted_in, List.filter_In in Hsong as [_ Hsong].
        rewrite (set_column_no_song_column key Hset) in Hsong. discriminate Hsong.
    + intros key Hbase Hin. apply base_column_prefix in Hbase as [Hset Hsong].
      rewrite in_app_iff, sorted_in, !List.filter_In in Hin.
      destruct Hin as [[_ H]|[_ H]]; congruence.
Qed.

Lemma wide_fieldnames_cover_example :
  let visiting := ["Tweezer"; "Divided Sky"; "Run Like an Antelope"] in
  let data := [show_with_repeat] in
  let columns_visiting := dict_keys (wide_row visiting show_with_repeat) in
  (forall row key,
      In row (wide_data visiting data) -> In key (dict_keys row) ->
      In key (wide_fieldnames columns_visiting)) /\
  List.NoDup (wide_fieldnames columns_visiting).
Proof.
  cbv zeta. apply wide_fieldnames_cover. split.
  - vm_compute. repeat (apply List.NoDup_cons; [not_among_strings|]).
    apply List.NoDup_nil.
  - intros key. unfold wide_data. cbn [map]. split.
    + intros H. eexists. split; [left; reflexivity|exact H].
    + intros (row & [<-|[]] & H). exact H.
Defined.
(** ** A run without API key *)

Lemma after_no_pause self w : after_batch_pauses self 0 w = w.
Proof. unfold after_batch_pauses. destruct w. cbn. rewrite app_nil_r. reflexivity. Qed.

Lemma after_one_more_pause self n w :
  {| all_songs := all_songs (after_batch_pauses self n w);
     requests_sent := requests_sent (after_batch_pauses self n w);
     trace := trace (after_batch_pauses self n w) ++ [Sleep BatchDelay (batch_delay self)] |}
  = after_batch_pauses self (S n) w.
Proof.
  unfold after_batch_pauses. cbn [all_songs requests_sent trace]. f_equal.
  rewrite <- app_assoc. f_equal. symmetry. apply (repeat_cons n).
Qed.

Section WithoutKey.
Variable shows_api : nat -> Z -> http_outcome raw_show.
Variable now_year : Z.
Variable self : extractor.
Hypothesis no_key : PyStr.truthy (api_key self) = false.

Lemma fetch_years_without_key years all_shows w :
  foldM (fetch_year shows_api self) years all_shows w = (inl all_shows, w).
Proof.
  induction years as [|year years IH]; [reflexivity|].
  cbn [foldM]. unfold bind. unfold fetch_year at 1. unfold bind, make_request.
  rewrite no_key. cbn [ret response_data]. exact IH.
Qed.

Lemma fetch_year_batches_without_key end_year starts :
  forall all_shows n w,
  exists n',
    foldM (fetch_year_batch shows_api self end_year) starts all_shows
          (after_batch_pauses self n w)
    = (inl all_shows, after_batch_pauses self n' w) /\
    (n' <= n + length starts)%nat.
Proof.
  induction starts as [|year_start starts IH]; intros all_shows n w.
  - exists n. split; [reflexivity|lia].
  - cbn [foldM]. unfold bind. unfold fetch_year_batch at 1. unfold bind.
    rewrite fetch_years_without_key.
    destruct (Z.min (year_start + year_batch_size - 1) end_year <? end_year).
    + unfold sleep, ret. rewrite after_one_more_pause.
      destruct (IH all_shows (S n) w) as (n' & Hrun & Hle). exists n'.
      split; [exact Hrun|cbn [length]; lia].
    + unfold ret. destruct (IH all_shows n w) as (n' & Hrun & Hle). exists n'.
      split; [exact Hrun|cbn [length]; lia].
Qed.
End WithoutKey.

(** X22: a client without API key sends no request. [extract_all_data]
    returns the empty list, leaves the song set as it is, and does nothing
    but pause between the year batches, at most once for each batch. *)
Theorem extract_all_data_without_key (shows_api : nat -> Z -> http_outcome raw_show)
    (setlists_api : nat -> string -> http_outcome setlist_entry)
    (now_year : Z) (self : extractor) (start_year end_year : option Z) (w : world) :
  PyStr.truthy (api_key self) = false ->
  exists pauses,
    extract_all_data shows_api setlists_api now_year self start_year end_year w
    = (inl [], after_batch_pauses self pauses w) /\
    (pauses <= length (py_range (first_year start_year)
                                (last_year now_year end_year + 1) year_batch_size))%nat.
Proof.
  intros Hkey. unfold extract_all_data, bind, get_all_shows.
  fold (first_year start_year). fold (last_year now_year end_year).
  destruct (fetch_year_batches_without_key shows_api self Hkey
              (last_year now_year end_year)
              (py_range (first_year start_year) (last_year now_year end_year + 1)
                        year_batch_size)
              [] 0%nat w) as (pauses & Hrun & Hle).
  rewrite after_no_pause in Hrun. rewrite Hrun. exists pauses.
  split; [reflexivity|exact Hle].
Qed.

Lemma extract_all_data_without_key_example :
  exists pauses,
    extract_all_data example_shows_api example_setlists_api 2025
                     (PhishDataExtractor "") (Some 2015) None initial_world
    = (inl [], after_batch_pauses (PhishDataExtractor "") pauses initial_world) /\
    (pauses <= 3)%nat.
Proof.
  apply (extract_all_data_without_key example_shows_api example_setlists_api 2025
           (PhishDataExtractor "") (Some 2015) None initial_world).
  reflexivity.
Defined.
(** ** Names without letters and digits *)

Lemma sub_non_word_alnum c :
  is_alnum (if PyStr.is_word c then c else "_"%char) = is_alnum c.
Proof. each_ascii c. Qed.

Lemma lower_char_alnum c : is_alnum (PyStr.lower_char c) = is_alnum c.
Proof. each_ascii c. Qed.

Lemma underscore_no_alnum c : PyStr.is_underscore c = true -> negb (is_alnum c) = true.
Proof. each_ascii c. Qed.

Lemma not_alnum_word c :
  negb (is_alnum c) = true ->
  PyStr.is_underscore (if PyStr.is_word c then c else "_"%char) = true.
Proof. each_ascii c. Qed.

Lemma no_alnum_sub_non_word s : no_alnum (PyStr.sub_non_word s) = no_alnum s.
Proof.
  unfold no_alnum. induction s as [|c s IH]; [reflexivity|].
  cbn [PyStr.sub_non_word all_chars]. rewrite sub_non_word_alnum, IH. reflexivity.
Qed.

Lemma no_alnum_sub_underscore_runs s :
  no_alnum (PyStr.sub_underscore_runs s) = no_alnum s.
Proof.
  unfold no_alnum. induction s as [|c s IH]; [reflexivity|].
  destruct s as [|d s]; [reflexivity|]. rewrite sub_underscore_runs_cons.
  destruct (Ascii.eqb c "_") eqn:Ec; cbn [andb].
  - apply Ascii.eqb_eq in Ec. subst c. destruct (Ascii.eqb d "_"); [exact IH|].
    cbn [all_chars] in *. rewrite IH. reflexivity.
  - cbn [all_chars] in *. rewrite IH. reflexivity.
Qed.

Lemma no_alnum_strip s :
  no_alnum (PyStr.strip_by PyStr.is_underscore s) = no_alnum s.
Proof.
  unfold no_alnum.
  destruct (strip_decompose PyStr.is_underscore s) as (a & b & Ha & Hb & Hs).
  rewrite Hs at 2. rewrite !all_chars_app.
  rewrite (all_chars_weaken _ _ a underscore_no_alnum Ha).
  rewrite (all_chars_weaken _ _ b underscore_no_alnum Hb).
  rewrite andb_true_r. reflexivity.
Qed.

Lemma no_alnum_lower s : no_alnum (PyStr.lower s) = no_alnum s.
Proof.
  unfold no_alnum. induction s as [|c s IH]; [reflexivity|].
  cbn [PyStr.lower all_chars]. rewrite lower_char_alnum, IH. reflexivity.
Qed.

Lemma no_alnum_underscores s :
  no_alnum s = true -> all_chars PyStr.is_underscore (PyStr.sub_non_word s) = true.
Proof.
  unfold no_alnum. induction s as [|c s IH]; [reflexivity|].
  cbn [PyStr.sub_non_word all_chars]. intros H. apply andb_true_iff in H as [Hc H].
  rewrite (not_alnum_word c Hc), IH by exact H. reflexivity.
Qed.

(** X23: the column name of a song is empty exactly when the song name has
    no ASCII letter and no digit; the wide export writes all such songs to
    the one column "song_". *)
Theorem clean_column_name_empty (name : string) :
  (clean_column_name name = "" <-> no_alnum name = true) /\
  (no_alnum name = true -> song_column name = "song_").
Proof.
  assert (Hempty : no_alnum name = true -> clean_column_name name = "").
  { intros Hnone. unfold clean_column_name. cbv zeta.
    rewrite strip_all_stripped; [reflexivity|].
    apply sub_underscore_runs_all, no_alnum_underscores, Hnone. }
  split; [split; [|exact Hempty]|].
  - intros Hclean.
    rewrite <- no_alnum_sub_non_word, <- no_alnum_sub_underscore_runs, <- no_alnum_strip,
      <- no_alnum_lower.
    change (no_alnum (clean_column_name name) = true). rewrite Hclean. reflexivity.
  - intros Hnone. unfold song_column. rewrite (Hempty Hnone). reflexivity.
Qed.

Lemma clean_column_name_empty_example :
  clean_column_name "?!" = "" /\ song_column "(untitled)" <> "song_".
Proof.
  split.
  - apply (proj1 (clean_column_name_empty "?!")). reflexivity.
  - intros H. assert (Hnone : no_alnum "(untitled)" = true).
    { apply (proj1 (clean_column_name_empty "(untitled)")).
      unfold song_column in H. apply (append_inj_l "song_"). rewrite append_empty_r.
      exact H. }
    discriminate Hnone.
Defined.
